(** * Readiness coordination and document-load orchestration of common.js

    A shallow embedding of the script that the loader injects into the hosted
    editor SDK (src/unnamed/part_000): the Promise-based readiness barrier
    ([overrideStatus], [checkAllReady]), the two watcher utilities
    ([waitForProperty], [waitForPath]), the minified-SDK detection, the
    document-load entry point [DesktopOfflineAppDocumentEndLoad] and the title
    helper [DesktopOfflineUpdateLocalName].

    JavaScript objects live in a heap of property tables, so that a watcher and
    the SDK code that later assigns a property share the same object.  Timers
    are entries of a timer table fired by an explicit event loop; Promise
    reactions are queued as microtasks and drained at the end of each task.
    The script runs in strict mode: an exception that nothing catches ends
    the running job and is kept in the list [uncaught] of the state. *)

From Stdlib Require Import ZArith Ascii String List Bool Lia.
From stdpp Require Import gmap strings list fin_maps.
Import ListNotations.

Local Open Scope string_scope.
Local Open Scope Z_scope.

(** ** JavaScript string primitives used by the script *)

Module JsString.

(** [s.indexOf(p) === 0] is decided by a prefix test. *)
Fixpoint startsWith (p s : string) : bool :=
  match p, s with
  | EmptyString, _ => true
  | String a p', String b s' => Ascii.eqb a b && startsWith p' s'
  | String _ _, EmptyString => false
  end.

(** [s.indexOf(p)]: index of the first occurrence, [-1] when there is none. *)
Fixpoint indexOf_from (p s : string) (i : Z) : Z :=
  if startsWith p s then i
  else match s with
       | EmptyString => -1
       | String _ s' => indexOf_from p s' (i + 1)
       end.

Definition indexOf (s p : string) : Z := indexOf_from p s 0.

(** [s.lastIndexOf(p)]: index of the last occurrence, [-1] when there is none. *)
Fixpoint lastIndexOf_from (p s : string) (i best : Z) : Z :=
  let best' := if startsWith p s then i else best in
  match s with
  | EmptyString => best'
  | String _ s' => lastIndexOf_from p s' (i + 1) best'
  end.

Definition lastIndexOf (s p : string) : Z := lastIndexOf_from p s 0 (-1).

Fixpoint drop (n : nat) (s : string) : string :=
  match n, s with
  | O, _ => s
  | S n', String _ s' => drop n' s'
  | S _, EmptyString => EmptyString
  end.

Fixpoint take (n : nat) (s : string) : string :=
  match n, s with
  | S n', String c s' => String c (take n' s')
  | _, _ => EmptyString
  end.

Definition len (s : string) : Z := Z.of_nat (String.length s).

(** [s.substring(from)]; a negative index counts as [0]. *)
Definition substringFrom (s : string) (from : Z) : string :=
  drop (Z.to_nat from) s.

(** [s.substring(from, to)], indices clamped at [0] and swapped when
    [from > to], as the language defines it. *)
Definition substring (s : string) (from to : Z) : string :=
  let lo := Z.max 0 (Z.min from to) in
  let hi := Z.max 0 (Z.max from to) in
  take (Z.to_nat (hi - lo)) (drop (Z.to_nat lo) s).

(** [s.charAt(i)]: a one-character string, empty when out of range. *)
Definition charAt (s : string) (i : Z) : string :=
  if i <? 0 then EmptyString else take 1 (drop (Z.to_nat i) s).

(** [s.split(sep)] for a one-character separator. *)
Fixpoint split (sep : ascii) (s : string) : list string :=
  match s with
  | EmptyString => [EmptyString]
  | String c s' =>
      if Ascii.eqb c sep then EmptyString :: split sep s'
      else match split sep s' with
           | h :: t => String c h :: t
           | [] => [String c EmptyString]
           end
  end.

(** [parts.join(sep)]. *)
Fixpoint join (sep : string) (l : list string) : string :=
  match l with
  | [] => EmptyString
  | [x] => x
  | x :: rest => (x ++ sep ++ join sep rest)%string
  end.

End JsString.

(** ** Values, property descriptors and the object heap *)

Inductive value : Type :=
| VUndefined
| VNull
| VBool (b : bool)
| VNum (n : Z)
| VStr (s : string)
| VRef (a : nat)            (* an object (or constructor function) of the heap *)
| VFun (name : string)      (* a function defined by this script *)
| VPromise.                 (* the promise object [_commonJsReady] *)

(** Truthiness, as tested by [if (v)], [!v], [a && b]. *)
Definition truthy (v : value) : bool :=
  match v with
  | VUndefined | VNull => false
  | VBool b => b
  | VNum n => negb (n =? 0)
  | VStr s => negb (String.eqb s "")
  | VRef _ | VFun _ | VPromise => true
  end.

(** [v !== undefined]. *)
Definition defined (v : value) : bool :=
  match v with VUndefined => false | _ => true end.

(** An object, as opposed to [undefined], [null] and the primitives: what a
    property can be written on in strict mode. *)
Definition isObject (v : value) : bool :=
  match v with
  | VRef _ | VFun _ | VPromise => true
  | _ => false
  end.

(** The callbacks handed to the watchers.  The three [waitForPath] calls of the
    script pass the patch routines; [CbCDocsCoApi] is the inner routine of
    OVERRIDE 3, a closure over the [DocumentUrls] constructor found first.
    [CbUser] stands for any other caller-supplied function. *)
Inductive callback : Type :=
| CbBaseEditorsApi
| CbFonts
| CbDocumentUrls
| CbCDocsCoApi (DocumentUrls : value)
| CbUser (n : nat).

(** An own property of an object.  [Accessor] is an accessor pair installed by
    another party, a getter and a setter over a hidden slot; [Intercept] is the
    accessor pair [waitForProperty] installs, a closure over its local
    [value] and the waiting callback. *)
Inductive prop : Type :=
| Data (v : value)
| Accessor (slot : value) (hasGet hasSet : bool)
| Intercept (val : value) (cb : callback).

Definition read (d : prop) : value :=
  match d with
  | Data v => v
  | Accessor slot hasGet _ => if hasGet then slot else VUndefined
  | Intercept val _ => val
  end.

(** [descriptor && (descriptor.get || descriptor.set)]. *)
Definition hasAccessor (d : option prop) : bool :=
  match d with
  | Some (Accessor _ hasGet hasSet) => hasGet || hasSet
  | Some (Intercept _ _) => true
  | Some (Data _) | None => false
  end.

Abbreviation object := (gmap string prop).
Abbreviation heapT := (gmap nat object).

(** [Object.getOwnPropertyDescriptor(obj, p)]. *)
Definition getOwnPropertyDescriptor (h : heapT) (obj : value) (p : string) : option prop :=
  match obj with
  | VRef a => match h !! a with Some o => o !! p | None => None end
  | _ => None
  end.

(** [obj[p]] for a truthy [obj].  Objects are flat property tables; a primitive
    has no properties of interest here. *)
Definition get (h : heapT) (obj : value) (p : string) : value :=
  match getOwnPropertyDescriptor h obj p with
  | Some d => read d
  | None => VUndefined
  end.

(** [Object.defineProperty(obj, p, d)] on an extensible object with
    configurable properties. *)
Definition defineProperty (h : heapT) (obj : value) (p : string) (d : prop) : heapT :=
  match obj with
  | VRef a => <[a := <[p := d]> (default ∅ (h !! a))]> h
  | _ => h
  end.

(** The exceptions the script can run into: an unresolvable name, and a
    property read or written on [undefined], [null] or, for a write in strict
    mode, a primitive. *)
Inductive exn : Type := ReferenceError | TypeError.

(** The outcome of evaluating an expression. *)
Inductive outcome (A : Type) : Type :=
| Ok (a : A)
| Throw (e : exn).

Arguments Ok {A} a.
Arguments Throw {A} e.

(** The global object. *)
Definition window : value := VRef 0.

(** The bare name [name]: a [ReferenceError] unless the global object has
    the property. *)
Definition identifier (h : heapT) (name : string) : outcome value :=
  match getOwnPropertyDescriptor h window name with
  | Some d => Ok (read d)
  | None => Throw ReferenceError
  end.

(** [v.p]: a [TypeError] on [undefined] and [null]. *)
Definition member (h : heapT) (v : value) (p : string) : outcome value :=
  match v with
  | VUndefined | VNull => Throw TypeError
  | _ => Ok (get h v p)
  end.

(** Can [x.prototype.m = f] be carried out: [x.prototype] must be an object.
    A function of this script has a prototype object of its own. *)
Definition patchable (h : heapT) (x : value) : bool :=
  match x with
  | VFun _ => true
  | _ => isObject (get h x "prototype")
  end.

(** ** The state of one page load *)

(** [overrideStatus]: which overrides have completed. *)
Record status : Type := Status {
  baseEditorsApi : bool;
  fonts : bool;
  sdk : bool
}.

Inductive promiseState : Type := Pending | Fulfilled.

(** Functions passed to [_commonJsReady.then]. *)
Inductive reaction : Type :=
| DocumentEndLoadBody (_url _data : string) (_len : Z)
| SetupEncryption
| Listener (n : nat).

Inductive level : Type := LvLog | LvWarn | LvError.

(** One console call: its level and its arguments. *)
Definition entry : Type := level * list string.

(** Arguments of [sendEvent]. *)
Inductive evarg : Type :=
| ConvertationOpenError     (* c_oAscError.ID.ConvertationOpenError *)
| Critical                  (* c_oAscError.Level.Critical *)
| ArgStr (s : string)
| ArgBool (b : bool)
| ArgList (l : list string).

(** Calls that leave this script: into caller-supplied callbacks, the SDK
    constructors being patched, the editor object and the host bridge. *)
Inductive call : Type :=
| Invoke (n : nat) (arg : value)
| ApplyOverrides (subsystem : string) (target : value)
| SetOpenedAt (t : Z)
| CheckUserId
| SendEvent (name : string) (args : list evarg)
| GetOpenedFile (token : string)
| Base64Decode (data : string) (len : Z)
| CheckStreamSignature
| OpenDocument (url : string)
| SetFastCollaborative (b : bool)
| RegisterCallback (name : string)
| SpellcheckGetLanguages
| LocalFileGetSourcePath
| AssignDocumentTitle (name : string)
| SetDocumentName (name : string).

(** The local variables of one [waitForPath] call. *)
Record watch : Type := Watch {
  pathStr : string;
  parts : list string;
  onFound : callback;
  startTime : Z;
  maxWait : Z
}.

(** Bodies of the functions given to [setInterval] and [setTimeout]. *)
Inductive task : Type :=
| PathPoll (w : watch) (obj : value) (idx : nat)
| PropPoll (obj : value) (p : string) (cb : callback)
| UpdateLocalName
| SendDocumentName (name : string).

Record timer : Type := Timer {
  body : task;
  period : option Z;          (* [Some p] for setInterval, [None] for setTimeout *)
  due : Z
}.

Record state : Type := State {
  heap : heapT;
  overrideStatus : status;
  ready : promiseState;             (* the promise [_commonJsReady] *)
  reactions : list reaction;        (* [then] callbacks waiting on it *)
  microtasks : list reaction;       (* reactions queued to run after the current task *)
  timers : gmap nat timer;
  nextTimer : nat;
  now : Z;                          (* [Date.now()] *)
  console : list entry;
  calls : list call;
  documentLoadStarted : bool;       (* [_documentLoadStarted]; false while undefined *)
  documentUrl : value;              (* [AscCommon.g_oDocumentUrls.documentUrl] *)
  uncaught : list exn               (* the exceptions that ended a job, oldest first *)
}.

Definition set_heap (h : heapT) (st : state) : state :=
  State h (overrideStatus st) (ready st) (reactions st) (microtasks st) (timers st)
        (nextTimer st) (now st) (console st) (calls st) (documentLoadStarted st)
        (documentUrl st) (uncaught st).

Definition set_status (f : status) (st : state) : state :=
  State (heap st) f (ready st) (reactions st) (microtasks st) (timers st)
        (nextTimer st) (now st) (console st) (calls st) (documentLoadStarted st)
        (documentUrl st) (uncaught st).

Definition set_promise (p : promiseState) (rs ms : list reaction) (st : state) : state :=
  State (heap st) (overrideStatus st) p rs ms (timers st)
        (nextTimer st) (now st) (console st) (calls st) (documentLoadStarted st)
        (documentUrl st) (uncaught st).

Definition set_timers (ts : gmap nat timer) (next : nat) (st : state) : state :=
  State (heap st) (overrideStatus st) (ready st) (reactions st) (microtasks st) ts
        next (now st) (console st) (calls st) (documentLoadStarted st)
        (documentUrl st) (uncaught st).

Definition set_now (t : Z) (st : state) : state :=
  State (heap st) (overrideStatus st) (ready st) (reactions st) (microtasks st) (timers st)
        (nextTimer st) t (console st) (calls st) (documentLoadStarted st)
        (documentUrl st) (uncaught st).

Definition print (lv : level) (args : list string) (st : state) : state :=
  State (heap st) (overrideStatus st) (ready st) (reactions st) (microtasks st) (timers st)
        (nextTimer st) (now st) (console st ++ [(lv, args)]) (calls st)
        (documentLoadStarted st) (documentUrl st) (uncaught st).

Definition emit (c : call) (st : state) : state :=
  State (heap st) (overrideStatus st) (ready st) (reactions st) (microtasks st) (timers st)
        (nextTimer st) (now st) (console st) (calls st ++ [c]) (documentLoadStarted st)
        (documentUrl st) (uncaught st).

Definition set_started (b : bool) (st : state) : state :=
  State (heap st) (overrideStatus st) (ready st) (reactions st) (microtasks st) (timers st)
        (nextTimer st) (now st) (console st) (calls st) b (documentUrl st) (uncaught st).

Definition set_documentUrl (u : value) (st : state) : state :=
  State (heap st) (overrideStatus st) (ready st) (reactions st) (microtasks st) (timers st)
        (nextTimer st) (now st) (console st) (calls st) (documentLoadStarted st) u
        (uncaught st).

(** [throw e] with no handler around: the exception is recorded; the caller
    ends the job. *)
Definition raise (e : exn) (st : state) : state :=
  State (heap st) (overrideStatus st) (ready st) (reactions st) (microtasks st) (timers st)
        (nextTimer st) (now st) (console st) (calls st) (documentLoadStarted st)
        (documentUrl st) (uncaught st ++ [e]).

(** Did an exception leave the call that took [st] to [st']. *)
Definition threw (st st' : state) : bool :=
  (length (uncaught st) <? length (uncaught st'))%nat.

(** A write of this script to one of its own globals. *)
Definition store (obj : value) (p : string) (v : value) (st : state) : state :=
  set_heap (defineProperty (heap st) obj p (Data v)) st.

(** [setInterval(body, p)]: returns the handle and the new state. *)
Definition setInterval (b : task) (p : Z) (st : state) : nat * state :=
  let id := nextTimer st in
  (id, set_timers (<[id := Timer b (Some p) (now st + p)]> (timers st)) (S id) st).

(** [setTimeout(body, delay)]. *)
Definition setTimeout (b : task) (delay : Z) (st : state) : state :=
  let id := nextTimer st in
  set_timers (<[id := Timer b None (now st + delay)]> (timers st)) (S id) st.

Definition clearInterval (id : nat) (st : state) : state :=
  set_timers (delete id (timers st)) (nextTimer st) st.

(** ** The readiness barrier *)

(** [_resolveReady()]: the resolving function of [_commonJsReady].  Only the
    first call settles the promise and queues the waiting reactions; a promise
    that is already fulfilled ignores further calls. *)
Definition resolveReady (st : state) : state :=
  match ready st with
  | Pending => set_promise Fulfilled [] (microtasks st ++ reactions st) st
  | Fulfilled => st
  end.

(** [_commonJsReady.then(r)]. *)
Definition thenReady (r : reaction) (st : state) : state :=
  match ready st with
  | Pending => set_promise Pending (reactions st ++ [r]) (microtasks st) st
  | Fulfilled => set_promise Fulfilled (reactions st) (microtasks st ++ [r]) st
  end.

Definition allReady (f : status) : bool :=
  baseEditorsApi f && fonts f && sdk f.

Definition checkAllReady (st : state) : state :=
  if allReady (overrideStatus st) then
    resolveReady
      (print LvLog ["[common.js] All SDK overrides complete - ready for document loading"] st)
  else st.

(** The three flags, named as the patch routines name them. *)
Inductive subsystem : Type := BaseEditorsApi | Fonts | Sdk.

Definition mark (s : subsystem) (f : status) : status :=
  match s with
  | BaseEditorsApi => Status true (fonts f) (sdk f)
  | Fonts => Status (baseEditorsApi f) true (sdk f)
  | Sdk => Status (baseEditorsApi f) (fonts f) true
  end.

Definition flag (s : subsystem) (f : status) : bool :=
  match s with
  | BaseEditorsApi => baseEditorsApi f
  | Fonts => fonts f
  | Sdk => sdk f
  end.

Definition completeMessage (s : subsystem) : string :=
  match s with
  | BaseEditorsApi => "[common.js] baseEditorsApi overrides complete"
  | Fonts => "[common.js] Font loading overrides complete"
  | Sdk => "[common.js] SDK document/image overrides complete"
  end.

(** The last three statements of every patch routine:
    [overrideStatus.s = true; console.log(...); checkAllReady();]. *)
Definition complete (s : subsystem) (st : state) : state :=
  checkAllReady
    (print LvLog [completeMessage s] (set_status (mark s (overrideStatus st)) st)).

(** The timeout and failure branches of [waitForPath] and the minified-SDK
    branch: all three flags set, then [checkAllReady()]. *)
Definition forceComplete (st : state) : state :=
  checkAllReady (set_status (Status true true true) st).

(** ** The patch routines *)

(** The writes [x.prototype.m = ...] of a patch routine, then the rest [k]
    of the routine.  The first write throws unless [x.prototype] is an
    object; the overrides installed on it are recorded as one
    [ApplyOverrides] call and not entered in the heap: no expression of this
    script reads a property under one of the names written. *)
Definition patch (name : string) (x : value) (k : state -> state) (st : state) : state :=
  if patchable (heap st) x then k (emit (ApplyOverrides name x) st)
  else raise TypeError st.

(** [if (window.Asc && window.Asc[name]) { window.Asc[name].prototype... }] *)
Definition patchIfThere (name : string) (k : state -> state) (st : state) : state :=
  let asc := get (heap st) window "Asc" in
  if truthy asc && truthy (get (heap st) asc name)
  then patch name (get (heap st) asc name) k st
  else k st.

(** [AscCommon.p = f] for a function [f] of the script, then the rest [k]:
    the bare name has to resolve, and to an object. *)
Definition assignCommon (k : state -> state) (st : state) : state :=
  match identifier (heap st) "AscCommon" with
  | Throw e => raise e st
  | Ok c => if isObject c then k st else raise TypeError st
  end.

(** The callbacks that do not arm a further watch.  Each patch routine logs,
    installs its overrides and ends with [complete].  The routine of
    OVERRIDE 3 patches [DocumentUrls], assigns [AscCommon.sendImgUrls],
    patches [CDocsCoApi], then [Asc.CAscWatermarkProperties] and
    [Asc.asc_CBullet] where the page has them, and assigns
    [AscCommon.InitDragAndDrop] (to the object the first assignment found:
    nothing in between writes to the heap).  [CbDocumentUrls] is not one of
    them: [run_callback] below gives its body. *)
Definition leaf (cb : callback) (v : value) (st : state) : state :=
  match cb with
  | CbBaseEditorsApi =>
      patch "baseEditorsApi" v (complete BaseEditorsApi)
        (print LvLog ["[common.js] Applying baseEditorsApi overrides"] st)
  | CbFonts =>
      patch "CFontFileLoader" v (complete Fonts)
        (print LvLog ["[common.js] Applying font loading overrides"] st)
  | CbCDocsCoApi du =>
      patch "DocumentUrls" du
        (assignCommon
           (patch "CDocsCoApi" v
              (patchIfThere "CAscWatermarkProperties"
                 (patchIfThere "asc_CBullet" (complete Sdk)))))
        (print LvLog ["[common.js] Applying SDK document/image overrides"] st)
  | CbUser n => emit (Invoke n v) st
  | CbDocumentUrls => st
  end.

(** ** waitForPath *)

Definition timeoutMessage (path : string) : list string :=
  ["[common.js] Timeout waiting for:"; path; "- resolving anyway to prevent hang"].

Definition failedMessage (w : watch) (idx : nat) : list string :=
  ["[common.js] Path resolution failed at:"; JsString.join "." (firstn idx (parts w))].

Section Resolve.

(** How a callback is called; tied below, once the routine of OVERRIDE 3,
    which itself calls [waitForPath], is defined. *)
Variable run : callback -> value -> state -> state.

(** The inner function [resolve(obj, idx)]; [rest] is [parts] from [idx] on. *)
Fixpoint resolveWith (w : watch) (rest : list string) (idx : nat)
         (obj : value) (st : state) : state :=
  match rest with
  | [] => run (onFound w) obj st
  | p :: rest' =>
      if truthy obj && defined (get (heap st) obj p) then
        resolveWith w rest' (S idx) (get (heap st) obj p) st
      else if truthy obj then
        snd (setInterval (PathPoll w obj idx) 20 st)
      else
        forceComplete (print LvError (failedMessage w idx) st)
  end.

(** [maxWait = maxWait || 10000]. *)
Definition effectiveMaxWait (m : option Z) : Z :=
  match m with
  | Some n => if n =? 0 then 10000 else n
  | None => 10000
  end.

Definition waitForPathWith (path : string) (cb : callback) (m : option Z)
           (st : state) : state :=
  let st1 := print LvLog ["[common.js] waitForPath starting:"; path] st in
  let w := Watch path (JsString.split "." path) cb (now st1) (effectiveMaxWait m) in
  resolveWith w (parts w) 0 window st1.

End Resolve.

(** Calling a callback.  The routine given for [AscCommon.DocumentUrls] waits
    for [AscCommon.CDocsCoApi] in turn. *)
Definition run_callback (cb : callback) (v : value) (st : state) : state :=
  match cb with
  | CbDocumentUrls => waitForPathWith leaf "AscCommon.CDocsCoApi" (CbCDocsCoApi v) None st
  | _ => leaf cb v st
  end.

Definition resolve := resolveWith run_callback.
Definition waitForPath := waitForPathWith run_callback.

(** The function given to [setInterval] by [resolve], run with handle [id]. *)
Definition pathPoll (id : nat) (w : watch) (obj : value) (idx : nat) (st : state) : state :=
  let p := nth idx (parts w) "undefined" in
  if now st - startTime w >? maxWait w then
    forceComplete (print LvError (timeoutMessage (pathStr w)) (clearInterval id st))
  else if defined (get (heap st) obj p) then
    resolve w (skipn (S idx) (parts w)) (S idx) (get (heap st) obj p) (clearInterval id st)
  else st.

(** ** waitForProperty *)

Definition waitForProperty (obj : value) (p : string) (cb : callback) (st : state) : state :=
  if negb (truthy obj) then
    print LvError ["[common.js] waitForProperty: obj is undefined for prop:"; p] st
  else if defined (get (heap st) obj p) then
    run_callback cb (get (heap st) obj p) st
  else if hasAccessor (getOwnPropertyDescriptor (heap st) obj p) then
    snd (setInterval (PropPoll obj p cb) 10 st)
  else if isObject obj then
    set_heap (defineProperty (heap st) obj p (Intercept VUndefined cb)) st
  else raise TypeError st.

(** The function given to [setInterval] by [waitForProperty]. *)
Definition propPoll (id : nat) (obj : value) (p : string) (cb : callback) (st : state) : state :=
  if defined (get (heap st) obj p) then
    run_callback cb (get (heap st) obj p) (clearInterval id st)
  else st.

(** An assignment [obj[p] = v] made by SDK or host code.  On the accessor
    installed by [waitForProperty] it runs that setter: the property is
    redefined as a plain writable value, then the callback is called. *)
Definition assign (obj : value) (p : string) (v : value) (st : state) : state :=
  match getOwnPropertyDescriptor (heap st) obj p with
  | Some (Intercept _ cb) =>
      run_callback cb v (set_heap (defineProperty (heap st) obj p (Data v)) st)
  | Some (Accessor slot hasGet hasSet) =>
      if hasSet then set_heap (defineProperty (heap st) obj p (Accessor v hasGet hasSet)) st
      else st
  | Some (Data _) | None =>
      set_heap (defineProperty (heap st) obj p (Data v)) st
  end.

(** ** Document base URL and display title *)

Definition code (c : ascii) : Z := Z.of_N (N_of_ascii c).

(** [[a-zA-Z]] *)
Definition isLetter (c : ascii) : bool :=
  ((65 <=? code c) && (code c <=? 90)) || ((97 <=? code c) && (code c <=? 122)).

(** [[a-zA-Z0-9+.-]] *)
Definition isSchemeChar (c : ascii) : bool :=
  isLetter c || ((48 <=? code c) && (code c <=? 57))
  || (code c =? 43) || (code c =? 46) || (code c =? 45).

(** [[a-zA-Z0-9+.-]*:] at the head of [s].  A colon is not in the class, so
    the run of class characters must be directly followed by the colon. *)
Fixpoint schemeRest (s : string) : bool :=
  match s with
  | EmptyString => false
  | String c s' => if isSchemeChar c then schemeRest s' else (code c =? 58)
  end.

(** [/^[a-zA-Z][a-zA-Z0-9+.-]*:/.test(s)] *)
Definition hasScheme (s : string) : bool :=
  match s with
  | EmptyString => false
  | String c s' => isLetter c && schemeRest s'
  end.

(** The value stored in [AscCommon.g_oDocumentUrls.documentUrl] (and taken as
    [effectiveUrl]) for an override read from [window._ONLYOFFICE_DOC_BASE_URL]
    and the [_url] argument.  A truthy override that is not a string has no
    [charAt]: the call throws, the result is [None]. *)
Definition resolveDocumentUrl (override : value) (_url : string) : option string :=
  if truthy override then
    match override with
    | VStr o =>
        if String.eqb (JsString.charAt o (JsString.len o - 1)) "/"
        then Some (JsString.substring o 0 (JsString.len o - 1))
        else Some o
    | _ => None
    end
  else if hasScheme _url then Some _url
  else if negb (JsString.indexOf _url "/" =? 0)
       then Some ("file://" ++ ("/" ++ _url))%string
       else Some ("file://" ++ _url)%string.

Definition backslash : string := String (ascii_of_nat 92) EmptyString.

(** The name computed by [DesktopOfflineUpdateLocalName] from the source path. *)
Definition localName (_name : string) : string :=
  let _ind1 := JsString.lastIndexOf _name backslash in
  let _ind2 := JsString.lastIndexOf _name "/" in
  let _ind1 := if _ind1 =? -1 then 1000000 else _ind1 in
  let _ind2 := if _ind2 =? -1 then 1000000 else _ind2 in
  let _ind := Z.min _ind1 _ind2 in
  if negb (_ind =? 1000000) then JsString.substringFrom _name (_ind + 1) else _name.

(** ** The document-load orchestrator and the event loop *)

(** What the host bridge and the editor answer when asked.  The host bridge
    [window.AscDesktopEditor], the constants of the SDK ([c_oAscError] and the
    like) and the methods of the objects of the SDK are taken to be there;
    the objects themselves ([Asc], [Asc.editor], [AscCommon] and its
    [g_oDocumentUrls] and [g_oIdCounter]) are looked up in the heap. *)
Record host : Type := Host {
  openedFile : string -> bool;     (* does [GetOpenedFile(token)] return a buffer *)
  sourcePath : string;             (* [LocalFileGetSourcePath()] *)
  currentPassword : string;        (* [editor.currentPassword] *)
  languages : list string          (* own keys of [spellcheckGetLanguages()] *)
}.

(** [Asc.editor || window.editor], with the bare name [Asc]. *)
Definition editorOf (h : heapT) : outcome value :=
  match identifier h "Asc" with
  | Throw e => Throw e
  | Ok asc =>
      match member h asc "editor" with
      | Throw e => Throw e
      | Ok e => Ok (if truthy e then e else get h window "editor")
      end
  end.

(** [AscCommon.p], the object of an assignment [AscCommon.p.q = ...] whose
    right-hand side has no effect: the bare name has to resolve, to something
    other than [undefined] and [null], and [AscCommon.p] has to be an
    object. *)
Definition commonObject (h : heapT) (p : string) : outcome value :=
  match identifier h "AscCommon" with
  | Throw e => Throw e
  | Ok c =>
      match member h c p with
      | Throw e => Throw e
      | Ok o => if isObject o then Ok o else Throw TypeError
      end
  end.

(** An object that stands for an object of the SDK: a reference into the
    heap.  Its methods are taken to be there. *)
Definition isRef (v : value) : bool :=
  match v with VRef _ => true | _ => false end.

(** The value of [window.AscCommon && !window.AscCommon.baseEditorsApi]. *)
Definition minifiedValue (h : heapT) : value :=
  let a := get h window "AscCommon" in
  if truthy a then VBool (negb (truthy (get h a "baseEditorsApi"))) else a.

(** The same expression as a condition: [if (isMinifiedSdk)]. *)
Definition isMinifiedSdk (h : heapT) : bool :=
  truthy (get h window "AscCommon")
  && negb (truthy (get h (get h window "AscCommon") "baseEditorsApi")).

Definition conversionFailure : call :=
  SendEvent "asc_onError" [ConvertationOpenError; Critical].

Section Machine.

Variable H : host.

Definition DesktopAfterOpen (st : state) : state :=
  emit (SendEvent "asc_onSpellCheckInit" [ArgList (languages H)])
    (emit SpellcheckGetLanguages
       (emit (RegisterCallback "asc_onSignatureDblClick") st)).

Definition DesktopOfflineUpdateLocalName (st : state) : state :=
  let _name := localName (sourcePath H) in
  emit (SetDocumentName _name)
    (setTimeout (SendDocumentName _name) 100
       (emit (AssignDocumentTitle _name)
          (emit LocalFileGetSourcePath st))).

(** From [new AscCommon.OpenFileResult()] to the end of the function. *)
Definition openAndFollowUp (effectiveUrl : string) (st : state) : state :=
  emit (SendEvent "asc_onDocumentPassword"
          [ArgBool (negb (String.eqb "" (currentPassword H)))])
    (DesktopAfterOpen
       (setTimeout UpdateLocalName 500
          (emit (SetFastCollaborative false)
             (emit (OpenDocument effectiveUrl)
                (emit CheckStreamSignature st))))).

(** From [if (_data === "")] to the end of the function. *)
Definition payloadSteps (effectiveUrl _data : string) (_len : Z) (st : state) : state :=
  if String.eqb _data "" then emit conversionFailure st
  else if JsString.indexOf _data "binary_content://" =? 0 then
    let st1 := emit (GetOpenedFile _data) st in
    if openedFile H _data then openAndFollowUp effectiveUrl st1
    else emit conversionFailure st1
  else openAndFollowUp effectiveUrl (emit (Base64Decode _data _len) st).

(** The function given to [_commonJsReady.then] by the entry point.  The
    editor found has to be an object of the SDK for [editor.setOpenedAt] to
    be called.  In [AscCommon.g_oIdCounter.m_sUserId = ...CheckUserId()] the
    name [AscCommon] is resolved before the call on the right and the
    property is written after it. *)
Definition documentEndLoadBody (_url _data : string) (_len : Z) (st : state) : state :=
  let st1 :=
    print LvLog ["[common.js] DesktopOfflineAppDocumentEndLoad executing (SDK ready)"] st in
  match editorOf (heap st1) with
  | Throw e => raise e st1
  | Ok editor =>
      if negb (truthy editor) then
        print LvError ["[common.js] No editor instance found!"] st1
      else
        match resolveDocumentUrl (get (heap st1) window "_ONLYOFFICE_DOC_BASE_URL") _url with
        | None => raise TypeError st1
        | Some effectiveUrl =>
            match commonObject (heap st1) "g_oDocumentUrls" with
            | Throw e => raise e st1
            | Ok _ =>
                let st2 := set_documentUrl (VStr effectiveUrl) st1 in
                if negb (isRef editor) then raise TypeError st2
                else
                  let st3 := emit (SetOpenedAt (now st2)) st2 in
                  match identifier (heap st3) "AscCommon" with
                  | Throw e => raise e st3
                  | Ok c =>
                      match member (heap st3) c "g_oIdCounter" with
                      | Throw e => raise e st3
                      | Ok counter =>
                          let st4 := emit CheckUserId st3 in
                          if negb (isObject counter) then raise TypeError st4
                          else payloadSteps effectiveUrl _data _len st4
                      end
                  end
            end
        end
  end.

(** [window["DesktopOfflineAppDocumentEndLoad"]] *)
Definition DesktopOfflineAppDocumentEndLoad (_url _data : string) (_len : Z)
           (st : state) : state :=
  if documentLoadStarted st then
    print LvWarn
      ["[common.js] DesktopOfflineAppDocumentEndLoad already called, ignoring duplicate"] st
  else
    thenReady (DocumentEndLoadBody _url _data _len)
      (store window "_documentLoadStarted" (VBool true) (set_started true st)).

(** [setupEncryption()] of the encryption block. *)
Definition setupEncryption (st : state) : state :=
  let asc := get (heap st) window "Asc" in
  let p1 := get (heap st) asc "asc_docs_api" in
  let p2 := get (heap st) asc "spreadsheet_api" in
  let _proto :=
    if truthy asc then
      (if truthy p1 then p1 else if truthy p2 then p2 else get (heap st) asc "VisioEditorApi")
    else asc in
  if negb (truthy _proto) then st
  else patch "pluginMethod_OnEncryption" _proto (fun s => s) st.

Definition run_reaction (r : reaction) (st : state) : state :=
  match r with
  | DocumentEndLoadBody u d l => documentEndLoadBody u d l st
  | SetupEncryption => setupEncryption st
  | Listener n => emit (Invoke n VUndefined) st
  end.

(** The microtask checkpoint at the end of a task: the queued reactions run
    in order.  No reaction of this script queues another one. *)
Definition drain (st : state) : state :=
  fold_left (fun s r => run_reaction r s) (microtasks st)
            (set_promise (ready st) (reactions st) [] st).

Definition run_task (id : nat) (t : task) (st : state) : state :=
  match t with
  | PathPoll w obj idx => pathPoll id w obj idx st
  | PropPoll obj p cb => propPoll id obj p cb st
  | UpdateLocalName => DesktopOfflineUpdateLocalName st
  | SendDocumentName n => emit (SendEvent "asc_onDocumentName" [ArgStr n]) st
  end.

(** The event loop runs timer [id]: not before it is due; a timeout runs
    once, an interval is scheduled again unless its body cleared it. *)
Definition fire (id : nat) (st : state) : state :=
  match timers st !! id with
  | None => st
  | Some t =>
      let st1 := set_now (Z.max (now st) (due t)) st in
      match period t with
      | None => run_task id (body t) (clearInterval id st1)
      | Some p =>
          let st2 := run_task id (body t) st1 in
          match timers st2 !! id with
          | Some t' =>
              set_timers (<[id := Timer (body t') (period t') (due t' + p)]> (timers st2))
                         (nextTimer st2) st2
          | None => st2
          end
      end
  end.

(** ** Loading the script *)

Definition fresh (h : heapT) (t : Z) : state :=
  State h (Status false false false) Pending [] [] ∅ 0%nat t [] [] false VUndefined [].

(** The [var] declarations at the top level of the script,
    [_isMinifiedSdk] and [_documentLoadStarted], are instantiated before its
    first statement runs: a name that is not an own property of the global
    object becomes one, holding [undefined]; one that is there is left as it
    is. *)
Definition declare (name : string) (h : heapT) : heapT :=
  match getOwnPropertyDescriptor h window name with
  | Some _ => h
  | None => defineProperty h window name (Data VUndefined)
  end.

(** The objects of the page [h] once the script is instantiated. *)
Definition hoisted (h : heapT) : heapT :=
  declare "_documentLoadStarted" (declare "_isMinifiedSdk" h).

Definition declareGlobals (st : state) : state :=
  set_heap (hoisted (heap st)) st.

(** The first block of the script: the readiness system.  An exception that
    leaves one of the [waitForPath] calls ends the script. *)
Definition initReadiness (st : state) : state :=
  let st1 := store window "_commonJsReady" VPromise st in
  let minified := isMinifiedSdk (heap st1) in
  let st2 :=
    if minified then
      forceComplete
        (print LvLog ["[common.js] Minified SDK detected - skipping unminified overrides"] st1)
    else st1 in
  let st3 :=
    if negb minified then waitForPath "AscCommon.baseEditorsApi" CbBaseEditorsApi None st2
    else st2 in
  if threw st2 st3 then st3
  else
    let st4 :=
      if negb minified then waitForPath "AscFonts.CFontFileLoader" CbFonts None st3
      else st3 in
    if threw st3 st4 then st4
    else if negb minified then waitForPath "AscCommon.DocumentUrls" CbDocumentUrls None st4
    else st4.

(** The globals assigned inside [if (!_isMinifiedSdk) { ... }]. *)
Definition entryPoints : list string :=
  ["DesktopOfflineAppDocumentEndLoad"; "NativeCorrectImageUrlOnCopy";
   "NativeCorrectImageUrlOnPaste"; "UpdateInstallPlugins";
   "DesktopOfflineAppDocumentSignatures"; "DesktopSaveQuestionReturn";
   "OnNativeReturnCallback"; "asc_IsVisibleSign"; "asc_LocalRequestSign";
   "DesktopAfterOpen"].

(** [AscCommon.getBinaryArray = getBinaryArray], the last statement. *)
Definition exportGetBinaryArray (st : state) : state :=
  match identifier (heap st) "AscCommon" with
  | Throw e => raise e st
  | Ok c =>
      if isObject c then store c "getBinaryArray" (VFun "getBinaryArray") st
      else raise TypeError st
  end.

(** The second block of the script: the assignment to the top-level
    variable [_isMinifiedSdk], a property of [window] as every top-level
    [var] of a script is, then, unless it is truthy, the guard variable, the
    entry points and the encryption hook.  An exception that leaves the
    first call of [setupEncryption] ends the script. *)
Definition defineEntryPoints (st : state) : state :=
  let st0 := store window "_isMinifiedSdk" (minifiedValue (heap st)) st in
  if isMinifiedSdk (heap st) then st0
  else
    let st1 := store window "_documentLoadStarted" (VBool false) (set_started false st0) in
    let st2 := fold_left (fun s name => store window name (VFun name) s) entryPoints st1 in
    let st3 := setupEncryption st2 in
    if threw st2 st3 then st3
    else
      let st4 :=
        if truthy (get (heap st3) window "_commonJsReady") then thenReady SetupEncryption st3
        else st3 in
      exportGetBinaryArray st4.

(** The script runs as one task on a page whose objects are [h], at time
    [t]; an exception that leaves the first block ends it there. *)
Definition loadScript (h : heapT) (t : Z) : state :=
  let st0 := declareGlobals (fresh h t) in
  let st1 := initReadiness st0 in
  drain (if threw st0 st1 then st1 else defineEntryPoints st1).

(** What can happen to the page afterwards, one task each. *)
Inductive event : Type :=
| CallDocumentEndLoad (_url _data : string) (_len : Z)   (* the SDK calls the entry point *)
| Fire (id : nat)                                        (* a timer runs *)
| Assign (obj : value) (p : string) (v : value)          (* SDK code assigns a property *)
| Elapse (dt : Z).                                       (* time passes *)

Definition handle (e : event) (st : state) : state :=
  match e with
  | CallDocumentEndLoad u d l =>
      match get (heap st) window "DesktopOfflineAppDocumentEndLoad" with
      | VFun "DesktopOfflineAppDocumentEndLoad" => DesktopOfflineAppDocumentEndLoad u d l st
      | _ => st
      end
  | Fire id => fire id st
  | Assign obj p v => assign obj p v st
  | Elapse dt => set_now (now st + Z.max 0 dt) st
  end.

Definition step (st : state) (e : event) : state := drain (handle e st).

Definition run (st : state) (es : list event) : state := fold_left step es st.

End Machine.

(** ** Observations used to state the properties *)

(** The completion signal goes from pending to fulfilled between two states. *)
Definition fired (st st' : state) : bool :=
  match ready st, ready st' with
  | Pending, Fulfilled => true
  | _, _ => false
  end.

(** For a sequence of patch routines completing, whether each one fired the
    completion signal. *)
Fixpoint firings (st : state) (evs : list subsystem) : list bool :=
  match evs with
  | [] => []
  | s :: evs' => fired st (complete s st) :: firings (complete s st) evs'
  end.

Definition countTrue (l : list bool) : nat := length (List.filter id l).

Definition sameSubsystem (a b : subsystem) : bool :=
  match a, b with
  | BaseEditorsApi, BaseEditorsApi | Fonts, Fonts | Sdk, Sdk => true
  | _, _ => false
  end.

Definition seen (s : subsystem) (l : list subsystem) : bool :=
  existsb (sameSubsystem s) l.

(** All three patch routines occur in [l]. *)
Definition covers (l : list subsystem) : bool :=
  seen BaseEditorsApi l && seen Fonts l && seen Sdk l.

Definition flagsAfter (f : status) (l : list subsystem) : status :=
  fold_left (fun f s => mark s f) l f.

Definition executingMessage : string :=
  "[common.js] DesktopOfflineAppDocumentEndLoad executing (SDK ready)".

Definition duplicateMessage : string :=
  "[common.js] DesktopOfflineAppDocumentEndLoad already called, ignoring duplicate".

(** The console line that opens every run of the [Resolving] steps. *)
Definition isExecuting (e : entry) : bool :=
  match e with
  | (LvLog, [m]) => String.eqb m executingMessage
  | _ => false
  end.

Definition isLoadBody (r : reaction) : bool :=
  match r with DocumentEndLoadBody _ _ _ => true | _ => false end.

(** How many times the [Resolving] steps have started. *)
Definition executions (st : state) : nat :=
  length (List.filter isExecuting (console st)).

(** How many runs of the [Resolving] steps are still waiting on the promise or
    in the microtask queue. *)
Definition pendingLoads (st : state) : nat :=
  length (List.filter isLoadBody (reactions st ++ microtasks st)).

Definition isDuplicateWarning (e : entry) : bool :=
  match e with
  | (LvWarn, [m]) => String.eqb m duplicateMessage
  | _ => false
  end.

(** The substring after the last path separator of either kind, as the
    specification words the display title. *)
Definition afterLastSeparator (path : string) : string :=
  JsString.substringFrom path
    (Z.max (JsString.lastIndexOf path backslash) (JsString.lastIndexOf path "/") + 1).



(** The promise is fulfilled exactly when all flags are set. *)
Definition latched (st : state) : Prop :=
  ready st = Fulfilled <-> allReady (overrideStatus st) = true.

Definition allComplete : entry :=
  (LvLog, ["[common.js] All SDK overrides complete - ready for document loading"]).

(** What the watchers and the patch routines leave alone: the objects, the
    load guard, the clock, the timers that already exist and the runs of the
    [Resolving] steps; flags and promise only move forward. *)
Record framed (st st' : state) : Prop := Framed {
  fr_heap : heap st' = heap st;
  fr_started : documentLoadStarted st' = documentLoadStarted st;
  fr_url : documentUrl st' = documentUrl st;
  fr_now : now st' = now st;
  fr_next : (nextTimer st <= nextTimer st')%nat;
  fr_timers : forall id : nat, (id < nextTimer st)%nat -> timers st' !! id = timers st !! id;
  fr_loads : pendingLoads st' = pendingLoads st;
  fr_execs : executions st' = executions st;
  fr_flags : forall s : subsystem,
      flag s (overrideStatus st) = true -> flag s (overrideStatus st') = true;
  fr_ready : ready st = Fulfilled -> ready st' = Fulfilled
}.

(** The part of the state the load guard is about. *)
Definition loadView (st : state) : bool * nat * nat :=
  (documentLoadStarted st, pendingLoads st, executions st).

(** Every timer handle in use is below the next one to be handed out. *)
Definition handlesBelowNext (st : state) : Prop :=
  forall (id : nat) (t : timer), timers st !! id = Some t -> (id < nextTimer st)%nat.

(** Every run of the [Resolving] steps, started or still waiting, is
    accounted for by the load guard. *)
Definition guardInv (st : state) : Prop :=
  (pendingLoads st + executions st)%nat
  = if documentLoadStarted st then 1%nat else 0%nat.

Definition minifiedNotice : entry :=
  (LvLog, ["[common.js] Minified SDK detected - skipping unminified overrides"]).

(** The state after interval [id], first due at [d], has run [j] times on
    time without its body changing anything. *)
Definition idleAfter (id : nat) (b : task) (p d : Z) (j : nat) (st : state) : state :=
  match j with
  | O => st
  | S k =>
      set_timers (<[id := Timer b (Some p) (d + p * Z.of_nat j)]> (timers st))
                 (nextTimer st) (set_now (d + p * Z.of_nat k) st)
  end.

(** ** Sample pages and hosts *)

(** A host bridge that has no buffered file; the source path is a POSIX path. *)
Definition sampleHost : host :=
  Host (fun _ => false) "/home/user/report.xlsx" "" ["en-US"].

(** A host bridge whose source path mixes the two separators. *)
Definition mixedHost : host :=
  Host (fun _ => false) "C:\docs/report.xlsx" "" ["en-US"].

(** [window] alone, nothing loaded yet. *)
Definition emptyPage : heapT := {[ 0%nat := ∅ ]}.

(** [window.Asc.editor] is an object. *)
Definition editorPage : heapT :=
  {[ 0%nat := {[ "Asc" := Data (VRef 1) ]};
     1%nat := {[ "editor" := Data (VRef 2) ]};
     2%nat := ∅ ]}.

(** [window.AscCommon] is an object without [baseEditorsApi]. *)
Definition minifiedPage : heapT :=
  {[ 0%nat := {[ "AscCommon" := Data (VRef 1) ]}; 1%nat := ∅ ]}.

(** [window.x] is an accessor property of another party that reads undefined. *)
Definition accessorPage : heapT :=
  {[ 0%nat := {[ "x" := Accessor VUndefined true true ]} ]}.

(** [waitForPath('AscCommon.baseEditorsApi', ...)] on a page where
    [window.AscCommon] is undefined. *)
Definition watchingEmptyPage : state :=
  waitForPath "AscCommon.baseEditorsApi" CbBaseEditorsApi None (fresh emptyPage 0).

(** [waitForProperty(window, 'x', f)] on the page with the accessor. *)
Definition watchingAccessor : state :=
  waitForProperty window "x" (CbUser 0) (fresh accessorPage 0).

(** ** Further observations *)

(** While the promise is pending the [Resolving] steps have not started and
    none of their runs sits in the microtask queue. *)
Definition notBeforeReady (st : state) : Prop :=
  ready st = Pending ->
  executions st = 0%nat /\ List.filter isLoadBody (microtasks st) = [].

(** [obj.p1.p2...] for the segments [rest]. *)
Fixpoint pathValue (h : heapT) (obj : value) (rest : list string) : value :=
  match rest with
  | [] => obj
  | p :: rest' => pathValue h (get h obj p) rest'
  end.

(** Every segment of [rest] is there: each object on the way is truthy and
    has the next property defined. *)
Fixpoint resolvable (h : heapT) (obj : value) (rest : list string) : bool :=
  match rest with
  | [] => true
  | p :: rest' =>
      truthy obj && defined (get h obj p) && resolvable h (get h obj p) rest'
  end.

(** Two heaps that agree on every property but [_commonJsReady]. *)
Definition agree (h h' : heapT) : Prop :=
  forall (o : value) (p : string), p <> "_commonJsReady" -> get h' o p = get h o p.

(** A property on which [waitForProperty] installs its accessor: there is
    none yet, or a plain value, or an accessor with neither getter nor
    setter. *)
Definition plainProperty (d : option prop) : Prop :=
  match d with
  | None | Some (Data _) | Some (Accessor _ false false) => True
  | _ => False
  end.

(** A property that has a getter or a setter: an accessor of another party,
    or the one a [waitForProperty] call has installed before. *)
Definition accessorProperty (d : prop) : Prop :=
  match d with
  | Accessor _ hasGet hasSet => hasGet || hasSet = true
  | Intercept _ _ => True
  | Data _ => False
  end.

(** The names under which the SDK publishes the constructors the script
    patches, the two optional ones last. *)
Definition patchedNames : list (list string) :=
  [["AscCommon"; "baseEditorsApi"]; ["AscFonts"; "CFontFileLoader"];
   ["AscCommon"; "DocumentUrls"]; ["AscCommon"; "CDocsCoApi"];
   ["Asc"; "CAscWatermarkProperties"]; ["Asc"; "asc_CBullet"]].

(** What the page has under [path], if anything, is a constructor: its
    [prototype] is an object. *)
Definition holdsConstructor (h : heapT) (path : list string) : bool :=
  implb (resolvable h window path) (patchable h (pathValue h window path)).

Definition constructorsOnly (h : heapT) : bool :=
  forallb (holdsConstructor h) patchedNames.

(** The calls that record the two optional patches of OVERRIDE 3 on the
    page [h]. *)
Definition optionalOverrides (h : heapT) : list call :=
  flat_map (fun name =>
              let x := get h (get h window "Asc") name in
              if truthy x then [ApplyOverrides name x] else [])
           ["CAscWatermarkProperties"; "asc_CBullet"].

(** The objects the [Resolving] steps reach for are there: [Asc.editor] is an
    object of the SDK, [AscCommon.g_oDocumentUrls] and
    [AscCommon.g_oIdCounter] are objects. *)
Definition sdkObjects (h : heapT) : bool :=
  isRef (get h (get h window "Asc") "editor")
  && isObject (get h (get h window "AscCommon") "g_oDocumentUrls")
  && isObject (get h (get h window "AscCommon") "g_oIdCounter").

(** ** The overrides of DocumentUrls (OVERRIDE 3) *)

Module DocumentUrls.

(** [s.replaceAll("%20", " ")] *)
Fixpoint decodeSpaces (s : string) : string :=
  match s with
  | EmptyString => EmptyString
  | String c r =>
      match r with
      | String c2 (String c3 r') =>
          if Ascii.eqb c "%" && Ascii.eqb c2 "2" && Ascii.eqb c3 "0"
          then String " " (decodeSpaces r')
          else String c (decodeSpaces r)
      | _ => String c (decodeSpaces r)
      end
  end.

(** What the methods read besides their argument. *)
Record env : Type := Env {
  thisDocumentUrl : string;               (* [this.documentUrl] *)
  themeLoader : option (string * string); (* [ThemesUrl] and [ThemesUrlAbs] of
                                             [window.editor.ThemeLoader], when there *)
  fileHash : string;                      (* [window._ONLYOFFICE_FILE_HASH], empty when unset *)
  imageUrlCorrect : option (string -> string);
                                          (* [LocalFileGetImageUrlCorrect], when the bridge has it *)
  isLocalFileExist : string -> bool       (* [IsLocalFileExist] *)
}.

(** [getCorrectImageUrl(path)] *)
Definition getCorrectImageUrl (e : env) (path : string) : string :=
  match imageUrlCorrect e with
  | Some f => f path
  | None => path
  end.

(** The two tests that make [getImageUrl] and [getUrl] return [null]. *)
Definition isTheme (e : env) (strPath : string) : bool :=
  (JsString.indexOf strPath "theme" =? 0)
  || match themeLoader e with
     | Some (ThemesUrl, _) =>
         negb (String.eqb ThemesUrl "") && (JsString.indexOf strPath ThemesUrl =? 0)
     | None => false
     end.

(** [prot.getImageUrl]; [None] is [null]. *)
Definition getImageUrl (e : env) (strPath : string) : option string :=
  if isTheme e strPath then None
  else Some (getCorrectImageUrl e (thisDocumentUrl e ++ "/media/" ++ strPath)%string).

(** [prot.getUrl] *)
Definition getUrl (e : env) (strPath : string) : value :=
  if isTheme e strPath then VNull
  else if String.eqb strPath "Editor.xlsx" then
    let test := (thisDocumentUrl e ++ "/" ++ strPath)%string in
    if isLocalFileExist e test then VStr test else VUndefined
  else VStr (thisDocumentUrl e ++ "/media/" ++ strPath)%string.

(** [prot.getImageLocal]; the result is [None] where a truthy argument that
    is not a string makes [replaceAll] fail. *)
Definition getImageLocal (e : env) (_url : value) : option value :=
  let decoded :=
    if truthy _url then
      match _url with VStr s => Some (decodeSpaces s) | _ => None end
    else Some EmptyString in
  match decoded with
  | None => None
  | Some url =>
      let _first := (thisDocumentUrl e ++ "/media/")%string in
      let mediaPattern := ("/api/media/" ++ fileHash e ++ "/")%string in
      let idx := JsString.indexOf url mediaPattern in
      if JsString.indexOf url _first =? 0 then
        Some (VStr (JsString.substringFrom url (JsString.len _first)))
      else if negb (String.eqb (fileHash e) "") && negb (idx =? -1) then
        Some (VStr (JsString.substringFrom url (idx + JsString.len mediaPattern)))
      else
        match themeLoader e with
        | Some (_, ThemesUrlAbs) =>
            if JsString.indexOf url ThemesUrlAbs =? 0
            then Some (VStr (JsString.substringFrom url (JsString.len ThemesUrlAbs)))
            else Some VNull
        | None => Some VNull
        end
  end.

(** [prot.getLocal] *)
Definition getLocal (e : env) (url : value) : option value := getImageLocal e url.

(** [prot.imagePath2Local], with [mediaPrefix = 'media/']. *)
Definition imagePath2Local (imageLocal : string) : string :=
  if negb (String.eqb imageLocal "")
     && String.eqb "media/" (JsString.substring imageLocal 0 (JsString.len "media/"))
  then JsString.substringFrom imageLocal (JsString.len "media/")
  else imageLocal.

End DocumentUrls.

(** ** UpdateInstallPlugins *)

Module Plugins.

(** The strings of the parsed description are any the host bridge sends:
    here a string is the list of its UTF-16 code units, which is what
    [substring], [split] and [join] count in. *)
Definition ustring : Type := list N.

(** The code units of a literal of the script, all of them ASCII. *)
Definition units (s : string) : ustring :=
  map N_of_ascii (list_ascii_of_string s).

(** [s.split(" ")] *)
Fixpoint splitSpaces (s : ustring) : list ustring :=
  match s with
  | [] => [[]]
  | c :: s' =>
      if N.eqb c 32 then [] :: splitSpaces s'
      else match splitSpaces s' with
           | h :: t => (c :: h) :: t
           | [] => [[c]]
           end
  end.

(** [parts.join(sep)] *)
Fixpoint join (sep : ustring) (l : list ustring) : ustring :=
  match l with
  | [] => []
  | [x] => x
  | x :: rest => (x ++ sep ++ join sep rest)%list
  end.

(** What the property [baseUrl] of a plugin holds: the value the parser
    produced, or the string the first loop assigned. *)
Inductive located_url : Type :=
| Parsed (v : value)
| Assigned (s : ustring).

(** A plugin description as [JSON.parse] returns it.  [variations] is [None]
    when the property is missing or [null]; an empty array is [Some []].  A
    variation is given by its [initDataType]. *)
Record plugin : Type := Plugin {
  guid : ustring;
  baseUrl : located_url;
  onlyofficeScheme : bool;            (* truthiness of the property *)
  variations : option (list value)
}.

(** One of the two entries of the parsed array: a folder URL and its plugins. *)
Record group : Type := Group {
  url : ustring;
  pluginsData : list plugin
}.

(** [s.split(" ").join("%20")] *)
Definition escapeSpaces (s : ustring) : ustring :=
  join (units "%20") (splitSpaces s).

Definition setBaseUrl (b : ustring) (p : plugin) : plugin :=
  Plugin (guid p) (Assigned b) (onlyofficeScheme p) (variations p).

(** The objects created by the parser sit in a table; arrays hold their
    positions, so that an object pushed to a second array is the same one. *)
Abbreviation objects := (list plugin).

(** The body of the inner loop of the first [for]: set [baseUrl], push the
    object, then prefix [baseUrl] for the [onlyoffice] scheme. *)
Definition visit (folder : ustring) (s : objects * list nat) (a : nat) : objects * list nat :=
  match fst s !! a with
  | None => s
  | Some p =>
      let b := (folder ++ skipn 4 (guid p) ++ units "/")%list in
      let objs1 := <[a := setBaseUrl b p]> (fst s) in
      let out1 := (snd s ++ [a])%list in
      if onlyofficeScheme p
      then (<[a := setBaseUrl (units "onlyoffice://plugin/" ++ b)%list p]> objs1, out1)
      else (objs1, out1)
  end.

(** [_variation["initDataType"] == "desktop"] for some variation. *)
Definition isSystem (vs : list value) : bool :=
  existsb (fun v => match v with VStr s => String.eqb s "desktop" | _ => false end) vs.

(** Does the second loop keep the plugin. *)
Definition kept (p : plugin) : bool :=
  match variations p with
  | None => false
  | Some vs => negb (isSystem vs)
  end.

(** The second [for], with its [splice(i, 1); --i]: [fuel] bounds the number
    of iterations, one per element being enough. *)
Fixpoint prune (fuel : nat) (objs : objects) (i : nat) (arr : list nat) : list nat :=
  match fuel with
  | O => arr
  | S fuel' =>
      match arr !! i with
      | None => arr
      | Some a =>
          match objs !! a with
          | None => arr
          | Some p =>
              match variations p with
              | None => prune fuel' objs i (delete i arr)
              | Some vs =>
                  if isSystem vs then prune fuel' objs i (delete i arr)
                  else prune fuel' objs (S i) arr
              end
          end
      end
  end.

Inductive pcall : Type :=
| RegisterPluginsReset                       (* asc_registerCallback("asc_onPluginsReset", ...) *)
| SendPluginsReset                           (* sendEvent("asc_onPluginsReset") *)
| SendPluginsInit (folder : ustring) (data : list plugin).

Record pstate : Type := PState {
  IsFirstPluginLoad : bool;                  (* [window.IsFirstPluginLoad] *)
  ptrace : list pcall
}.

(** The list of plugins handed to [sendPluginsInit] for the two parsed
    groups. *)
Definition installed (g0 g1 : group) : ustring * list plugin :=
  let u0 := escapeSpaces (url g0) in
  let u1 := escapeSpaces (url g1) in
  let objs := (pluginsData g0 ++ pluginsData g1)%list in
  let n0 := length (pluginsData g0) in
  let n1 := length (pluginsData g1) in
  let s0 := fold_left (visit u0) (seq 0 n0) (objs, []) in
  let s1 := fold_left (visit u1) (seq n0 n1) s0 in
  let arr := prune (length (snd s1)) (fst s1) 0 (snd s1) in
  (u0, omap (fun a => fst s1 !! a) arr).

(** [window["UpdateInstallPlugins"]], for the array the host bridge returns. *)
Definition UpdateInstallPlugins (g0 g1 : group) (st : pstate) : pstate :=
  let r := installed g0 g1 in
  let st1 :=
    if negb (IsFirstPluginLoad st)
    then PState true (ptrace st ++ [RegisterPluginsReset])
    else st in
  PState (IsFirstPluginLoad st1)
         (ptrace st1 ++ [SendPluginsReset; SendPluginsInit (fst r) (snd r)]).

(** What the first loop leaves in a plugin of the folder [folder]. *)
Definition located (folder : ustring) (p : plugin) : plugin :=
  let b := (folder ++ skipn 4 (guid p) ++ units "/")%list in
  setBaseUrl (if onlyofficeScheme p then (units "onlyoffice://plugin/" ++ b)%list else b) p.

(** Does the second loop keep the object at position [a]. *)
Definition keptAt (objs : objects) (a : nat) : bool :=
  match objs !! a with
  | Some p => kept p
  | None => false
  end.

Definition isRegister (c : pcall) : bool :=
  match c with RegisterPluginsReset => true | _ => false end.

Definition isInit (c : pcall) : bool :=
  match c with SendPluginsInit _ _ => true | _ => false end.

End Plugins.

(** ** The override of CFontFileLoader.LoadFontAsync (OVERRIDE 2) *)

Module Fonts.

(** An entry of [AscFonts.g_fonts_streams]. *)
Inductive stream : Type :=
| FontStream (data : list Byte.byte) (size : nat)   (* new AscFonts.FontStream(data, data.length) *)
| FontData3 (responseText : string).                (* AscFonts.CreateFontData3(responseText) *)

Inductive fcall : Type :=
| Request (url : string)          (* xhr.open('GET', url, true); ...; xhr.send(null) *)
| SetStreamIndex (i : nat)
| Callback (k : nat)
| ExternalCallback (k : nat).

(** A font file loader with the global stream table and the calls made. *)
Record fstate : Type := FState {
  Id : string;
  Status : Z;
  callback : option nat;            (* [this.callback]; [None] for null or undefined *)
  externalCallback : option nat;    (* [this["externalCallback"]] *)
  g_fonts_streams : list stream;
  ftrace : list fcall
}.

(** [LoadFontAsync(basePath, callback)]; the boolean tells whether the call
    returned [true]. *)
Definition LoadFontAsync (cb : option nat) (st : fstate) : bool * fstate :=
  if negb (Status st =? -1) then
    (true, FState (Id st) (Status st) cb (externalCallback st) (g_fonts_streams st) (ftrace st))
  else
    (false, FState (Id st) 2 cb (externalCallback st) (g_fonts_streams st)
                   (ftrace st ++ [Request ("ascdesktop://fonts/" ++ Id st)%string])).

Definition optCall (f : nat -> fcall) (o : option nat) : list fcall :=
  match o with Some k => [f k] | None => [] end.

(** [xhr.onload] for an answer with HTTP status [status]. *)
Definition onload (status : Z) (response : option (list Byte.byte)) (responseText : string)
           (st : fstate) : fstate :=
  if negb (status =? 200) then
    FState (Id st) 1 (callback st) (externalCallback st) (g_fonts_streams st) (ftrace st)
  else
    let streamIndex := length (g_fonts_streams st) in
    let entry :=
      match response with
      | Some data => FontStream data (length data)
      | None => FontData3 responseText
      end in
    FState (Id st) 0 (callback st) (externalCallback st)
           (g_fonts_streams st ++ [entry])
           (ftrace st ++ [SetStreamIndex streamIndex]
                   ++ optCall Callback (callback st)
                   ++ optCall ExternalCallback (externalCallback st)).

Inductive fevent : Type :=
| Load (cb : option nat)
| Loaded (status : Z) (response : option (list Byte.byte)) (responseText : string).

Definition fstep (st : fstate) (e : fevent) : fstate :=
  match e with
  | Load cb => snd (LoadFontAsync cb st)
  | Loaded status response text => onload status response text st
  end.

Definition isRequest (c : fcall) : bool :=
  match c with Request _ => true | _ => false end.

Definition requests (st : fstate) : nat := length (List.filter isRequest (ftrace st)).

End Fonts.

(** ** The drop handler set up by AscCommon.InitDragAndDrop *)

Module DragDrop.

Record denv : Type := DEnv {
  files : list string;                       (* [GetDropFiles()] *)
  IsImageFile : string -> bool;
  LocalFileGetImageUrl : string -> string;   (* empty when the bridge gives nothing *)
  urls : DocumentUrls.env;
  html : string;                             (* [getData("text/html")] *)
  text : string                              (* [getData("text/plain")] *)
}.

Inductive dcall : Type :=
| PreventDefault
| EndInlineDropTarget
| AddImageUrl (imageFiles : list (option string))
| PasteHtml (htmlValue : string)
| PasteText (textValue : string).

(** The [for] loop over the dropped files: what [imageFiles] holds after it. *)
Fixpoint scan (e : denv) (fs : list string) : list (option string) :=
  match fs with
  | [] => []
  | f :: rest =>
      if IsImageFile e f then
        if String.eqb f "" then scan e rest
        else if negb (String.eqb (LocalFileGetImageUrl e f) "")
             then [DocumentUrls.getImageUrl (urls e) (LocalFileGetImageUrl e f)]
             else []
      else scan e rest
  end.

(** [oHtmlElement["ondrop"]] *)
Definition ondrop (e : denv) : list dcall :=
  let imageFiles := scan e (files e) in
  let countInserted := length imageFiles in
  ([PreventDefault; EndInlineDropTarget]
   ++ (if negb (countInserted =? 0)%nat then [AddImageUrl imageFiles] else [])
   ++ (if (countInserted =? 0)%nat then
         if negb (String.eqb (html e) "") then [PasteHtml (html e)]
         else if negb (String.eqb (text e) "") then [PasteText (text e)]
         else []
       else []))%list.

Definition isContent (c : dcall) : bool :=
  match c with
  | AddImageUrl _ | PasteHtml _ | PasteText _ => true
  | _ => false
  end.

End DragDrop.

(** ** Local restrictions (OVERRIDE 1) *)

Module Restrictions.

(** [a === b] on values. *)
Definition strictEq (a b : value) : bool :=
  match a, b with
  | VUndefined, VUndefined | VNull, VNull | VPromise, VPromise => true
  | VBool x, VBool y => Bool.eqb x y
  | VNum x, VNum y => x =? y
  | VStr x, VStr y => String.eqb x y
  | VRef x, VRef y => Nat.eqb x y
  | VFun x, VFun y => String.eqb x y
  | _, _ => false
  end.

Inductive rcall : Type :=
| AddRestrictionView                         (* asc_addRestriction(c_oAscRestrictionType.View) *)
| RemoveRestrictionView                      (* asc_removeRestriction(c_oAscRestrictionType.View) *)
| HostSetLocalRestrictions (v : value).      (* AscDesktopEditor.SetLocalRestrictions(v) *)

Record api : Type := Api {
  localRestrintions : value;
  rtrace : list rcall
}.

Section WithConstants.

(** [Asc.c_oAscLocalRestrictionType.None], a constant of the SDK. *)
Variable None_ : value.

(** Does the host bridge have [SetLocalRestrictions]. *)
Variable hostHas : bool.

Definition asc_setLocalRestrictions (v : value) (is_from_app : bool) (a : api) : api :=
  let tr1 :=
    (rtrace a ++ [if negb (strictEq v None_) then AddRestrictionView
                  else RemoveRestrictionView])%list in
  if is_from_app then Api v tr1
  else if hostHas then Api v (tr1 ++ [HostSetLocalRestrictions v])%list
  else Api v tr1.

Definition asc_getLocalRestrictions (a : api) : value :=
  if strictEq VUndefined (localRestrintions a) then None_ else localRestrintions a.

End WithConstants.

End Restrictions.

(** ** Signature requests ([asc_IsVisibleSign], [asc_LocalRequestSign],
       [DesktopSaveQuestionReturn])

    Identifiers are strings, on which [==] is equality of strings. *)

Module Signing.

Record signature : Type := Signature {
  guid : string;
  id : Z
}.

Record editor : Type := Editor {
  isRestrictionView : bool;
  signatures : list signature;
  asc_getAllSignatures : list string;     (* the [id] of each requested line *)
  isDocumentModified : bool
}.

Inductive scall : Type :=
| ViewCertificate (id : Z)
| SignatureClick (guid : string) (width height : value) (isVisible : bool)
| SaveQuestion
| Save.                                    (* _editor.asc_Save(false) *)

Record question : Type := Question {
  qguid : string;
  qwidth : value;
  qheight : value
}.

Record sstate : Type := SState {
  SaveQuestionObjectBeforeSign : option question;
  strace : list scall
}.

Definition call (c : scall) (st : sstate) : sstate :=
  SState (SaveQuestionObjectBeforeSign st) (strace st ++ [c]).

(** The loop of [asc_IsVisibleSign], left at the first hit. *)
Fixpoint asc_IsVisibleSign (_req : list string) (g : string) : bool :=
  match _req with
  | [] => false
  | r :: _req => if String.eqb r g then true else asc_IsVisibleSign _req g
  end.

(** The loop over [_editor.signatures], left at the first hit. *)
Fixpoint signed (sigs : list signature) (g : string) : option signature :=
  match sigs with
  | [] => None
  | s :: sigs => if String.eqb (guid s) g then Some s else signed sigs g
  end.

Definition asc_LocalRequestSign (ed : editor) (g : string) (width height isView : value)
           (st : sstate) : sstate :=
  let defaulted :=
    negb (Restrictions.strictEq isView (VBool true))
    && Restrictions.strictEq width VUndefined in
  let width' := if defaulted then VNum 100 else width in
  let height' := if defaulted then VNum 100 else height in
  if isRestrictionView ed then st
  else
    match signed (signatures ed) g with
    | Some s =>
        if Restrictions.strictEq isView (VBool true) then call (ViewCertificate (id s)) st
        else st
    | None =>
        if negb (isDocumentModified ed)
        then call (SignatureClick g width' height'
                                  (asc_IsVisibleSign (asc_getAllSignatures ed) g)) st
        else SState (Some (Question g width' height')) (strace st ++ [SaveQuestion])
    end.

Definition DesktopSaveQuestionReturn (isNeedSaved : bool) (st : sstate) : sstate :=
  if isNeedSaved then call Save st
  else SState None (strace st).

Definition sampleEditor : editor :=
  Editor false [Signature "g1" 0; Signature "g2" 1; Signature "g1" 2] ["g3"] true.

End Signing.

(** ** Further samples *)

(** A page on which the SDK is fully loaded and an editor exists: the four
    constructors with their prototypes, the editor, the document URL table
    and the id counter. *)
Definition loadedPage : heapT :=
  list_to_map
    [(0%nat, {[ "Asc" := Data (VRef 1); "AscCommon" := Data (VRef 2);
                "AscFonts" := Data (VRef 3) ]});
     (1%nat, {[ "editor" := Data (VRef 4) ]});
     (2%nat, {[ "baseEditorsApi" := Data (VRef 5); "DocumentUrls" := Data (VRef 6);
                "CDocsCoApi" := Data (VRef 7); "g_oDocumentUrls" := Data (VRef 9);
                "g_oIdCounter" := Data (VRef 10) ]});
     (3%nat, {[ "CFontFileLoader" := Data (VRef 8) ]});
     (4%nat, ∅);
     (5%nat, {[ "prototype" := Data (VRef 11) ]});
     (6%nat, {[ "prototype" := Data (VRef 12) ]});
     (7%nat, {[ "prototype" := Data (VRef 13) ]});
     (8%nat, {[ "prototype" := Data (VRef 14) ]});
     (9%nat, ∅); (10%nat, ∅); (11%nat, ∅); (12%nat, ∅); (13%nat, ∅); (14%nat, ∅)].

(** The loaded page with an override base URL. *)
Definition overridePage : heapT :=
  defineProperty loadedPage window "_ONLYOFFICE_DOC_BASE_URL"
                 (Data (VStr "http://localhost:8080/doc/")).

(** The loaded page on which [AscFonts.CFontFileLoader] is [null]. *)
Definition brokenPage : heapT :=
  defineProperty loadedPage (VRef 3) "CFontFileLoader" (Data VNull).

Definition sampleUrls : DocumentUrls.env :=
  DocumentUrls.Env "file:///docs/report.xlsx" None "0123abcd" None (fun _ => false).

Definition sampleLoader : Fonts.fstate :=
  Fonts.FState "arial.ttf" (-1) None (Some 9%nat) [] [].

Definition sampleDrop : DragDrop.denv :=
  DragDrop.DEnv ["notes.txt"; "a.png"; "b.png"]
                (fun f => String.eqb f "a.png" || String.eqb f "b.png")
                (fun f => f) sampleUrls "" "".

(* ===================================================================== *)
(** * Properties *)
(* ===================================================================== *)

(** ** The readiness barrier fires once, on the last flag *)

Section Barrier.

Lemma allReady_mark_mono (s : subsystem) (f : status) :
  allReady f = true -> allReady (mark s f) = true.
Proof.
  destruct f as [b fo sd], s; unfold allReady; simpl; intros E;
    repeat (apply andb_prop in E as [E ?]); subst; reflexivity.
Qed.

Lemma mark_idem (s : subsystem) (f : status) :
  flag s f = true -> mark s f = f.
Proof. destruct f, s; simpl; intros ->; reflexivity. Qed.

Lemma status_complete (s : subsystem) (st : state) :
  overrideStatus (complete s st) = mark s (overrideStatus st).
Proof.
  unfold complete, checkAllReady; simpl.
  destruct (allReady (mark s (overrideStatus st))); [|reflexivity].
  unfold resolveReady; simpl. destruct (ready st); reflexivity.
Qed.

Lemma ready_complete (s : subsystem) (st : state) :
  ready (complete s st) =
  if allReady (mark s (overrideStatus st)) then Fulfilled else ready st.
Proof.
  unfold complete, checkAllReady; simpl.
  destruct (allReady (mark s (overrideStatus st))); [|reflexivity].
  unfold resolveReady; simpl. destruct (ready st) eqn:R; simpl; auto.
Qed.

Lemma latched_complete (s : subsystem) (st : state) :
  latched st -> latched (complete s st).
Proof.
  unfold latched. rewrite ready_complete, status_complete. intros [H1 H2].
  destruct (allReady (mark s (overrideStatus st))) eqn:E; split; intros; try done.
  rewrite allReady_mark_mono in E; [done|]. by apply H1.
Qed.

Lemma fired_complete (s : subsystem) (st : state) :
  latched st ->
  fired st (complete s st) =
  negb (allReady (overrideStatus st)) && allReady (mark s (overrideStatus st)).
Proof.
  intros [H1 H2]. unfold fired. rewrite ready_complete.
  destruct (allReady (overrideStatus st)) eqn:E.
  - rewrite H2 by done. reflexivity.
  - destruct (ready st) eqn:R; [|by specialize (H1 eq_refl)].
    by destruct (allReady (mark s (overrideStatus st))).
Qed.

Lemma flagsAfter_snoc (f : status) (l : list subsystem) (s : subsystem) :
  flagsAfter f (l ++ [s]) = mark s (flagsAfter f l).
Proof. unfold flagsAfter. by rewrite fold_left_app. Qed.

Lemma allReady_flagsAfter_mono (l : list subsystem) (f : status) :
  allReady f = true -> allReady (flagsAfter f l) = true.
Proof.
  revert f. induction l as [|s l IH]; intros f E; [done|].
  simpl. apply IH. by apply allReady_mark_mono.
Qed.

Lemma flag_flagsAfter (x : subsystem) (l : list subsystem) (f : status) :
  flag x (flagsAfter f l) = flag x f || seen x l.
Proof.
  revert f. induction l as [|s l IH]; intros f; simpl.
  - by rewrite orb_false_r.
  - unfold flagsAfter in *; simpl. rewrite IH. unfold seen; simpl.
    destruct f as [b fo sd], x, s; simpl;
      repeat match goal with |- context [?a || true] => rewrite (orb_true_r a) end;
      try reflexivity; by destruct b || by destruct fo || by destruct sd.
Qed.

Lemma allReady_from_nothing (l : list subsystem) :
  allReady (flagsAfter (Status false false false) l) = covers l.
Proof.
  unfold allReady, covers.
  pose proof (flag_flagsAfter BaseEditorsApi l (Status false false false)) as HB.
  pose proof (flag_flagsAfter Fonts l (Status false false false)) as HF.
  pose proof (flag_flagsAfter Sdk l (Status false false false)) as HS.
  simpl in HB, HF, HS. by rewrite HB, HF, HS.
Qed.

Lemma firings_lookup (evs : list subsystem) (st : state) (i : nat) :
  latched st ->
  firings st evs !! i =
  (fun _ => negb (allReady (flagsAfter (overrideStatus st) (take i evs)))
            && allReady (flagsAfter (overrideStatus st) (take (S i) evs)))
    <$> (evs !! i).
Proof.
  revert st i. induction evs as [|s evs IH]; intros st i L; [done|].
  destruct i as [|i]; simpl.
  - by rewrite fired_complete.
  - rewrite IH by by apply latched_complete. by rewrite status_complete.
Qed.

Lemma firings_count (evs : list subsystem) (st : state) :
  latched st ->
  countTrue (firings st evs) =
  if allReady (overrideStatus st) then 0%nat
  else if allReady (flagsAfter (overrideStatus st) evs) then 1%nat else 0%nat.
Proof.
  revert st. induction evs as [|s evs IH]; intros st L.
  - simpl. unfold countTrue; simpl. by destruct (allReady (overrideStatus st)).
  - unfold countTrue in *. simpl. rewrite fired_complete by done.
    specialize (IH (complete s st) (latched_complete s st L)).
    rewrite status_complete in IH.
    destruct (allReady (overrideStatus st)) eqn:E; simpl.
    + rewrite IH, allReady_mark_mono; done.
    + destruct (allReady (mark s (overrideStatus st))) eqn:E'; simpl; rewrite IH.
      * rewrite allReady_flagsAfter_mono; done.
      * done.
Qed.

Lemma latched_fresh (h : heapT) (t : Z) : latched (fresh h t).
Proof. split; discriminate. Qed.

(** C1.  Whatever the sequence in which the patch routines complete,
    repetitions included, the promise [_commonJsReady] goes from pending to
    fulfilled once if all three flags get set (and not at all otherwise);
    it does so on the call that sets the last missing flag; a call that
    sets a flag which is already set never fires it. *)
Theorem barrier_fires_once_on_last_flag (h : heapT) (t : Z) (evs : list subsystem) :
  countTrue (firings (fresh h t) evs) = (if covers evs then 1%nat else 0%nat)
  /\ (forall i : nat,
        firings (fresh h t) evs !! i = Some true <->
        (i < length evs)%nat
        /\ covers (take i evs) = false /\ covers (take (S i) evs) = true)
  /\ (forall (i : nat) (s : subsystem),
        evs !! i = Some s -> seen s (take i evs) = true ->
        firings (fresh h t) evs !! i = Some false).
Proof.
  pose proof (latched_fresh h t) as L.
  split; [|split].
  - rewrite firings_count by done. simpl. by rewrite allReady_from_nothing.
  - intros i. rewrite firings_lookup by done. simpl.
    rewrite !allReady_from_nothing.
    destruct (evs !! i) as [s|] eqn:E; simpl.
    + apply lookup_lt_Some in E.
      destruct (covers (take i evs)), (covers (take (S i) evs)); simpl;
        split; try done; intros; try (by intuition); by destruct H as (_ & ? & ?).
    + apply lookup_ge_None in E. split; [done|]. intros (? & _); lia.
  - intros i s E S. rewrite firings_lookup by done. simpl. rewrite E. simpl.
    f_equal. rewrite (take_S_r _ _ _ E), flagsAfter_snoc.
    rewrite mark_idem; [by destruct (allReady _)|].
    rewrite flag_flagsAfter, S. apply orb_true_r.
Qed.

End Barrier.

(** ** String facts *)

Section Strings.

Lemma indexOf_from_range (p s : string) (i : Z) :
  JsString.indexOf_from p s i = -1 \/ i <= JsString.indexOf_from p s i.
Proof.
  revert i. induction s as [|c s IH]; intros i; simpl.
  - destruct (JsString.startsWith p ""); lia.
  - destruct (JsString.startsWith p (String c s)); [lia|].
    destruct (IH (i + 1)); lia.
Qed.

(** [s.indexOf(p) === 0] holds exactly when [s] starts with [p]. *)
Lemma indexOf_zero (s p : string) :
  (JsString.indexOf s p =? 0) = JsString.startsWith p s.
Proof.
  unfold JsString.indexOf.
  destruct s as [|c s]; simpl.
  - by destruct (JsString.startsWith p "").
  - destruct (JsString.startsWith p (String c s)); [done|].
    destruct (indexOf_from_range p s (0 + 1)); lia.
Qed.

Lemma lastIndexOf_from_range (p s : string) (i best : Z) :
  JsString.lastIndexOf_from p s i best = best
  \/ i <= JsString.lastIndexOf_from p s i best <= i + JsString.len s.
Proof.
  revert i best. unfold JsString.len.
  induction s as [|c s IH]; intros i best; simpl String.length.
  - simpl. destruct (JsString.startsWith p ""); lia.
  - cbn [JsString.lastIndexOf_from].
    destruct (JsString.startsWith p (String c s)).
    + destruct (IH (i + 1) i); lia.
    + destruct (IH (i + 1) best); lia.
Qed.

Lemma lastIndexOf_range (s p : string) :
  JsString.lastIndexOf s p = -1 \/ 0 <= JsString.lastIndexOf s p <= JsString.len s.
Proof. apply lastIndexOf_from_range. Qed.

Lemma code_inj (a b : ascii) : code a = code b -> a = b.
Proof.
  unfold code. intros E. apply N2Z.inj in E.
  rewrite <- (ascii_N_embedding a), <- (ascii_N_embedding b). by rewrite E.
Qed.

(** What the pattern [[a-zA-Z0-9+.-]*:] accepts. *)
Lemma schemeRest_spec (s : string) :
  schemeRest s = true <->
  exists body rest : string,
    s = (body ++ String ":" rest)%string
    /\ Forall (fun c => isSchemeChar c = true) (list_ascii_of_string body).
Proof.
  split.
  - induction s as [|c s IH]; simpl; [done|].
    destruct (isSchemeChar c) eqn:E.
    + intros R. destruct (IH R) as (body & rest & -> & F).
      exists (String c body), rest. split; [done|]. simpl. by constructor.
    + intros R. apply Z.eqb_eq in R.
      assert (c = ":"%char) as -> by (by apply code_inj).
      exists EmptyString, s. split; [reflexivity|constructor].
  - intros (body & rest & -> & F). induction body as [|c body IH]; simpl.
    + done.
    + simpl in F. inversion F as [|? ? Hc F']; subst. rewrite Hc. by apply IH.
Qed.

(** What the pattern [^[a-zA-Z][a-zA-Z0-9+.-]*:] accepts. *)
Lemma hasScheme_spec (s : string) :
  hasScheme s = true <->
  exists (c : ascii) (body rest : string),
    s = String c (body ++ String ":" rest)%string
    /\ isLetter c = true
    /\ Forall (fun x => isSchemeChar x = true) (list_ascii_of_string body).
Proof.
  split.
  - destruct s as [|c s]; simpl; [done|]. intros E.
    apply andb_prop in E as [L R]. apply schemeRest_spec in R as (body & rest & -> & F).
    by exists c, body, rest.
  - intros (c & body & rest & -> & L & F). simpl. rewrite L. simpl.
    apply schemeRest_spec. by exists body, rest.
Qed.

End Strings.

(** ** The Resolving steps *)

Section Resolving.

Variable H : host.

Lemma documentUrl_openAndFollowUp (u : string) (st : state) :
  documentUrl (openAndFollowUp H u st) = documentUrl st.
Proof. reflexivity. Qed.

Lemma documentUrl_payloadSteps (u d : string) (l : Z) (st : state) :
  documentUrl (payloadSteps H u d l st) = documentUrl st
  /\ uncaught (payloadSteps H u d l st) = uncaught st.
Proof.
  unfold payloadSteps. destruct (String.eqb d ""); [done|].
  destruct (JsString.indexOf d "binary_content://" =? 0); [|done].
  by destruct (openedFile H d).
Qed.

(** On a page with the objects of the SDK the names of the steps resolve. *)
Lemma sdkObjects_resolve (h : heapT) :
  sdkObjects h = true ->
  exists (e : nat) (c o i : value),
    editorOf h = Ok (VRef e)
    /\ commonObject h "g_oDocumentUrls" = Ok o
    /\ identifier h "AscCommon" = Ok c
    /\ member h c "g_oIdCounter" = Ok i
    /\ isObject i = true.
Proof.
  unfold sdkObjects, editorOf, commonObject, identifier, member, get. intros S.
  apply andb_prop in S as [S S3]. apply andb_prop in S as [S1 S2].
  destruct (getOwnPropertyDescriptor h window "Asc") as [da|]; [|done].
  destruct (read da) as [| | | | |a| |] eqn:Ea; try done.
  destruct (getOwnPropertyDescriptor h (VRef a) "editor") as [de|]; [|done].
  destruct (read de) as [| | | | |e| |] eqn:Ee; try done.
  destruct (getOwnPropertyDescriptor h window "AscCommon") as [dc|]; [|done].
  destruct (read dc) as [| | | | |c| |] eqn:Ec; try done.
  destruct (getOwnPropertyDescriptor h (VRef c) "g_oDocumentUrls") as [du|]; [|done].
  destruct (getOwnPropertyDescriptor h (VRef c) "g_oIdCounter") as [di|] eqn:Ei; [|done].
  exists e, (VRef c), (read du), (read di). rewrite S2, Ei. by repeat split.
Qed.

(** On such a page, with a base URL resolved, the steps store it, stamp the
    opening time, ask for the user id and come to the payload. *)
Lemma documentEndLoadBody_reaches (_url _data : string) (_len : Z) (st : state)
      (effectiveUrl : string) :
  sdkObjects (heap st) = true ->
  resolveDocumentUrl (get (heap st) window "_ONLYOFFICE_DOC_BASE_URL") _url
  = Some effectiveUrl ->
  documentEndLoadBody H _url _data _len st
  = payloadSteps H effectiveUrl _data _len
      (emit CheckUserId
         (emit (SetOpenedAt (now st))
            (set_documentUrl (VStr effectiveUrl) (print LvLog [executingMessage] st)))).
Proof.
  intros S R. destruct (sdkObjects_resolve _ S) as (e & c & o & i & E1 & E2 & E3 & E4 & E5).
  unfold documentEndLoadBody. cbn [heap print set_documentUrl emit].
  rewrite E1. cbn [truthy negb isRef]. rewrite R, E2, E3, E4, E5. reflexivity.
Qed.

(** Where the name [Asc] does not resolve the steps end with a
    [ReferenceError] right after their first line; the message for a missing
    editor is not printed. *)
Lemma steps_throw_without_Asc (_url _data : string) (_len : Z) (st : state) :
  getOwnPropertyDescriptor (heap st) window "Asc" = None ->
  documentEndLoadBody H _url _data _len st
  = raise ReferenceError (print LvLog [executingMessage] st).
Proof.
  intros N. unfold documentEndLoadBody, editorOf, identifier. cbn [heap print].
  by rewrite N.
Qed.

(** With an editor found and the base URL resolved, where the name
    [AscCommon] does not resolve the steps end with a [ReferenceError] before
    anything is stored or sent. *)
Lemma steps_throw_without_AscCommon (_url _data : string) (_len : Z) (st : state)
      (editor : value) (effectiveUrl : string) :
  editorOf (heap st) = Ok editor ->
  truthy editor = true ->
  resolveDocumentUrl (get (heap st) window "_ONLYOFFICE_DOC_BASE_URL") _url
  = Some effectiveUrl ->
  getOwnPropertyDescriptor (heap st) window "AscCommon" = None ->
  documentEndLoadBody H _url _data _len st
  = raise ReferenceError (print LvLog [executingMessage] st).
Proof.
  intros E T R N. unfold documentEndLoadBody, commonObject, identifier. cbn [heap print].
  by rewrite E, T, R, N.
Qed.

(** With the objects of the SDK in place and no override base URL, a
    locator that the pattern [^[a-zA-Z][a-zA-Z0-9+.-]*:] does not match is
    stored as base URL with the file scheme in front, after a slash has
    been put in front of it unless it already starts with one. *)
Lemma base_url_of_schemeless_locator (_url _data : string) (_len : Z) (st : state) :
  sdkObjects (heap st) = true ->
  truthy (get (heap st) window "_ONLYOFFICE_DOC_BASE_URL") = false ->
  hasScheme _url = false ->
  let rooted := if JsString.startsWith "/" _url then _url else ("/" ++ _url)%string in
  resolveDocumentUrl (get (heap st) window "_ONLYOFFICE_DOC_BASE_URL") _url
  = Some ("file://" ++ rooted)%string
  /\ documentUrl (documentEndLoadBody H _url _data _len st)
     = VStr ("file://" ++ rooted)%string.
Proof.
  intros He Ho Hs rooted.
  assert (R : resolveDocumentUrl (get (heap st) window "_ONLYOFFICE_DOC_BASE_URL") _url
              = Some ("file://" ++ rooted)%string).
  { unfold resolveDocumentUrl. rewrite Ho, Hs, indexOf_zero. subst rooted.
    by destruct (JsString.startsWith "/" _url). }
  split; [exact R|].
  rewrite (documentEndLoadBody_reaches _ _ _ _ _ He R).
  by destruct (documentUrl_payloadSteps ("file://" ++ rooted) _data _len
                 (emit CheckUserId
                    (emit (SetOpenedAt (now st))
                       (set_documentUrl (VStr ("file://" ++ rooted))
                          (print LvLog [executingMessage] st))))) as [-> _].
Qed.


(** The follow-up is scheduled 500 ms after the document is opened.  It
    names the document by the part of the source path after the smaller of
    the last backslash and last slash positions; for a path of fewer than
    1000000 characters with one kind of separator only, that is the part
    after the last separator.  The name is assigned as the document title,
    handed to the host bridge, and sent to the editor as
    [asc_onDocumentName] 100 ms later. *)
Theorem display_title_of_one_separator_kind (st : state) :
  JsString.lastIndexOf (sourcePath H) backslash = -1
  \/ JsString.lastIndexOf (sourcePath H) "/" = -1 ->
  JsString.len (sourcePath H) < 1000000 ->
  let title := afterLastSeparator (sourcePath H) in
  localName (sourcePath H) = title
  /\ (forall (u : string) (s : state),
        timers (openAndFollowUp H u s) !! nextTimer s
        = Some (Timer UpdateLocalName None (now s + 500)))
  /\ run_task H 0 UpdateLocalName st = DesktopOfflineUpdateLocalName H st
  /\ calls (DesktopOfflineUpdateLocalName H st)
     = (calls st
        ++ [LocalFileGetSourcePath; AssignDocumentTitle title; SetDocumentName title])%list
  /\ timers (DesktopOfflineUpdateLocalName H st) !! nextTimer st
     = Some (Timer (SendDocumentName title) None (now st + 100))
  /\ (forall (id : nat) (s : state),
        calls (run_task H id (SendDocumentName title) s)
        = (calls s ++ [SendEvent "asc_onDocumentName" [ArgStr title]])%list).
Proof.
  intros Hs Hl title.
  assert (T : localName (sourcePath H) = title).
  { subst title. unfold localName, afterLastSeparator.
    pose proof (lastIndexOf_range (sourcePath H) backslash) as Ra.
    pose proof (lastIndexOf_range (sourcePath H) "/") as Rb.
    destruct Hs as [E | E]; rewrite E in *; simpl (-1 =? -1).
    - destruct Rb as [-> | Rb]; [reflexivity|].
      destruct (JsString.lastIndexOf (sourcePath H) "/" =? -1) eqn:E1; [lia|].
      rewrite Z.min_r, Z.max_r by lia.
      destruct (JsString.lastIndexOf (sourcePath H) "/" =? 1000000) eqn:E2; [lia|].
      reflexivity.
    - destruct Ra as [-> | Ra]; [reflexivity|].
      destruct (JsString.lastIndexOf (sourcePath H) backslash =? -1) eqn:E1; [lia|].
      rewrite Z.min_l, Z.max_l by lia.
      destruct (JsString.lastIndexOf (sourcePath H) backslash =? 1000000) eqn:E2; [lia|].
      reflexivity. }
  split; [exact T|]. split; [|split; [reflexivity|]].
  - intros u s. unfold openAndFollowUp, DesktopAfterOpen, setTimeout. simpl.
    by rewrite lookup_insert_eq.
  - unfold DesktopOfflineUpdateLocalName. rewrite T. simpl.
    rewrite <- !app_assoc. split; [done|]. split; [by rewrite lookup_insert_eq|].
    intros id s. reflexivity.
Qed.

End Resolving.

(** ** Frame facts for the watchers *)

Section Frames.

Lemma framed_refl (st : state) : framed st st.
Proof. by constructor. Qed.

Lemma framed_trans (a b c : state) : framed a b -> framed b c -> framed a c.
Proof.
  intros [] []. constructor; try congruence; try lia; auto.
  intros id Hid. rewrite fr_timers1 by lia. auto.
Qed.

Lemma executions_print (lv : level) (args : list string) (st : state) :
  executions (print lv args st)
  = (executions st + if isExecuting (lv, args) then 1 else 0)%nat.
Proof.
  unfold executions. cbn [console print]. rewrite List.filter_app, length_app.
  cbn [List.filter]. by destruct (isExecuting (lv, args)).
Qed.

Lemma framed_print (lv : level) (args : list string) (st : state) :
  isExecuting (lv, args) = false -> framed st (print lv args st).
Proof.
  intros E. constructor; try done.
  rewrite executions_print, E. lia.
Qed.

Lemma framed_emit (c : call) (st : state) : framed st (emit c st).
Proof. by constructor. Qed.

Lemma framed_set_status (f : status) (st : state) :
  (forall s, flag s (overrideStatus st) = true -> flag s f = true) ->
  framed st (set_status f st).
Proof. intros M. by constructor. Qed.

Lemma framed_mark (s : subsystem) (st : state) :
  framed st (set_status (mark s (overrideStatus st)) st).
Proof.
  apply framed_set_status. intros x.
  destruct (overrideStatus st), s, x; simpl; auto.
Qed.

Lemma framed_all_flags (st : state) :
  framed st (set_status (Status true true true) st).
Proof. apply framed_set_status. by intros []. Qed.

Lemma pendingLoads_resolveReady (st : state) :
  pendingLoads (resolveReady st) = pendingLoads st.
Proof.
  unfold resolveReady, pendingLoads. destruct (ready st); [|done]. simpl.
  rewrite !List.filter_app, !length_app. lia.
Qed.

Lemma framed_resolveReady (st : state) : framed st (resolveReady st).
Proof.
  constructor; try (unfold resolveReady; by destruct (ready st)).
  - apply pendingLoads_resolveReady.
  - unfold resolveReady. intros E. by rewrite E.
Qed.

Lemma framed_checkAllReady (st : state) : framed st (checkAllReady st).
Proof.
  unfold checkAllReady. destruct (allReady (overrideStatus st)); [|apply framed_refl].
  eapply framed_trans; [|apply framed_resolveReady]. by apply framed_print.
Qed.

Lemma framed_complete (s : subsystem) (st : state) : framed st (complete s st).
Proof.
  unfold complete.
  eapply framed_trans; [|apply framed_checkAllReady].
  eapply framed_trans; [apply framed_mark|].
  apply framed_print. by destruct s.
Qed.

Lemma framed_forceComplete (st : state) : framed st (forceComplete st).
Proof.
  unfold forceComplete.
  eapply framed_trans; [apply framed_all_flags|apply framed_checkAllReady].
Qed.

Lemma framed_setInterval (b : task) (p : Z) (st : state) :
  framed st (snd (setInterval b p st)).
Proof.
  constructor; simpl; try done; try lia.
  intros id Hid. rewrite lookup_insert_ne; [done|lia].
Qed.

Lemma framed_raise (e : exn) (st : state) : framed st (raise e st).
Proof. by constructor. Qed.

Lemma framed_patch (name : string) (x : value) (k : state -> state) (st : state) :
  (forall s, framed s (k s)) -> framed st (patch name x k st).
Proof.
  intros K. unfold patch. destruct (patchable _ _); [|apply framed_raise].
  eapply framed_trans; [apply framed_emit|apply K].
Qed.

Lemma framed_patchIfThere (name : string) (k : state -> state) (st : state) :
  (forall s, framed s (k s)) -> framed st (patchIfThere name k st).
Proof.
  intros K. unfold patchIfThere. cbv zeta.
  destruct (_ && _); [by apply framed_patch|apply K].
Qed.

Lemma framed_assignCommon (k : state -> state) (st : state) :
  (forall s, framed s (k s)) -> framed st (assignCommon k st).
Proof.
  intros K. unfold assignCommon. destruct (identifier _ _) as [c|e]; [|apply framed_raise].
  destruct (isObject c); [apply K|apply framed_raise].
Qed.

Lemma framed_leaf (cb : callback) (v : value) (st : state) : framed st (leaf cb v st).
Proof.
  destruct cb; cbn [leaf]; try apply framed_refl; try apply framed_emit;
    (eapply framed_trans;
     [|repeat first [ apply framed_patch; intros ?
                    | apply framed_assignCommon; intros ?
                    | apply framed_patchIfThere; intros ?
                    | apply framed_complete ]]);
    by apply framed_print.
Qed.

Section WithRun.

Variable run : callback -> value -> state -> state.
Hypothesis framed_run : forall cb v st, framed st (run cb v st).

Lemma framed_resolveWith (w : watch) (rest : list string) (idx : nat)
      (obj : value) (st : state) :
  framed st (resolveWith run w rest idx obj st).
Proof.
  revert idx obj. induction rest as [|p rest IH]; intros idx obj; simpl.
  - apply framed_run.
  - destruct (truthy obj && defined (get (heap st) obj p)); [apply IH|].
    destruct (truthy obj); [apply framed_setInterval|].
    eapply framed_trans; [|apply framed_forceComplete]. by apply framed_print.
Qed.

Lemma framed_waitForPathWith (path : string) (cb : callback) (m : option Z)
      (st : state) :
  framed st (waitForPathWith run path cb m st).
Proof.
  unfold waitForPathWith.
  eapply framed_trans; [|apply framed_resolveWith]. by apply framed_print.
Qed.

End WithRun.

Lemma framed_run_callback (cb : callback) (v : value) (st : state) :
  framed st (run_callback cb v st).
Proof.
  destruct cb; try apply framed_leaf.
  apply framed_waitForPathWith, framed_leaf.
Qed.

Lemma framed_resolve (w : watch) (rest : list string) (idx : nat)
      (obj : value) (st : state) :
  framed st (resolve w rest idx obj st).
Proof. apply framed_resolveWith, framed_run_callback. Qed.

Lemma framed_waitForPath (path : string) (cb : callback) (m : option Z) (st : state) :
  framed st (waitForPath path cb m st).
Proof. apply framed_waitForPathWith, framed_run_callback. Qed.

Lemma loadView_framed (st st' : state) : framed st st' -> loadView st' = loadView st.
Proof. intros []. unfold loadView. congruence. Qed.

End Frames.

(** ** The load guard *)

Section Guard.

Variable H : host.

(** What a run of the steps leaves alone, however far it gets, and the one
    line by which it is counted. *)
Lemma view_documentEndLoadBody (u d : string) (l : Z) (st : state) :
  let st' := documentEndLoadBody H u d l st in
  documentLoadStarted st' = documentLoadStarted st
  /\ reactions st' = reactions st
  /\ microtasks st' = microtasks st
  /\ heap st' = heap st
  /\ ready st' = ready st
  /\ overrideStatus st' = overrideStatus st
  /\ executions st' = S (executions st).
Proof.
  cbv zeta. unfold documentEndLoadBody, payloadSteps, executions. cbv zeta.
  repeat match goal with
         | |- context [match ?x with _ => _ end] => destruct x
         end;
    cbn; rewrite ?List.filter_app, ?length_app; cbn; repeat split; lia.
Qed.

Lemma view_setupEncryption (st : state) :
  let st' := setupEncryption st in
  documentLoadStarted st' = documentLoadStarted st
  /\ reactions st' = reactions st
  /\ microtasks st' = microtasks st
  /\ heap st' = heap st
  /\ ready st' = ready st
  /\ overrideStatus st' = overrideStatus st
  /\ console st' = console st.
Proof.
  cbv zeta. unfold setupEncryption, patch. cbv zeta.
  destruct (negb _); [done|]. by destruct (patchable _ _).
Qed.

Lemma run_reaction_view (r : reaction) (st : state) :
  documentLoadStarted (run_reaction H r st) = documentLoadStarted st
  /\ reactions (run_reaction H r st) = reactions st
  /\ microtasks (run_reaction H r st) = microtasks st
  /\ executions (run_reaction H r st)
     = (executions st + if isLoadBody r then 1 else 0)%nat.
Proof.
  destruct r as [u d l| |n]; simpl.
  - destruct (view_documentEndLoadBody u d l st) as (-> & -> & -> & _ & _ & _ & ->).
    repeat split. lia.
  - destruct (view_setupEncryption st) as (-> & -> & -> & _ & _ & _ & E).
    unfold executions. rewrite E. repeat split. lia.
  - unfold executions. repeat split; simpl; lia.
Qed.

Lemma run_reactions_view (l : list reaction) (st : state) :
  let st' := fold_left (fun s r => run_reaction H r s) l st in
  documentLoadStarted st' = documentLoadStarted st
  /\ reactions st' = reactions st
  /\ microtasks st' = microtasks st
  /\ executions st' = (executions st + length (List.filter isLoadBody l))%nat.
Proof.
  revert st. induction l as [|r l IH]; intros st; simpl.
  - repeat split; lia.
  - destruct (IH (run_reaction H r st)) as (-> & -> & -> & ->).
    destruct (run_reaction_view r st) as (-> & -> & -> & ->).
    repeat split. destruct (isLoadBody r); simpl; lia.
Qed.

Lemma drain_started (st : state) :
  documentLoadStarted (drain H st) = documentLoadStarted st.
Proof.
  unfold drain.
  by destruct (run_reactions_view (microtasks st)
                 (set_promise (ready st) (reactions st) [] st)) as (-> & _).
Qed.

Lemma drain_accounts (st : state) :
  (pendingLoads (drain H st) + executions (drain H st))%nat
  = (pendingLoads st + executions st)%nat.
Proof.
  unfold drain, pendingLoads.
  destruct (run_reactions_view (microtasks st)
              (set_promise (ready st) (reactions st) [] st)) as (_ & -> & -> & ->).
  simpl. rewrite !List.filter_app, !length_app.
  unfold executions; simpl. lia.
Qed.

Lemma guardInv_drain (st : state) : guardInv st -> guardInv (drain H st).
Proof. unfold guardInv. rewrite drain_accounts, drain_started. done. Qed.

Lemma loadView_guardInv (st st' : state) :
  loadView st' = loadView st -> guardInv st -> guardInv st'.
Proof. unfold loadView, guardInv. intros [= -> -> ->]. done. Qed.

Lemma loadView_thenReady (r : reaction) (st : state) :
  isLoadBody r = false -> loadView (thenReady r st) = loadView st.
Proof.
  intros E. unfold loadView, thenReady, pendingLoads.
  destruct (ready st); simpl; rewrite !List.filter_app; simpl; rewrite E;
    by rewrite ?app_nil_r.
Qed.

Lemma pendingLoads_thenReady_body (u d : string) (l : Z) (st : state) :
  pendingLoads (thenReady (DocumentEndLoadBody u d l) st) = S (pendingLoads st).
Proof.
  unfold thenReady, pendingLoads.
  destruct (ready st); simpl; rewrite !List.filter_app, !length_app; simpl; lia.
Qed.

Lemma loadView_pathPoll (id : nat) (w : watch) (obj : value) (idx : nat) (st : state) :
  loadView (pathPoll id w obj idx st) = loadView st.
Proof.
  unfold pathPoll.
  destruct (now st - startTime w >? maxWait w).
  - change (loadView st) with (loadView (clearInterval id st)).
    apply loadView_framed.
    eapply framed_trans; [|apply framed_forceComplete]. by apply framed_print.
  - destruct (defined _); [|done].
    change (loadView st) with (loadView (clearInterval id st)).
    apply loadView_framed, framed_resolve.
Qed.

Lemma loadView_propPoll (id : nat) (obj : value) (p : string) (cb : callback)
      (st : state) :
  loadView (propPoll id obj p cb st) = loadView st.
Proof.
  unfold propPoll. destruct (defined _); [|done].
  change (loadView st) with (loadView (clearInterval id st)).
  apply loadView_framed, framed_run_callback.
Qed.

Lemma loadView_run_task (id : nat) (t : task) (st : state) :
  loadView (run_task H id t st) = loadView st.
Proof.
  destruct t; simpl; [apply loadView_pathPoll|apply loadView_propPoll|done|done].
Qed.

Lemma loadView_fire (id : nat) (st : state) : loadView (fire H id st) = loadView st.
Proof.
  unfold fire. destruct (timers st !! id) as [t|]; [|done].
  destruct (period t) as [p|].
  - destruct (timers _ !! id); [|by rewrite loadView_run_task].
    change (loadView (set_timers ?a ?b ?s)) with (loadView s).
    by rewrite loadView_run_task.
  - by rewrite loadView_run_task.
Qed.

Lemma loadView_assign (obj : value) (p : string) (v : value) (st : state) :
  loadView (assign obj p v st) = loadView st.
Proof.
  unfold assign. destruct (getOwnPropertyDescriptor _ _ _) as [[| |]|]; try done.
  - by destruct hasSet.
  - change (loadView st) with
      (loadView (set_heap (defineProperty (heap st) obj p (Data v)) st)).
    apply loadView_framed, framed_run_callback.
Qed.

Lemma guardInv_entry (u d : string) (l : Z) (st : state) :
  guardInv st -> guardInv (DesktopOfflineAppDocumentEndLoad u d l st).
Proof.
  unfold DesktopOfflineAppDocumentEndLoad, guardInv.
  destruct (documentLoadStarted st) eqn:E.
  - intros I. rewrite executions_print. simpl. rewrite E.
    change (pendingLoads (print ?a ?b ?s)) with (pendingLoads s). lia.
  - intros I. rewrite pendingLoads_thenReady_body.
    set (s1 := store window "_documentLoadStarted" (VBool true) (set_started true st)).
    assert (documentLoadStarted (thenReady (DocumentEndLoadBody u d l) s1) = true) as ->
      by (unfold thenReady; by destruct (ready _)).
    assert (executions (thenReady (DocumentEndLoadBody u d l) s1) = executions st) as ->
      by (unfold thenReady; by destruct (ready _)).
    change (pendingLoads s1) with (pendingLoads st). lia.
Qed.

Lemma guardInv_handle (e : event) (st : state) : guardInv st -> guardInv (handle H e st).
Proof.
  destruct e as [u d l|id|obj p v|dt]; simpl.
  - destruct (get _ _ _) as [| | | | | |name|]; try done.
    destruct (String.eqb_spec name "DesktopOfflineAppDocumentEndLoad") as [->|N].
    + apply guardInv_entry.
    + intros I.
      repeat match goal with
             | |- context [match ?x with _ => _ end] => destruct x; try done
             end.
  - apply loadView_guardInv, loadView_fire.
  - apply loadView_guardInv, loadView_assign.
  - done.
Qed.

Lemma guardInv_run (es : list event) (st : state) : guardInv st -> guardInv (run H st es).
Proof.
  revert st. induction es as [|e es IH]; intros st I; [done|].
  simpl. apply IH. unfold step. by apply guardInv_drain, guardInv_handle.
Qed.

Lemma started_handle (e : event) (st : state) :
  documentLoadStarted st = true -> documentLoadStarted (handle H e st) = true.
Proof.
  intros S. destruct e as [u d l|id|obj p v|dt]; simpl.
  - assert (documentLoadStarted (DesktopOfflineAppDocumentEndLoad u d l st) = true)
      by (unfold DesktopOfflineAppDocumentEndLoad; by rewrite S).
    repeat match goal with
           | |- context [match ?x with _ => _ end] => destruct x; try done
           end.
  - pose proof (loadView_fire id st) as V. unfold loadView in V. congruence.
  - pose proof (loadView_assign obj p v st) as V. unfold loadView in V. congruence.
  - done.
Qed.

Lemma started_run (es : list event) (st : state) :
  documentLoadStarted st = true -> documentLoadStarted (run H st es) = true.
Proof.
  revert st. induction es as [|e es IH]; intros st S; [done|].
  simpl. apply IH. unfold step. rewrite drain_started. by apply started_handle.
Qed.

End Guard.

(** ** Loading the script *)

Section Loading.

Variable H : host.

Lemma get_defineProperty_ne (h : heapT) (obj obj' : value) (p p' : string) (d : prop) :
  p <> p' -> get (defineProperty h obj p d) obj' p' = get h obj' p'.
Proof.
  intros N. unfold get, getOwnPropertyDescriptor, defineProperty.
  destruct obj as [| | | | |a| |]; try done.
  destruct obj' as [| | | | |a'| |]; try done.
  destruct (decide (a = a')) as [->|Na].
  - rewrite lookup_insert_eq, lookup_insert_ne by done.
    destruct (h !! a'); simpl; [done|]. by rewrite lookup_empty.
  - by rewrite lookup_insert_ne.
Qed.

Lemma get_defineProperty_eq (h : heapT) (a : nat) (p : string) (d : prop) :
  get (defineProperty h (VRef a) p d) (VRef a) p = read d.
Proof.
  unfold get, getOwnPropertyDescriptor, defineProperty.
  by rewrite !lookup_insert_eq.
Qed.

Lemma isMinifiedSdk_defineProperty (h : heapT) (obj : value) (p : string) (d : prop) :
  p <> "AscCommon" -> p <> "baseEditorsApi" ->
  isMinifiedSdk (defineProperty h obj p d) = isMinifiedSdk h.
Proof.
  intros N1 N2. unfold isMinifiedSdk. by rewrite !get_defineProperty_ne.
Qed.

(** A namespace object that is there without the extension point. *)
Lemma lacking_is_minified (h : heapT) (a : nat) :
  get h window "AscCommon" = VRef a ->
  get h (VRef a) "baseEditorsApi" = VUndefined ->
  isMinifiedSdk h = true.
Proof. unfold isMinifiedSdk. by intros -> ->. Qed.

Lemma truthy_minifiedValue (h : heapT) : truthy (minifiedValue h) = isMinifiedSdk h.
Proof.
  unfold minifiedValue, isMinifiedSdk.
  destruct (truthy (get h window "AscCommon")) eqn:E; [reflexivity|exact E].
Qed.

Lemma minifiedValue_true (h : heapT) :
  isMinifiedSdk h = true -> minifiedValue h = VBool true.
Proof.
  unfold minifiedValue, isMinifiedSdk. intros M.
  apply andb_prop in M as [-> ->]. reflexivity.
Qed.

Lemma minifiedValue_defineProperty (h : heapT) (obj : value) (p : string) (d : prop) :
  p <> "AscCommon" -> p <> "baseEditorsApi" ->
  minifiedValue (defineProperty h obj p d) = minifiedValue h.
Proof.
  intros N1 N2. unfold minifiedValue. by rewrite !get_defineProperty_ne.
Qed.

Lemma descriptor_defineProperty_ne (h : heapT) (obj obj' : value) (p p' : string)
      (d : prop) :
  p <> p' ->
  getOwnPropertyDescriptor (defineProperty h obj p d) obj' p'
  = getOwnPropertyDescriptor h obj' p'.
Proof.
  intros N. unfold getOwnPropertyDescriptor, defineProperty.
  destruct obj as [| | | | |a| |]; try done.
  destruct obj' as [| | | | |a'| |]; try done.
  destruct (decide (a = a')) as [->|Na].
  - rewrite lookup_insert_eq, lookup_insert_ne by done.
    destruct (h !! a'); simpl; [done|]. by rewrite lookup_empty.
  - by rewrite lookup_insert_ne.
Qed.

(** Declaring a variable changes no value that can be read. *)
Lemma get_declare (name : string) (h : heapT) (obj : value) (p : string) :
  get (declare name h) obj p = get h obj p.
Proof.
  unfold declare. destruct (getOwnPropertyDescriptor h window name) eqn:E; [done|].
  destruct (String.eqb_spec name p) as [<-|N]; [|by apply get_defineProperty_ne].
  unfold get, getOwnPropertyDescriptor, defineProperty, window in *.
  destruct obj as [| | | | |a| |]; try done.
  destruct (decide (a = 0%nat)) as [->|Na].
  - rewrite !lookup_insert_eq. simpl. by rewrite E.
  - by rewrite lookup_insert_ne.
Qed.

Lemma get_hoisted (h : heapT) (obj : value) (p : string) :
  get (hoisted h) obj p = get h obj p.
Proof. unfold hoisted. by rewrite !get_declare. Qed.

Lemma descriptor_declare_ne (name : string) (h : heapT) (obj : value) (p : string) :
  name <> p ->
  getOwnPropertyDescriptor (declare name h) obj p = getOwnPropertyDescriptor h obj p.
Proof.
  intros N. unfold declare. destruct (getOwnPropertyDescriptor h window name); [done|].
  by apply descriptor_defineProperty_ne.
Qed.

(** A declared variable is an own property of the global object. *)
Lemma descriptor_declare_eq (name : string) (h : heapT) :
  getOwnPropertyDescriptor (declare name h) window name
  = Some (default (Data VUndefined) (getOwnPropertyDescriptor h window name)).
Proof.
  unfold declare. destruct (getOwnPropertyDescriptor h window name) eqn:E; [done|].
  unfold getOwnPropertyDescriptor, defineProperty, window. by rewrite !lookup_insert_eq.
Qed.

Lemma isMinifiedSdk_hoisted (h : heapT) : isMinifiedSdk (hoisted h) = isMinifiedSdk h.
Proof. unfold isMinifiedSdk. by rewrite !get_hoisted. Qed.

Lemma minifiedValue_hoisted (h : heapT) : minifiedValue (hoisted h) = minifiedValue h.
Proof. unfold minifiedValue. by rewrite !get_hoisted. Qed.

Lemma threw_refl (st : state) : threw st st = false.
Proof. unfold threw. apply Nat.ltb_irrefl. Qed.

(** The first block leaves the objects alone, the promise apart. *)
Lemma framed_initReadiness (st : state) :
  framed (store window "_commonJsReady" VPromise st) (initReadiness st).
Proof.
  unfold initReadiness. cbv zeta.
  set (s1 := store window "_commonJsReady" VPromise st).
  destruct (isMinifiedSdk (heap s1)); cbn [negb].
  - rewrite !threw_refl.
    eapply framed_trans; [|apply framed_forceComplete]. by apply framed_print.
  - destruct (threw _ _); [apply framed_waitForPath|].
    destruct (threw _ _).
    + eapply framed_trans; apply framed_waitForPath.
    + eapply framed_trans; [|apply framed_waitForPath].
      eapply framed_trans; apply framed_waitForPath.
Qed.

Lemma heap_initReadiness (st : state) :
  heap (initReadiness st) = defineProperty (heap st) window "_commonJsReady" (Data VPromise).
Proof. by rewrite (fr_heap _ _ (framed_initReadiness st)). Qed.

Lemma loadView_initReadiness (st : state) :
  loadView (initReadiness st) = loadView st.
Proof. by rewrite (loadView_framed _ _ (framed_initReadiness st)). Qed.

Lemma initReadiness_minified (h : heapT) (t : Z) :
  isMinifiedSdk h = true ->
  initReadiness (declareGlobals (fresh h t))
  = State (defineProperty (hoisted h) window "_commonJsReady" (Data VPromise))
          (Status true true true) Fulfilled [] [] ∅ 0%nat t
          [minifiedNotice; allComplete] [] false VUndefined [].
Proof.
  intros M. unfold initReadiness. cbn [heap store fresh set_heap declareGlobals].
  rewrite isMinifiedSdk_defineProperty, isMinifiedSdk_hoisted, M by done. reflexivity.
Qed.

Lemma heap_run_reactions (l : list reaction) (st : state) :
  heap (fold_left (fun s r => run_reaction H r s) l st) = heap st.
Proof.
  revert st. induction l as [|r l IH]; intros st; [done|].
  simpl. rewrite IH. destruct r as [u d n| |n]; simpl; [| |done].
  - by destruct (view_documentEndLoadBody H u d n st) as (_ & _ & _ & -> & _).
  - by destruct (view_setupEncryption st) as (_ & _ & _ & -> & _).
Qed.

Lemma heap_drain (st : state) : heap (drain H st) = heap st.
Proof. unfold drain. by rewrite heap_run_reactions. Qed.

Lemma drain_idle (st : state) : microtasks st = [] -> drain H st = st.
Proof. unfold drain. destruct st; simpl. by intros ->. Qed.

Lemma loadScript_minified (h : heapT) (t : Z) :
  isMinifiedSdk h = true ->
  loadScript H h t
  = store window "_isMinifiedSdk" (VBool true) (initReadiness (declareGlobals (fresh h t))).
Proof.
  intros M. unfold loadScript. cbv zeta.
  assert (threw (declareGlobals (fresh h t)) (initReadiness (declareGlobals (fresh h t)))
          = false) as -> by (by rewrite initReadiness_minified).
  unfold defineEntryPoints. cbv zeta.
  rewrite heap_initReadiness. cbn [heap declareGlobals set_heap fresh].
  rewrite isMinifiedSdk_defineProperty, isMinifiedSdk_hoisted, M by done.
  rewrite minifiedValue_defineProperty, minifiedValue_hoisted, (minifiedValue_true h M)
    by done.
  apply drain_idle. by rewrite initReadiness_minified.
Qed.

Lemma loadView_store (obj : value) (p : string) (v : value) (st : state) :
  loadView (store obj p v st) = loadView st.
Proof. reflexivity. Qed.

Lemma loadView_stores (names : list string) (st : state) :
  loadView (fold_left (fun s name => store window name (VFun name) s) names st)
  = loadView st.
Proof.
  revert st. induction names as [|n names IH]; intros st; [done|].
  simpl. by rewrite IH.
Qed.

Lemma loadView_setupEncryption (st : state) :
  loadView (setupEncryption st) = loadView st.
Proof.
  unfold loadView, pendingLoads, executions.
  by destruct (view_setupEncryption st) as (-> & -> & -> & _ & _ & _ & ->).
Qed.

Lemma loadView_exportGetBinaryArray (st : state) :
  loadView (exportGetBinaryArray st) = loadView st.
Proof.
  unfold exportGetBinaryArray. destruct (identifier _ _) as [c|e]; [|done].
  by destruct (isObject c).
Qed.

Lemma loadView_defineEntryPoints (st : state) :
  documentLoadStarted st = false ->
  loadView (defineEntryPoints st) = loadView st.
Proof.
  intros S. unfold defineEntryPoints. cbv zeta.
  destruct (isMinifiedSdk _); [apply loadView_store|].
  set (st2 := fold_left _ entryPoints _).
  assert (V2 : loadView st2 = loadView st).
  { subst st2. rewrite loadView_stores. unfold loadView. simpl. by rewrite S. }
  destruct (threw _ _); [by rewrite loadView_setupEncryption|].
  rewrite loadView_exportGetBinaryArray.
  match goal with
  | |- loadView (if ?c then thenReady ?r ?s else ?s) = _ =>
      assert (loadView (if c then thenReady r s else s) = loadView s) as ->
        by (destruct c; [by apply loadView_thenReady|done])
  end.
  by rewrite loadView_setupEncryption.
Qed.

Lemma guardInv_loadScript (h : heapT) (t : Z) : guardInv (loadScript H h t).
Proof.
  unfold loadScript. cbv zeta. apply guardInv_drain.
  pose proof (loadView_initReadiness (declareGlobals (fresh h t))) as V.
  change (loadView (declareGlobals (fresh h t))) with (false, 0%nat, 0%nat) in V.
  assert (S : documentLoadStarted (initReadiness (declareGlobals (fresh h t))) = false)
    by (unfold loadView in V; congruence).
  pose proof (loadView_defineEntryPoints _ S) as V'. rewrite V in V'.
  destruct (threw _ _).
  - unfold guardInv. unfold loadView in V. by injection V as -> -> ->.
  - unfold guardInv. unfold loadView in V'. by injection V' as -> -> ->.
Qed.

(** C6.  When the namespace object [AscCommon] is there without
    [baseEditorsApi] (more generally, whenever the detection expression is
    truthy), the first block of the script sets the three flags and fulfils
    the promise before it returns: the clock has not moved, no
    [waitForPath] call was made and no timer exists.  The rest of the script
    only assigns the variable [_isMinifiedSdk]. *)
Theorem minified_sdk_completes_at_once (h : heapT) (t : Z) :
  isMinifiedSdk h = true ->
  let st := initReadiness (declareGlobals (fresh h t)) in
  overrideStatus st = Status true true true
  /\ ready st = Fulfilled
  /\ fired (fresh h t) st = true
  /\ now st = t
  /\ timers st = ∅
  /\ nextTimer st = 0%nat
  /\ console st = [minifiedNotice; allComplete]
  /\ loadScript H h t = store window "_isMinifiedSdk" (VBool true) st.
Proof.
  intros M st. subst st. rewrite loadScript_minified, initReadiness_minified by done.
  by repeat split.
Qed.

Lemma heap_thenReady (r : reaction) (st : state) : heap (thenReady r st) = heap st.
Proof. unfold thenReady. by destruct (ready st). Qed.

Lemma heap_setupEncryption (st : state) : heap (setupEncryption st) = heap st.
Proof. by destruct (view_setupEncryption st) as (_ & _ & _ & -> & _). Qed.

Lemma get_stores (names : list string) (name : string) (st : state) :
  get (heap (fold_left (fun s n => store window n (VFun n) s) names st)) window name
  = if existsb (String.eqb name) names then VFun name else get (heap st) window name.
Proof.
  revert st. induction names as [|n names IH]; intros st; [done|].
  cbn [fold_left existsb]. rewrite IH.
  destruct (existsb (String.eqb name) names); [by rewrite orb_true_r|].
  rewrite orb_false_r. unfold store, window. cbn [heap set_heap].
  destruct (String.eqb_spec name n) as [->|N].
  - apply get_defineProperty_eq.
  - by rewrite get_defineProperty_ne.
Qed.

Lemma heap_exportGetBinaryArray (st : state) (name : string) :
  name <> "getBinaryArray" ->
  get (heap (exportGetBinaryArray st)) window name = get (heap st) window name.
Proof.
  intros N. unfold exportGetBinaryArray. destruct (identifier _ _) as [c|e]; [|done].
  destruct (isObject c); [|done]. unfold store. cbn [heap set_heap].
  by rewrite get_defineProperty_ne.
Qed.

(** Once the second block is reached in the unminified mode, the entry
    point is defined, whatever follows. *)
Lemma heap_defineEntryPoints_unminified (st : state) :
  isMinifiedSdk (heap st) = false ->
  get (heap (defineEntryPoints st)) window "DesktopOfflineAppDocumentEndLoad"
  = VFun "DesktopOfflineAppDocumentEndLoad".
Proof.
  intros M. unfold defineEntryPoints. cbv zeta. rewrite M.
  set (st2 := fold_left _ entryPoints _).
  assert (G : get (heap st2) window "DesktopOfflineAppDocumentEndLoad"
              = VFun "DesktopOfflineAppDocumentEndLoad")
    by (subst st2; by rewrite get_stores).
  destruct (threw _ _); [by rewrite heap_setupEncryption|].
  rewrite heap_exportGetBinaryArray by done.
  assert (heap (if truthy (get (heap (setupEncryption st2)) window "_commonJsReady")
                then thenReady SetupEncryption (setupEncryption st2)
                else setupEncryption st2) = heap (setupEncryption st2)) as ->
    by (destruct (truthy _); [apply heap_thenReady|done]).
  by rewrite heap_setupEncryption.
Qed.

Lemma uncaught_checkAllReady (st : state) : uncaught (checkAllReady st) = uncaught st.
Proof.
  unfold checkAllReady. destruct (allReady _); [|done].
  unfold resolveReady. cbn. by destruct (ready st).
Qed.

Lemma uncaught_complete (s : subsystem) (st : state) :
  uncaught (complete s st) = uncaught st.
Proof. unfold complete. by rewrite uncaught_checkAllReady. Qed.

Lemma uncaught_forceComplete (st : state) : uncaught (forceComplete st) = uncaught st.
Proof. unfold forceComplete. by rewrite uncaught_checkAllReady. Qed.

Lemma threw_same (st st' : state) : uncaught st' = uncaught st -> threw st st' = false.
Proof. unfold threw. intros ->. apply Nat.ltb_irrefl. Qed.

(** A watcher throws only through its callback. *)
Lemma uncaught_resolveWith (run : callback -> value -> state -> state)
      (w : watch) (rest : list string) (idx : nat) (obj : value) (st : state) :
  (resolvable (heap st) obj rest = true ->
   uncaught (run (onFound w) (pathValue (heap st) obj rest) st) = uncaught st) ->
  uncaught (resolveWith run w rest idx obj st) = uncaught st.
Proof.
  revert idx obj. induction rest as [|p rest IH]; intros idx obj R; simpl.
  - by apply R.
  - destruct (truthy obj && defined (get (heap st) obj p)) eqn:E.
    + apply IH. intros R'. apply R. simpl. by rewrite E, R'.
    + destruct (truthy obj); [done|]. by rewrite uncaught_forceComplete.
Qed.

Lemma identifier_get (h : heapT) (name : string) :
  defined (get h window name) = true -> identifier h name = Ok (get h window name).
Proof. unfold identifier, get. by destruct (getOwnPropertyDescriptor h window name). Qed.

(** Only an object of the heap has a property that reads defined. *)
Lemma get_of_ref (h : heapT) (v : value) (p : string) :
  defined (get h v p) = true -> isRef v = true.
Proof. by destruct v. Qed.

Lemma truthy_get (h : heapT) (v : value) (p : string) :
  truthy v && truthy (get h v p) = truthy (get h v p).
Proof. by destruct v as [| |[]|n|s| | |]; try done; simpl; destruct (_ =? _)%Z || destruct (String.eqb _ _). Qed.

Lemma leaf_plain (cb : callback) (v : value) (st : state) :
  patchable (heap st) v = true ->
  (cb = CbBaseEditorsApi ->
   leaf cb v st
   = complete BaseEditorsApi
       (emit (ApplyOverrides "baseEditorsApi" v)
          (print LvLog ["[common.js] Applying baseEditorsApi overrides"] st)))
  /\ (cb = CbFonts ->
      leaf cb v st
      = complete Fonts
          (emit (ApplyOverrides "CFontFileLoader" v)
             (print LvLog ["[common.js] Applying font loading overrides"] st))).
Proof.
  intros Pv. split; intros ->; unfold leaf, patch; cbn [heap print]; by rewrite Pv.
Qed.

(** The routine of OVERRIDE 3 when everything it patches is a constructor. *)
Lemma leaf_sdk (du v : value) (st : state) :
  patchable (heap st) du = true ->
  isRef (get (heap st) window "AscCommon") = true ->
  patchable (heap st) v = true ->
  (forall name : string,
      In name ["CAscWatermarkProperties"; "asc_CBullet"] ->
      truthy (get (heap st) (get (heap st) window "Asc") name) = true ->
      patchable (heap st) (get (heap st) (get (heap st) window "Asc") name) = true) ->
  leaf (CbCDocsCoApi du) v st
  = complete Sdk
      (fold_left (fun s c => emit c s)
         ([ApplyOverrides "DocumentUrls" du; ApplyOverrides "CDocsCoApi" v]
            ++ optionalOverrides (heap st))
         (print LvLog ["[common.js] Applying SDK document/image overrides"] st)).
Proof.
  intros Pd Pc Pv Po.
  unfold leaf, patch, assignCommon, patchIfThere, optionalOverrides. cbv zeta.
  cbn [heap print emit flat_map]. rewrite Pd, Pv.
  rewrite identifier_get by (by destruct (get (heap st) window "AscCommon")).
  assert (isObject (get (heap st) window "AscCommon") = true) as ->
    by (by destruct (get (heap st) window "AscCommon")).
  rewrite !truthy_get.
  pose proof (Po "CAscWatermarkProperties" ltac:(simpl; tauto)) as Pw.
  pose proof (Po "asc_CBullet" ltac:(simpl; tauto)) as Pb.
  destruct (truthy (get (heap st) (get (heap st) window "Asc") "CAscWatermarkProperties"));
    destruct (truthy (get (heap st) (get (heap st) window "Asc") "asc_CBullet")) eqn:Eb;
    unfold patch; cbn [heap print emit]; rewrite ?truthy_get, ?Eb, ?Pw, ?Pb by done;
    reflexivity.
Qed.

(** C2.  On any page, after any sequence of entry-point calls, timer runs,
    property assignments and delays: the [Resolving] steps have started at
    most once, and the runs started or waiting number one if the guard is
    set and none otherwise; a set guard stays set; a call that finds the
    guard set only prints the duplicate warning; a call that finds it clear
    sets it and leaves one run waiting on the promise, no step taken yet. *)
Theorem document_load_runs_at_most_once (h : heapT) (t : Z) (es : list event) :
  let st := run H (loadScript H h t) es in
  (executions st <= 1)%nat
  /\ (pendingLoads st + executions st)%nat
     = (if documentLoadStarted st then 1%nat else 0%nat)
  /\ (forall es' : list event,
        documentLoadStarted st = true -> documentLoadStarted (run H st es') = true)
  /\ (forall (u d : string) (l : Z),
        documentLoadStarted st = true ->
        DesktopOfflineAppDocumentEndLoad u d l st = print LvWarn [duplicateMessage] st)
  /\ (forall (u d : string) (l : Z),
        documentLoadStarted st = false ->
        let st1 := DesktopOfflineAppDocumentEndLoad u d l st in
        documentLoadStarted st1 = true
        /\ pendingLoads st1 = 1%nat
        /\ executions st1 = 0%nat
        /\ console st1 = console st /\ calls st1 = calls st).
Proof.
  intros st.
  assert (I : guardInv st) by apply guardInv_run, guardInv_loadScript.
  unfold guardInv in I.
  split; [destruct (documentLoadStarted st); lia|].
  split; [exact I|]. split; [intros es'; apply started_run|]. split.
  - intros u d l S. unfold DesktopOfflineAppDocumentEndLoad. by rewrite S.
  - intros u d l S st1. subst st1. rewrite S in I.
    unfold DesktopOfflineAppDocumentEndLoad. rewrite S.
    rewrite pendingLoads_thenReady_body.
    change (pendingLoads (store _ _ _ (set_started true st))) with (pendingLoads st).
    unfold thenReady. cbn [ready set_started store set_heap].
    destruct (ready st); unfold executions; cbn; repeat split; try lia;
      unfold executions in I; lia.
Qed.

End Loading.


(** ** Polling timers *)

Section Timers.

Variable H : host.

Lemma forceComplete_effect (st : state) :
  overrideStatus (forceComplete st) = Status true true true
  /\ ready (forceComplete st) = Fulfilled
  /\ console (forceComplete st) = (console st ++ [allComplete])%list
  /\ timers (forceComplete st) = timers st
  /\ nextTimer (forceComplete st) = nextTimer st
  /\ now (forceComplete st) = now st
  /\ calls (forceComplete st) = calls st.
Proof.
  unfold forceComplete, checkAllReady. simpl. unfold resolveReady. simpl.
  destruct (ready st) eqn:R; simpl; repeat split; done.
Qed.

Lemma fire_path_timeout (id : nat) (w : watch) (obj : value) (idx : nat) (d : Z)
      (st : state) :
  timers st !! id = Some (Timer (PathPoll w obj idx) (Some 20) d) ->
  Z.max (now st) d - startTime w > maxWait w ->
  fire H id st
  = forceComplete (print LvError (timeoutMessage (pathStr w))
                     (clearInterval id (set_now (Z.max (now st) d) st))).
Proof.
  intros L T. unfold fire. rewrite L. cbn [period body due run_task].
  unfold pathPoll. cbn [now set_now].
  destruct (Z.gtb_spec (Z.max (now st) d - startTime w) (maxWait w)); [|lia].
  destruct (forceComplete_effect
              (print LvError (timeoutMessage (pathStr w))
                 (clearInterval id (set_now (Z.max (now st) d) st))))
    as (_ & _ & _ & -> & _).
  simpl. by rewrite lookup_delete_eq.
Qed.

Lemma fire_path_found (id : nat) (w : watch) (obj : value) (idx : nat) (d : Z)
      (st : state) :
  timers st !! id = Some (Timer (PathPoll w obj idx) (Some 20) d) ->
  (id < nextTimer st)%nat ->
  Z.max (now st) d - startTime w <= maxWait w ->
  defined (get (heap st) obj (nth idx (parts w) "undefined")) = true ->
  fire H id st
  = resolve w (skipn (S idx) (parts w)) (S idx)
            (get (heap st) obj (nth idx (parts w) "undefined"))
            (clearInterval id (set_now (Z.max (now st) d) st))
  /\ timers (fire H id st) !! id = None.
Proof.
  intros L B T D. unfold fire. rewrite L. cbn [period body due run_task].
  unfold pathPoll. cbn [now set_now heap].
  destruct (Z.gtb_spec (Z.max (now st) d - startTime w) (maxWait w)); [lia|].
  rewrite D.
  set (r := resolve _ _ _ _ _).
  assert (N : timers r !! id = None).
  { subst r. rewrite (fr_timers _ _ (framed_resolve _ _ _ _ _)) by exact B.
    simpl. by rewrite lookup_delete_eq. }
  by rewrite N.
Qed.

Lemma fire_path_idle (id : nat) (w : watch) (obj : value) (idx : nat) (d : Z)
      (st : state) :
  timers st !! id = Some (Timer (PathPoll w obj idx) (Some 20) d) ->
  Z.max (now st) d - startTime w <= maxWait w ->
  get (heap st) obj (nth idx (parts w) "undefined") = VUndefined ->
  fire H id st
  = set_timers (<[id := Timer (PathPoll w obj idx) (Some 20) (d + 20)]> (timers st))
               (nextTimer st) (set_now (Z.max (now st) d) st).
Proof.
  intros L T U. unfold fire. rewrite L. cbn [period body due run_task].
  unfold pathPoll. cbn [now set_now heap].
  destruct (Z.gtb_spec (Z.max (now st) d - startTime w) (maxWait w)); [lia|].
  rewrite U. cbn [defined]. change (timers (set_now _ st)) with (timers st).
  by rewrite L.
Qed.

Lemma fire_prop_found (id : nat) (obj : value) (p : string) (cb : callback) (d : Z)
      (st : state) :
  timers st !! id = Some (Timer (PropPoll obj p cb) (Some 10) d) ->
  (id < nextTimer st)%nat ->
  defined (get (heap st) obj p) = true ->
  fire H id st
  = run_callback cb (get (heap st) obj p)
                 (clearInterval id (set_now (Z.max (now st) d) st))
  /\ timers (fire H id st) !! id = None.
Proof.
  intros L B D. unfold fire. rewrite L. cbn [period body due run_task].
  unfold propPoll. cbn [now set_now heap]. rewrite D.
  set (r := run_callback _ _ _).
  assert (N : timers r !! id = None).
  { subst r. rewrite (fr_timers _ _ (framed_run_callback _ _ _)) by exact B.
    simpl. by rewrite lookup_delete_eq. }
  by rewrite N.
Qed.

Lemma fire_prop_idle (id : nat) (obj : value) (p : string) (cb : callback) (d : Z)
      (st : state) :
  timers st !! id = Some (Timer (PropPoll obj p cb) (Some 10) d) ->
  get (heap st) obj p = VUndefined ->
  fire H id st
  = set_timers (<[id := Timer (PropPoll obj p cb) (Some 10) (d + 10)]> (timers st))
               (nextTimer st) (set_now (Z.max (now st) d) st).
Proof.
  intros L U. unfold fire. rewrite L. cbn [period body due run_task].
  unfold propPoll. cbn [now set_now heap]. rewrite U. cbn [defined].
  change (timers (set_now _ st)) with (timers st). by rewrite L.
Qed.

(** C9 (amended).  An interval of [waitForPath] is cleared by the run that
    finds its property and by the first run later than [maxWait] after the
    start of the watch, which takes the degrade path and calls no callback
    even if the property is there; any other run leaves it armed.  An
    interval of [waitForProperty] is cleared by the run that finds the
    property defined, and the callback is called then; while the property
    reads undefined it is scheduled again, whatever the time.  A cleared
    interval never runs again. *)
Theorem polls_clear_their_interval (id : nat) (d : Z) (st : state) :
  (id < nextTimer st)%nat ->
  let T := Z.max (now st) d in
  (forall (w : watch) (obj : value) (idx : nat),
      timers st !! id = Some (Timer (PathPoll w obj idx) (Some 20) d) ->
      let v := get (heap st) obj (nth idx (parts w) "undefined") in
      (T - startTime w > maxWait w ->
       timers (fire H id st) !! id = None
       /\ overrideStatus (fire H id st) = Status true true true
       /\ ready (fire H id st) = Fulfilled
       /\ calls (fire H id st) = calls st)
      /\ (T - startTime w <= maxWait w -> defined v = true ->
          timers (fire H id st) !! id = None)
      /\ (T - startTime w <= maxWait w -> v = VUndefined ->
          timers (fire H id st) !! id
          = Some (Timer (PathPoll w obj idx) (Some 20) (d + 20))))
  /\ (forall (obj : value) (p : string) (cb : callback),
        timers st !! id = Some (Timer (PropPoll obj p cb) (Some 10) d) ->
        let v := get (heap st) obj p in
        (defined v = true ->
         timers (fire H id st) !! id = None
         /\ fire H id st = run_callback cb v (clearInterval id (set_now T st)))
        /\ (v = VUndefined ->
            timers (fire H id st) !! id
            = Some (Timer (PropPoll obj p cb) (Some 10) (d + 10))
            /\ calls (fire H id st) = calls st
            /\ overrideStatus (fire H id st) = overrideStatus st
            /\ ready (fire H id st) = ready st))
  /\ (forall s : state, timers s !! id = None -> fire H id s = s).
Proof.
  intros B T. split; [|split].
  - intros w obj idx L v. split; [|split].
    + intros E. rewrite (fire_path_timeout _ _ _ _ _ _ L E).
      destruct (forceComplete_effect
                  (print LvError (timeoutMessage (pathStr w))
                     (clearInterval id (set_now (Z.max (now st) d) st))))
        as (-> & -> & _ & -> & _ & _ & ->).
      simpl. by rewrite lookup_delete_eq.
    + intros E D. by destruct (fire_path_found _ _ _ _ _ _ L B E D).
    + intros E U. rewrite (fire_path_idle _ _ _ _ _ _ L E U). simpl.
      by rewrite lookup_insert_eq.
  - intros obj p cb L v. split.
    + intros D. subst v T. by destruct (fire_prop_found _ _ _ _ _ _ L B D) as [E N].
    + intros U. rewrite (fire_prop_idle _ _ _ _ _ _ L U). simpl.
      by rewrite lookup_insert_eq.
  - intros s N. unfold fire. by rewrite N.
Qed.

End Timers.

(** ** waitForProperty *)

Section PropertyWatcher.

Variable H : host.

Lemma descriptor_defineProperty (h : heapT) (a : nat) (p : string) (d : prop) :
  getOwnPropertyDescriptor (defineProperty h (VRef a) p d) (VRef a) p = Some d.
Proof. unfold getOwnPropertyDescriptor, defineProperty. by rewrite !lookup_insert_eq. Qed.

(** The test [descriptor && (descriptor.get || descriptor.set)] holds of the
    properties that have a getter or a setter, and of no other. *)
Lemma hasAccessor_spec (d : option prop) :
  (hasAccessor d = true <-> exists x, d = Some x /\ accessorProperty x)
  /\ (hasAccessor d = false <-> plainProperty d).
Proof.
  destruct d as [[v|slot [] []|v c]|]; simpl; split; split; try done;
    try (by intros (x & [= <-] & A)); try (by eexists; split); by intros [].
Qed.

(** C7.  [waitForProperty] on a falsy target only prints an error.  On a
    target whose property is defined it calls the callback at once with the
    value.  Otherwise, on a property that has a getter or a setter, it arms
    a 10 ms interval and leaves the object as it is, the accessor included:
    each run of the interval that reads the property undefined is followed
    by another 10 ms later, and the run that reads it defined clears the
    interval and calls the callback with the value read.  On a property
    without getter and setter it installs its own accessor on the object,
    such that the first assignment calls the callback with the assigned
    value and turns the property into a plain value, and later assignments
    are plain writes that call nothing. *)
Theorem waitForProperty_contract (obj : value) (p : string) (cb : callback) (st : state) :
  (truthy obj = false ->
   waitForProperty obj p cb st
   = print LvError ["[common.js] waitForProperty: obj is undefined for prop:"; p] st)
  /\ (truthy obj = true -> defined (get (heap st) obj p) = true ->
      waitForProperty obj p cb st = run_callback cb (get (heap st) obj p) st)
  /\ (forall d : prop,
        truthy obj = true ->
        getOwnPropertyDescriptor (heap st) obj p = Some d ->
        read d = VUndefined ->
        accessorProperty d ->
        let st1 := waitForProperty obj p cb st in
        let id := nextTimer st in
        heap st1 = heap st
        /\ getOwnPropertyDescriptor (heap st1) obj p = Some d
        /\ calls st1 = calls st
        /\ timers st1
           = <[id := Timer (PropPoll obj p cb) (Some 10) (now st + 10)]> (timers st)
        /\ nextTimer st1 = S id
        /\ forall (s : state) (due : Z),
            timers s !! id = Some (Timer (PropPoll obj p cb) (Some 10) due) ->
            (id < nextTimer s)%nat ->
            (get (heap s) obj p = VUndefined ->
             fire H id s
             = set_timers (<[id := Timer (PropPoll obj p cb) (Some 10) (due + 10)]> (timers s))
                          (nextTimer s) (set_now (Z.max (now s) due) s))
            /\ (defined (get (heap s) obj p) = true ->
                fire H id s
                = run_callback cb (get (heap s) obj p)
                    (clearInterval id (set_now (Z.max (now s) due) s))
                /\ timers (fire H id s) !! id = None))
  /\ (forall a : nat,
        obj = VRef a -> get (heap st) obj p = VUndefined ->
        plainProperty (getOwnPropertyDescriptor (heap st) obj p) ->
        let st1 := waitForProperty obj p cb st in
        calls st1 = calls st
        /\ timers st1 = timers st
        /\ getOwnPropertyDescriptor (heap st1) obj p = Some (Intercept VUndefined cb)
        /\ forall v : value,
            let st2 := assign obj p v st1 in
            st2 = run_callback cb v
                    (set_heap (defineProperty (heap st1) obj p (Data v)) st1)
            /\ (forall n : nat, cb = CbUser n -> calls st2 = (calls st ++ [Invoke n v])%list)
            /\ getOwnPropertyDescriptor (heap st2) obj p = Some (Data v)
            /\ forall v' : value,
                let st3 := assign obj p v' st2 in
                st3 = set_heap (defineProperty (heap st2) obj p (Data v')) st2
                /\ calls st3 = calls st2
                /\ get (heap st3) obj p = v').
Proof.
  split; [|split; [|split]].
  - intros T. unfold waitForProperty. by rewrite T.
  - intros T D. unfold waitForProperty. by rewrite T, D.
  - intros d T D U A st1 id. subst st1 id.
    assert (G : get (heap st) obj p = VUndefined) by (unfold get; by rewrite D).
    assert (Ha : hasAccessor (getOwnPropertyDescriptor (heap st) obj p) = true)
      by (apply hasAccessor_spec; by exists d).
    assert (W : waitForProperty obj p cb st = snd (setInterval (PropPoll obj p cb) 10 st))
      by (unfold waitForProperty; by rewrite T, G, Ha).
    rewrite W. cbn [snd setInterval heap set_timers calls timers nextTimer].
    do 5 (split; [done|]). intros s due L B. split.
    + intros V. by apply fire_prop_idle.
    + intros V. by apply fire_prop_found.
  - intros a -> U A. cbv zeta.
    assert (Ha : hasAccessor (getOwnPropertyDescriptor (heap st) (VRef a) p) = false)
      by (by apply hasAccessor_spec).
    assert (W : waitForProperty (VRef a) p cb st
                = set_heap (defineProperty (heap st) (VRef a) p
                              (Intercept VUndefined cb)) st)
      by (unfold waitForProperty; by rewrite U, Ha).
    rewrite W. set (s1 := set_heap _ st).
    assert (D1 : getOwnPropertyDescriptor (heap s1) (VRef a) p
                 = Some (Intercept VUndefined cb))
      by apply descriptor_defineProperty.
    split; [done|]. split; [done|]. split; [exact D1|].
    intros v.
    assert (A1 : assign (VRef a) p v s1
                 = run_callback cb v
                     (set_heap (defineProperty (heap s1) (VRef a) p (Data v)) s1))
      by (unfold assign; by rewrite D1).
    rewrite A1. set (s2 := run_callback cb v _).
    assert (Hh : heap s2 = defineProperty (heap s1) (VRef a) p (Data v))
      by (subst s2; by rewrite (fr_heap _ _ (framed_run_callback _ _ _))).
    assert (D2 : getOwnPropertyDescriptor (heap s2) (VRef a) p = Some (Data v))
      by (rewrite Hh; apply descriptor_defineProperty).
    split; [done|]. split; [by intros n ->|]. split; [exact D2|].
    intros v'.
    assert (A2 : assign (VRef a) p v' s2
                 = set_heap (defineProperty (heap s2) (VRef a) p (Data v')) s2)
      by (unfold assign; by rewrite D2).
    rewrite A2. split; [done|]. split; [done|].
    cbn [heap set_heap]. apply get_defineProperty_eq.
Qed.

End PropertyWatcher.

(** ** The timeout of waitForPath *)

Section PathTimeout.

Variable H : host.

Lemma idleAfter_lookup (id : nat) (b : task) (d : Z) (j : nat) (st : state) :
  timers st !! id = Some (Timer b (Some 20) d) ->
  timers (idleAfter id b 20 d j st) !! id = Some (Timer b (Some 20) (d + 20 * Z.of_nat j)).
Proof.
  intros L. destruct j as [|k]; simpl.
  - rewrite L. do 2 f_equal. lia.
  - by rewrite lookup_insert_eq.
Qed.

Lemma idleAfter_now (id : nat) (b : task) (d : Z) (j : nat) (st : state) :
  now st <= d -> now (idleAfter id b 20 d j st) <= d + 20 * Z.of_nat j.
Proof. intros L. destruct j as [|k]; simpl; lia. Qed.

Lemma iter_idle (id : nat) (w : watch) (obj : value) (idx : nat) (d : Z)
      (st : state) (j : nat) :
  timers st !! id = Some (Timer (PathPoll w obj idx) (Some 20) d) ->
  get (heap st) obj (nth idx (parts w) "undefined") = VUndefined ->
  now st <= d ->
  d + 20 * (Z.of_nat j - 1) - startTime w <= maxWait w ->
  Nat.iter j (fire H id) st = idleAfter id (PathPoll w obj idx) 20 d j st.
Proof.
  intros L U N. induction j as [|k IH]; intros B; [done|].
  rewrite Nat.iter_succ, IH by lia.
  pose proof (idleAfter_lookup id (PathPoll w obj idx) d k st L) as Lk.
  pose proof (idleAfter_now id (PathPoll w obj idx) d k st N) as Nk.
  assert (Hk : heap (idleAfter id (PathPoll w obj idx) 20 d k st) = heap st)
    by (by destruct k).
  rewrite (fire_path_idle H _ _ _ _ _ _ Lk); [| lia | by rewrite Hk].
  rewrite Z.max_r by lia.
  destruct k as [|k]; simpl.
  - do 3 f_equal; lia.
  - unfold set_timers, set_now; simpl. rewrite insert_insert_eq.
    f_equal. do 2 f_equal. lia.
Qed.

(** C4 (amended).  An interval armed by [waitForPath] no later than its
    deadline [startTime + maxWait], whose property stays undefined and which
    runs on time every 20 ms, keeps the barrier untouched up to the
    deadline and takes the timeout branch on its first run after it, at
    most 20 ms late: the interval is cleared, an error naming the path is
    printed, the three flags are set and the promise is fulfilled.  The
    same completion happens at once when [resolve] reaches a falsy value
    (such as [null]) with path segments left; an undefined property does
    not get there, it is the case that is polled. *)
Theorem path_watcher_degrades (id : nat) (w : watch) (obj : value) (idx : nat)
        (d : Z) (st : state) :
  timers st !! id = Some (Timer (PathPoll w obj idx) (Some 20) d) ->
  get (heap st) obj (nth idx (parts w) "undefined") = VUndefined ->
  now st <= d ->
  d <= startTime w + maxWait w + 20 ->
  let deadline := startTime w + maxWait w in
  let n := Z.to_nat ((deadline - d) / 20 + 1) in
  (forall j : nat,
      (j <= n)%nat ->
      let s := Nat.iter j (fire H id) st in
      timers s !! id = Some (Timer (PathPoll w obj idx) (Some 20) (d + 20 * Z.of_nat j))
      /\ overrideStatus s = overrideStatus st
      /\ ready s = ready st
      /\ console s = console st)
  /\ (let st' := Nat.iter (S n) (fire H id) st in
      deadline < now st' <= deadline + 20
      /\ timers st' !! id = None
      /\ console st'
         = (console st ++ [(LvError, timeoutMessage (pathStr w)); allComplete])%list
      /\ overrideStatus st' = Status true true true
      /\ ready st' = Fulfilled)
  /\ (forall (w' : watch) (p : string) (rest : list string) (idx' : nat)
             (v : value) (s : state),
        truthy v = false ->
        let s' := resolve w' (p :: rest) idx' v s in
        overrideStatus s' = Status true true true
        /\ ready s' = Fulfilled
        /\ console s' = (console s ++ [(LvError, failedMessage w' idx'); allComplete])%list
        /\ timers s' = timers s
        /\ now s' = now s)
  /\ (forall (w' : watch) (p : string) (rest : list string) (idx' : nat)
             (v : value) (s : state),
        truthy v = true -> get (heap s) v p = VUndefined ->
        resolve w' (p :: rest) idx' v s
        = snd (setInterval (PathPoll w' v idx') 20 s)).
Proof.
  intros L U N D deadline n.
  assert (Q : 20 * ((deadline - d) / 20) <= deadline - d < 20 * ((deadline - d) / 20) + 20).
  { pose proof (Z.div_mod (deadline - d) 20 ltac:(lia)).
    pose proof (Z.mod_pos_bound (deadline - d) 20 ltac:(lia)). lia. }
  assert (Zn : Z.of_nat n = (deadline - d) / 20 + 1) by (subst n deadline; lia).
  assert (I : forall j : nat, (j <= n)%nat ->
              Nat.iter j (fire H id) st = idleAfter id (PathPoll w obj idx) 20 d j st).
  { intros j J. apply iter_idle; try done. subst deadline. lia. }
  split; [|split; [|split]].
  - intros j J s. subst s. rewrite (I j J).
    split; [by apply idleAfter_lookup|]. by destruct j.
  - rewrite Nat.iter_succ, (I n) by lia.
    pose proof (idleAfter_lookup id (PathPoll w obj idx) d n st L) as Ln.
    pose proof (idleAfter_now id (PathPoll w obj idx) d n st N) as Nn.
    rewrite (fire_path_timeout H _ _ _ _ _ _ Ln) by (subst deadline; lia).
    rewrite Z.max_r by lia. cbv zeta.
    destruct (forceComplete_effect
                (print LvError (timeoutMessage (pathStr w))
                   (clearInterval id
                      (set_now (d + 20 * Z.of_nat n)
                         (idleAfter id (PathPoll w obj idx) 20 d n st)))))
      as (-> & -> & -> & -> & _ & -> & _).
    cbn [now timers console print clearInterval set_timers set_now].
    split; [subst deadline; lia|]. split; [by rewrite lookup_delete_eq|].
    split; [|done]. rewrite <- app_assoc. by destruct n.
  - intros w' p rest idx' v s F. cbv zeta. unfold resolve. cbn [resolveWith].
    rewrite F. cbn [andb].
    destruct (forceComplete_effect (print LvError (failedMessage w' idx') s))
      as (-> & -> & -> & -> & _ & -> & _).
    simpl. by rewrite <- app_assoc.
  - intros w' p rest idx' v s T V. unfold resolve. cbn [resolveWith].
    by rewrite T, V.
Qed.

End PathTimeout.

(** ** The properties at sample inputs *)

Section Samples.

Lemma document_load_runs_at_most_once_sample :
  (executions
     (run sampleHost (loadScript sampleHost editorPage 0)
          [CallDocumentEndLoad "/docs/a.xlsx" "" 0;
           CallDocumentEndLoad "/docs/a.xlsx" "" 0]) <= 1)%nat.
Proof.
  exact (proj1 (document_load_runs_at_most_once sampleHost editorPage 0
                  [CallDocumentEndLoad "/docs/a.xlsx" "" 0;
                   CallDocumentEndLoad "/docs/a.xlsx" "" 0])).
Defined.

Lemma base_url_of_schemeless_locator_sample :
  documentUrl (documentEndLoadBody sampleHost "docs/report.xlsx" "" 0 (fresh loadedPage 0))
  = VStr "file:///docs/report.xlsx".
Proof.
  apply (base_url_of_schemeless_locator sampleHost "docs/report.xlsx" "" 0
           (fresh loadedPage 0)); reflexivity.
Defined.

(** C3, at the failing input.  On the loaded page, with no override base
    URL, the steps run for the locator of the specification's example
    without an exception, and the base URL they store is the locator itself:
    it starts with a letter and a colon, which the pattern
    [^[a-zA-Z][a-zA-Z0-9+.-]*:] takes for a scheme, so neither the slash nor
    the file scheme is put in front.  A locator that differs only in having
    no drive letter gets both. *)
Theorem drive_letter_locator_is_left_alone :
  let st := documentEndLoadBody sampleHost "C:\docs\report.xlsx" "" 0 (fresh loadedPage 0) in
  sdkObjects loadedPage = true
  /\ truthy (get loadedPage window "_ONLYOFFICE_DOC_BASE_URL") = false
  /\ hasScheme "C:\docs\report.xlsx" = true
  /\ resolveDocumentUrl (get loadedPage window "_ONLYOFFICE_DOC_BASE_URL")
                        "C:\docs\report.xlsx"
     = Some "C:\docs\report.xlsx"
  /\ documentUrl st = VStr "C:\docs\report.xlsx"
  /\ uncaught st = []
  /\ JsString.startsWith "file://" "C:\docs\report.xlsx" = false
  /\ resolveDocumentUrl (get loadedPage window "_ONLYOFFICE_DOC_BASE_URL")
                        "\docs\report.xlsx"
     = Some "file:///\docs\report.xlsx".
Proof. vm_compute. repeat split. Qed.

Lemma path_watcher_degrades_sample :
  ready (Nat.iter 501 (fire sampleHost 0) watchingEmptyPage) = Fulfilled
  /\ now (Nat.iter 501 (fire sampleHost 0) watchingEmptyPage) = 10020.
Proof.
  pose proof (path_watcher_degrades sampleHost 0
                (Watch "AscCommon.baseEditorsApi" ["AscCommon"; "baseEditorsApi"]
                       CbBaseEditorsApi 0 10000)
                window 0 20 watchingEmptyPage) as T.
  cbv zeta in T.
  destruct T as (_ & (Hn & _ & _ & _ & Hr) & _); try reflexivity.
  - change (now watchingEmptyPage) with 0. lia.
  - simpl. lia.
  - split; [exact Hr|]. vm_compute. reflexivity.
Defined.

(** C4, counterexample.  With [window.AscCommon] undefined the watcher does
    not complete the barrier at once: it prints no failure, leaves the
    flags and the promise alone and arms its interval. *)
Lemma undefined_intermediate_is_polled :
  get emptyPage window "AscCommon" = VUndefined
  /\ overrideStatus watchingEmptyPage = Status false false false
  /\ ready watchingEmptyPage = Pending
  /\ console watchingEmptyPage
     = [(LvLog, ["[common.js] waitForPath starting:"; "AscCommon.baseEditorsApi"])]
  /\ timers watchingEmptyPage !! 0%nat
     = Some (Timer (PathPoll (Watch "AscCommon.baseEditorsApi"
                                    ["AscCommon"; "baseEditorsApi"]
                                    CbBaseEditorsApi 0 10000) window 0)
                   (Some 20) 20).
Proof. repeat split. Qed.


Lemma minified_sdk_completes_at_once_sample :
  ready (initReadiness (declareGlobals (fresh minifiedPage 0))) = Fulfilled
  /\ timers (initReadiness (declareGlobals (fresh minifiedPage 0))) = ∅.
Proof.
  pose proof (minified_sdk_completes_at_once sampleHost minifiedPage 0 eq_refl) as T.
  cbv zeta in T. destruct T as (_ & Hr & _ & _ & Ht & _). by split.
Defined.

(** On the plain property two assignments call the callback once, with the
    first value.  On the accessor of another party the accessor stays and
    the interval is armed; once the other party has stored a value, the next
    run of the interval calls the callback with it and clears the
    interval. *)
Lemma waitForProperty_contract_sample :
  calls (assign window "x" (VNum 5)
           (assign window "x" (VNum 1)
              (waitForProperty window "x" (CbUser 7) (fresh emptyPage 0))))
  = [Invoke 7 (VNum 1)]
  /\ getOwnPropertyDescriptor (heap watchingAccessor) window "x"
     = Some (Accessor VUndefined true true)
  /\ timers watchingAccessor !! 0%nat
     = Some (Timer (PropPoll window "x" (CbUser 0)) (Some 10) 10)
  /\ calls (fire sampleHost 0 (assign window "x" (VNum 3) watchingAccessor))
     = [Invoke 0 (VNum 3)]
  /\ timers (fire sampleHost 0 (assign window "x" (VNum 3) watchingAccessor)) !! 0%nat
     = None.
Proof.
  split.
  - pose proof (waitForProperty_contract sampleHost window "x" (CbUser 7)
                  (fresh emptyPage 0)) as T.
    destruct T as (_ & _ & _ & T).
    specialize (T 0%nat eq_refl eq_refl I). cbv zeta in T.
    destruct T as (_ & _ & _ & T). specialize (T (VNum 1)).
    destruct T as (_ & Hc & _ & T). specialize (T (VNum 5)).
    destruct T as (_ & Hs & _). rewrite Hs. exact (Hc 7%nat eq_refl).
  - pose proof (waitForProperty_contract sampleHost window "x" (CbUser 0)
                  (fresh accessorPage 0)) as T.
    destruct T as (_ & _ & T & _).
    specialize (T (Accessor VUndefined true true) eq_refl eq_refl eq_refl eq_refl).
    cbv zeta in T. destruct T as (_ & Hd & _ & Ht & _ & T).
    split; [exact Hd|]. split; [unfold watchingAccessor; by rewrite Ht|].
    specialize (T (assign window "x" (VNum 3) watchingAccessor) 10 eq_refl).
    destruct T as [_ T]; [vm_compute; lia|].
    destruct (T eq_refl) as [Hf Hn].
    split; [exact (eq_trans (f_equal calls Hf) eq_refl)|exact Hn].
Defined.

(** On the page that has [Asc.editor] and nothing else the steps print their
    first line and end with a [ReferenceError]: no base URL is stored, no
    event is sent. *)
Lemma steps_on_the_page_without_AscCommon :
  let st := documentEndLoadBody sampleHost "/docs/a.xlsx" "" 0 (fresh editorPage 0) in
  uncaught st = [ReferenceError]
  /\ console st = [(LvLog, [executingMessage])]
  /\ calls st = []
  /\ documentUrl st = VUndefined.
Proof. vm_compute. repeat split. Qed.

(** On the loaded page with [null] for [AscFonts.CFontFileLoader] the font
    routine throws at its first write: the script ends there with the
    promise pending, one flag set, no timer, and no entry point defined;
    its two variables are declared and hold nothing. *)
Lemma null_constructor_ends_the_script :
  let st := loadScript sampleHost brokenPage 0 in
  uncaught st = [TypeError]
  /\ overrideStatus st = Status true false false
  /\ ready st = Pending
  /\ timers st = ∅
  /\ calls st = [ApplyOverrides "baseEditorsApi" (VRef 5)]
  /\ get (heap st) window "DesktopOfflineAppDocumentEndLoad" = VUndefined
  /\ getOwnPropertyDescriptor (heap st) window "_isMinifiedSdk" = Some (Data VUndefined)
  /\ getOwnPropertyDescriptor (heap st) window "_documentLoadStarted"
     = Some (Data VUndefined)
  /\ run sampleHost st [CallDocumentEndLoad "/docs/a.xlsx" "" 0] = st.
Proof. vm_compute. repeat split. Qed.

(** C8, at a failing input.  For the source path [C:\docs/report.xlsx] the
    follow-up assigns the title [docs/report.xlsx] and hands it to the host
    bridge, where the part after the last separator is [report.xlsx]: with
    both separators in the path the smaller of the two last positions is
    taken. *)
Lemma display_title_of_mixed_separators :
  localName "C:\docs/report.xlsx" = "docs/report.xlsx"
  /\ afterLastSeparator "C:\docs/report.xlsx" = "report.xlsx"
  /\ calls (DesktopOfflineUpdateLocalName mixedHost (fresh editorPage 0))
     = [LocalFileGetSourcePath; AssignDocumentTitle "docs/report.xlsx";
        SetDocumentName "docs/report.xlsx"].
Proof. repeat split. Qed.

Lemma display_title_of_one_separator_kind_sample :
  localName "/home/user/report.xlsx" = "report.xlsx".
Proof.
  apply (display_title_of_one_separator_kind sampleHost (fresh editorPage 0));
    [left|]; reflexivity.
Defined.

Lemma polls_clear_their_interval_sample :
  timers (fire sampleHost 0 watchingAccessor) !! 0%nat
  = Some (Timer (PropPoll window "x" (CbUser 0)) (Some 10) 20).
Proof.
  pose proof (polls_clear_their_interval sampleHost 0 10 watchingAccessor) as T.
  cbv zeta in T. destruct T as (_ & T & _); [vm_compute; lia|].
  specialize (T window "x" (CbUser 0) eq_refl).
  destruct T as (_ & T). by destruct (T eq_refl) as (Ht & _).
Defined.

(** C9, counterexample.  The interval of [waitForProperty] has run 1500
    times, 15 seconds have passed, the property still reads undefined: the
    interval is still armed, nothing was called, the barrier is as it was. *)
Lemma property_poll_has_no_deadline :
  now (Nat.iter 1500 (fire sampleHost 0) watchingAccessor) = 15000
  /\ timers (Nat.iter 1500 (fire sampleHost 0) watchingAccessor) !! 0%nat
     = Some (Timer (PropPoll window "x" (CbUser 0)) (Some 10) 15010)
  /\ calls (Nat.iter 1500 (fire sampleHost 0) watchingAccessor) = []
  /\ overrideStatus (Nat.iter 1500 (fire sampleHost 0) watchingAccessor)
     = Status false false false
  /\ ready (Nat.iter 1500 (fire sampleHost 0) watchingAccessor) = Pending.
Proof. vm_compute. repeat split. Qed.

End Samples.

(* ===================================================================== *)
(** * Further properties of the readiness system *)
(* ===================================================================== *)

(** ** Properties kept by every task *)

Section Closure.

Variable H : host.
Variable P : state -> Prop.

Hypothesis P_print : forall lv args st, isExecuting (lv, args) = false -> P st -> P (print lv args st).
Hypothesis P_emit : forall c st, P st -> P (emit c st).
Hypothesis P_heap : forall h st, P st -> P (set_heap h st).
Hypothesis P_raise : forall e st, P st -> P (raise e st).
Hypothesis P_timers : forall ts n st, P st -> P (set_timers ts n st).
Hypothesis P_now : forall t st, P st -> P (set_now t st).
Hypothesis P_started : forall st, P st -> P (set_started false st).
Hypothesis P_complete : forall s st, P st -> P (complete s st).
Hypothesis P_force : forall st, P st -> P (forceComplete st).
Hypothesis P_then : forall r st, isLoadBody r = false -> P st -> P (thenReady r st).
Hypothesis P_entry : forall u d l st, P st -> P (DesktopOfflineAppDocumentEndLoad u d l st).
Hypothesis P_drain : forall st, P st -> P (drain H st).

Lemma kept_patch (name : string) (x : value) (k : state -> state) (st : state) :
  (forall s, P s -> P (k s)) -> P st -> P (patch name x k st).
Proof. intros K I. unfold patch. destruct (patchable _ _); auto. Qed.

Lemma kept_patchIfThere (name : string) (k : state -> state) (st : state) :
  (forall s, P s -> P (k s)) -> P st -> P (patchIfThere name k st).
Proof.
  intros K I. unfold patchIfThere. cbv zeta. destruct (_ && _); [by apply kept_patch|auto].
Qed.

Lemma kept_assignCommon (k : state -> state) (st : state) :
  (forall s, P s -> P (k s)) -> P st -> P (assignCommon k st).
Proof.
  intros K I. unfold assignCommon. destruct (identifier _ _) as [c|e]; [|auto].
  destruct (isObject c); auto.
Qed.

Lemma kept_leaf (cb : callback) (v : value) (st : state) : P st -> P (leaf cb v st).
Proof.
  intros I. destruct cb; cbn [leaf]; auto;
    repeat first [ apply kept_patch; [intros ? ?|]
                 | apply kept_assignCommon; [intros ? ?|]
                 | apply kept_patchIfThere; [intros ? ?|]
                 | by apply P_complete
                 | by apply P_print
                 | assumption ].
Qed.

Lemma kept_resolveWith (run : callback -> value -> state -> state)
      (w : watch) (rest : list string) (idx : nat) (obj : value) (st : state) :
  (forall cb v s, P s -> P (run cb v s)) ->
  P st -> P (resolveWith run w rest idx obj st).
Proof.
  intros R I. revert idx obj. induction rest as [|p rest IH]; intros idx obj; simpl.
  - by apply R.
  - destruct (truthy obj && defined (get (heap st) obj p)); [apply IH|].
    destruct (truthy obj); [by apply P_timers|].
    apply P_force, P_print; auto.
Qed.

Lemma kept_run_callback (cb : callback) (v : value) (st : state) :
  P st -> P (run_callback cb v st).
Proof.
  intros I. destruct cb; try by apply kept_leaf.
  unfold run_callback, waitForPathWith.
  apply kept_resolveWith; [intros; by apply kept_leaf|]. by apply P_print.
Qed.

Lemma kept_resolve (w : watch) (rest : list string) (idx : nat) (obj : value) (st : state) :
  P st -> P (resolve w rest idx obj st).
Proof. intros I. apply kept_resolveWith; [intros; by apply kept_run_callback|done]. Qed.

Lemma kept_waitForPath (path : string) (cb : callback) (m : option Z) (st : state) :
  P st -> P (waitForPath path cb m st).
Proof.
  intros I. unfold waitForPath, waitForPathWith.
  apply kept_resolveWith; [intros; by apply kept_run_callback|]. by apply P_print.
Qed.

Lemma kept_run_task (id : nat) (t : task) (st : state) : P st -> P (run_task H id t st).
Proof.
  intros I. destruct t as [w obj idx|obj p cb| |n]; simpl.
  - unfold pathPoll. destruct (now st - startTime w >? maxWait w).
    + apply P_force, P_print; [done|]. by apply P_timers.
    + destruct (defined _); [|done]. apply kept_resolve. by apply P_timers.
  - unfold propPoll. destruct (defined _); [|done].
    apply kept_run_callback. by apply P_timers.
  - unfold DesktopOfflineUpdateLocalName. apply P_emit. unfold setTimeout.
    by apply P_timers, P_emit, P_emit.
  - by apply P_emit.
Qed.

Lemma kept_fire (id : nat) (st : state) : P st -> P (fire H id st).
Proof.
  intros I. unfold fire. destruct (timers st !! id) as [t|]; [|done].
  destruct (period t) as [p|].
  - destruct (timers _ !! id); [apply P_timers|]; by apply kept_run_task, P_now.
  - apply kept_run_task. unfold clearInterval. by apply P_timers, P_now.
Qed.

Lemma kept_assign (obj : value) (p : string) (v : value) (st : state) :
  P st -> P (assign obj p v st).
Proof.
  intros I. unfold assign. destruct (getOwnPropertyDescriptor _ _ _) as [[| |]|].
  - by apply P_heap.
  - destruct hasSet; [by apply P_heap|done].
  - by apply kept_run_callback, P_heap.
  - by apply P_heap.
Qed.

Lemma kept_handle (e : event) (st : state) : P st -> P (handle H e st).
Proof.
  intros I. destruct e as [u d l|id|obj p v|dt]; simpl.
  - pose proof (P_entry u d l st I) as E.
    repeat match goal with
           | |- context [match ?x with _ => _ end] => destruct x; try done
           end.
  - by apply kept_fire.
  - by apply kept_assign.
  - by apply P_now.
Qed.

Lemma kept_run (es : list event) (st : state) : P st -> P (run H st es).
Proof.
  revert st. induction es as [|e es IH]; intros st I; [done|].
  simpl. apply IH. unfold step. by apply P_drain, kept_handle.
Qed.

Lemma kept_stores (names : list string) (st : state) :
  P st -> P (fold_left (fun s name => store window name (VFun name) s) names st).
Proof.
  revert st. induction names as [|n names IH]; intros st I; [done|].
  simpl. apply IH. unfold store. by apply P_heap.
Qed.

Lemma kept_setupEncryption (st : state) : P st -> P (setupEncryption st).
Proof.
  intros I. unfold setupEncryption. cbv zeta.
  destruct (negb _); [done|]. by apply kept_patch.
Qed.

Lemma kept_initReadiness (st : state) : P st -> P (initReadiness st).
Proof.
  intros I. unfold initReadiness. cbv zeta.
  assert (I0 : P (store window "_commonJsReady" VPromise st))
    by (unfold store; by apply P_heap).
  destruct (isMinifiedSdk _); cbn [negb].
  - rewrite !threw_refl. apply P_force, P_print; done.
  - destruct (threw _ _); [by apply kept_waitForPath|].
    destruct (threw _ _); by repeat apply kept_waitForPath.
Qed.

Lemma kept_defineEntryPoints (st : state) : P st -> P (defineEntryPoints st).
Proof.
  intros I. unfold defineEntryPoints. cbv zeta.
  destruct (isMinifiedSdk _); [unfold store; by apply P_heap|].
  set (st2 := fold_left _ entryPoints _).
  assert (I2 : P st2)
    by (subst st2; apply kept_stores; unfold store; apply P_heap, P_started;
        by apply P_heap).
  pose proof (kept_setupEncryption st2 I2) as I3.
  destruct (threw _ _); [done|].
  unfold exportGetBinaryArray.
  set (st4 := if truthy _ then _ else _).
  assert (I4 : P st4) by (subst st4; destruct (truthy _); [by apply P_then|done]).
  destruct (identifier _ _) as [c|e]; [|by apply P_raise].
  destruct (isObject c); [unfold store; by apply P_heap|by apply P_raise].
Qed.

Lemma kept_loadScript (h : heapT) (t : Z) : P (fresh h t) -> P (loadScript H h t).
Proof.
  intros I. unfold loadScript. cbv zeta. apply P_drain.
  assert (I1 : P (initReadiness (declareGlobals (fresh h t))))
    by (apply kept_initReadiness; unfold declareGlobals; by apply P_heap).
  destruct (threw _ _); [done|]. by apply kept_defineEntryPoints.
Qed.

End Closure.

(** ** The barrier in every reachable state *)

Section Reachable.

Variable H : host.

Lemma barrier_run_reaction (r : reaction) (st : state) :
  ready (run_reaction H r st) = ready st
  /\ overrideStatus (run_reaction H r st) = overrideStatus st.
Proof.
  destruct r as [u d l| |n]; simpl; [| |done].
  - by destruct (view_documentEndLoadBody H u d l st) as (_ & _ & _ & _ & -> & -> & _).
  - by destruct (view_setupEncryption st) as (_ & _ & _ & _ & -> & -> & _).
Qed.

Lemma barrier_run_reactions (l : list reaction) (st : state) :
  ready (fold_left (fun s r => run_reaction H r s) l st) = ready st
  /\ overrideStatus (fold_left (fun s r => run_reaction H r s) l st) = overrideStatus st.
Proof.
  revert st. induction l as [|r l IH]; intros st; [done|].
  simpl. destruct (IH (run_reaction H r st)) as [-> ->]. apply barrier_run_reaction.
Qed.

Lemma barrier_drain (st : state) :
  ready (drain H st) = ready st /\ overrideStatus (drain H st) = overrideStatus st.
Proof.
  unfold drain.
  by destruct (barrier_run_reactions (microtasks st)
                 (set_promise (ready st) (reactions st) [] st)) as [-> ->].
Qed.

Lemma barrier_entry (u d : string) (l : Z) (st : state) :
  ready (DesktopOfflineAppDocumentEndLoad u d l st) = ready st
  /\ overrideStatus (DesktopOfflineAppDocumentEndLoad u d l st) = overrideStatus st.
Proof.
  unfold DesktopOfflineAppDocumentEndLoad. destruct (documentLoadStarted st); [done|].
  unfold thenReady. cbn [ready set_started store set_heap]. by destruct (ready st).
Qed.

Lemma barrier_thenReady (r : reaction) (st : state) :
  ready (thenReady r st) = ready st
  /\ overrideStatus (thenReady r st) = overrideStatus st
  /\ (ready st = Pending -> microtasks (thenReady r st) = microtasks st)
  /\ executions (thenReady r st) = executions st.
Proof. unfold thenReady. by destruct (ready st). Qed.

Lemma latched_forceComplete (st : state) : latched (forceComplete st).
Proof.
  destruct (forceComplete_effect st) as (F & R & _). unfold latched. by rewrite F, R.
Qed.

Lemma latched_run (h : heapT) (t : Z) (es : list event) :
  latched (run H (loadScript H h t) es).
Proof.
  apply kept_run; try (intros; assumption).
  - by intros; apply latched_complete.
  - intros; apply latched_forceComplete.
  - intros u d l st I. unfold latched. by destruct (barrier_entry u d l st) as [-> ->].
  - intros st I. unfold latched. by destruct (barrier_drain st) as [-> ->].
  - apply kept_loadScript; try (intros; assumption).
    + by intros; apply latched_complete.
    + intros; apply latched_forceComplete.
    + intros r st _ I. unfold latched.
      by destruct (barrier_thenReady r st) as (-> & -> & _).
    + intros st I. unfold latched. by destruct (barrier_drain st) as [-> ->].
    + apply latched_fresh.
Qed.

(** X1.  In every state a page can reach after the script has loaded,
    whatever the order of entry-point calls, timer runs, property assignments
    and delays, the promise [_commonJsReady] is fulfilled exactly when the
    three flags of [overrideStatus] are all set. *)
Theorem promise_fulfilled_iff_all_flags (h : heapT) (t : Z) (es : list event) :
  ready (run H (loadScript H h t) es) = Fulfilled
  <-> allReady (overrideStatus (run H (loadScript H h t) es)) = true.
Proof. apply latched_run. Qed.

Lemma flag_mark_mono (x s : subsystem) (f : status) :
  flag x f = true -> flag x (mark s f) = true.
Proof. destruct f, x, s; simpl; auto. Qed.

Lemma flag_kept (x : subsystem) (st : state) (es : list event) :
  flag x (overrideStatus st) = true -> flag x (overrideStatus (run H st es)) = true.
Proof.
  apply (kept_run H (fun s => flag x (overrideStatus s) = true));
    try (intros; assumption).
  - intros s s0 I. rewrite status_complete. by apply flag_mark_mono.
  - intros s0 _. destruct (forceComplete_effect s0) as (-> & _). by destruct x.
  - intros u d l s0 I. by destruct (barrier_entry u d l s0) as [_ ->].
  - intros s0 I. by destruct (barrier_drain s0) as [_ ->].
Qed.

Lemma fulfilled_kept (st : state) (es : list event) :
  ready st = Fulfilled -> ready (run H st es) = Fulfilled.
Proof.
  apply (kept_run H (fun s => ready s = Fulfilled)); try (intros; assumption).
  - intros s s0 I. rewrite ready_complete, I. by destruct (allReady _).
  - intros s0 _. by destruct (forceComplete_effect s0) as (_ & -> & _).
  - intros u d l s0 I. by destruct (barrier_entry u d l s0) as [-> _].
  - intros s0 I. by destruct (barrier_drain s0) as [-> _].
Qed.

(** X2.  The barrier is a one-way latch: from any state, no sequence of
    entry-point calls, timer runs, property assignments and delays clears a
    flag that is set or turns the fulfilled promise back. *)
Theorem barrier_never_goes_back (st : state) (es : list event) :
  (forall x : subsystem,
      flag x (overrideStatus st) = true -> flag x (overrideStatus (run H st es)) = true)
  /\ (ready st = Fulfilled -> ready (run H st es) = Fulfilled).
Proof. split; [intros x; apply flag_kept|apply fulfilled_kept]. Qed.

Lemma notBeforeReady_complete (s : subsystem) (st : state) :
  notBeforeReady st -> notBeforeReady (complete s st).
Proof.
  intros I R. rewrite ready_complete in R.
  destruct (allReady (mark s (overrideStatus st))) eqn:E; [discriminate|].
  specialize (I R). unfold complete, checkAllReady. cbn [overrideStatus print set_status].
  rewrite E, executions_print.
  assert (isExecuting (LvLog, [completeMessage s]) = false) as -> by by destruct s.
  cbn [microtasks print set_status].
  change (executions (set_status _ st)) with (executions st). destruct I. split; [lia|done].
Qed.

Lemma notBeforeReady_drain (st : state) : notBeforeReady st -> notBeforeReady (drain H st).
Proof.
  intros I R. destruct (barrier_drain st) as [Rd _]. rewrite Rd in R.
  destruct (I R) as [E M]. unfold drain.
  destruct (run_reactions_view H (microtasks st)
              (set_promise (ready st) (reactions st) [] st)) as (_ & _ & -> & ->).
  rewrite M. cbn [microtasks set_promise]. split; [|done].
  change (executions (set_promise _ _ _ st)) with (executions st). simpl. lia.
Qed.

Lemma notBeforeReady_entry (u d : string) (l : Z) (st : state) :
  notBeforeReady st -> notBeforeReady (DesktopOfflineAppDocumentEndLoad u d l st).
Proof.
  intros I R. destruct (barrier_entry u d l st) as [Rd _]. rewrite Rd in R.
  destruct (I R) as [E M]. unfold DesktopOfflineAppDocumentEndLoad.
  destruct (documentLoadStarted st).
  - rewrite executions_print. cbn [microtasks print]. simpl. split; [lia|done].
  - unfold thenReady. cbn [ready set_started store set_heap]. rewrite R. by split.
Qed.

Lemma notBeforeReady_run (h : heapT) (t : Z) (es : list event) :
  notBeforeReady (run H (loadScript H h t) es).
Proof.
  assert (Pp : forall lv args st, isExecuting (lv, args) = false ->
                 notBeforeReady st -> notBeforeReady (print lv args st)).
  { intros lv args st E I R. destruct (I R) as [X M].
    rewrite executions_print, E. split; [lia|done]. }
  assert (Pf : forall st, notBeforeReady st -> notBeforeReady (forceComplete st)).
  { intros st _ R. destruct (forceComplete_effect st) as (_ & F & _). congruence. }
  assert (Pt : forall r st, isLoadBody r = false ->
                 notBeforeReady st -> notBeforeReady (thenReady r st)).
  { intros r st _ I R. destruct (barrier_thenReady r st) as (Rd & _ & M & X).
    rewrite Rd in R. rewrite X, (M R). by apply I. }
  apply kept_run; try (intros; assumption); auto using notBeforeReady_complete,
    notBeforeReady_drain, notBeforeReady_entry.
  apply kept_loadScript; try (intros; assumption); auto using notBeforeReady_complete,
    notBeforeReady_drain.
  by intros _.
Qed.

(** X3.  The [Resolving] steps never start before the barrier: in every
    state a page can reach after the script has loaded, if the steps have
    started then [_commonJsReady] is fulfilled and the three flags are set. *)
Theorem resolving_only_after_ready (h : heapT) (t : Z) (es : list event) :
  (0 < executions (run H (loadScript H h t) es))%nat ->
  ready (run H (loadScript H h t) es) = Fulfilled
  /\ overrideStatus (run H (loadScript H h t) es) = Status true true true.
Proof.
  intros E.
  assert (R : ready (run H (loadScript H h t) es) = Fulfilled).
  { destruct (ready (run H (loadScript H h t) es)) eqn:R; [|done].
    destruct (notBeforeReady_run h t es R). lia. }
  split; [exact R|]. apply latched_run in R. unfold allReady in R.
  destruct (overrideStatus _) as [[] [] []]; done.
Qed.

End Reachable.

(** ** What waitForPath does with a path *)

Section PathOutcome.

Lemma resolve_present (w : watch) (rest : list string) (idx : nat) (obj : value)
      (st : state) :
  resolvable (heap st) obj rest = true ->
  resolve w rest idx obj st = run_callback (onFound w) (pathValue (heap st) obj rest) st.
Proof.
  revert idx obj. induction rest as [|p rest IH]; intros idx obj R; [done|].
  simpl in R. apply andb_prop in R as [R1 R2].
  unfold resolve in *. cbn [resolveWith pathValue]. rewrite R1. by apply IH.
Qed.

(** X4.  [resolve] walks the segments that are there without waiting.  If
    all of them are there it calls the callback at once with the value of
    the path.  If the walk stops after [k] segments at a truthy object whose
    next property is undefined, it arms one 20 ms interval on that object
    and index and does nothing else; if it stops at a falsy value it prints
    the failure and completes the barrier. *)
Theorem resolve_outcome (w : watch) (rest : list string) (idx : nat) (obj : value)
        (st : state) :
  (resolvable (heap st) obj rest = true ->
   resolve w rest idx obj st
   = run_callback (onFound w) (pathValue (heap st) obj rest) st)
  /\ (forall (k : nat) (p : string),
        rest !! k = Some p ->
        resolvable (heap st) obj (take k rest) = true ->
        let o := pathValue (heap st) obj (take k rest) in
        (truthy o = true -> get (heap st) o p = VUndefined ->
         resolve w rest idx obj st = snd (setInterval (PathPoll w o (idx + k)) 20 st))
        /\ (truthy o = false ->
            resolve w rest idx obj st
            = forceComplete (print LvError (failedMessage w (idx + k)) st))).
Proof.
  split; [apply resolve_present|].
  revert idx obj. induction rest as [|q rest IH]; intros idx obj k p L R; [done|].
  destruct k as [|k].
  - simpl in L. injection L as ->. simpl. rewrite Nat.add_0_r. unfold resolve.
    cbn [resolveWith]. split.
    + intros T U. by rewrite T, U.
    + intros T. by rewrite T.
  - simpl in L. cbn [take resolvable] in R. apply andb_prop in R as [R1 R2].
    cbn [take pathValue]. unfold resolve in *. cbn [resolveWith]. rewrite R1.
    replace (idx + S k)%nat with (S idx + k)%nat by lia.
    by apply IH.
Qed.




End PathOutcome.

(** ** Loading the script on a page of the unminified SDK *)

Section UnminifiedLoad.

Variable H : host.

Lemma agree_path (h h' : heapT) (segs : list string) (obj : value) :
  agree h h' ->
  Forall (fun p => p <> "_commonJsReady") segs ->
  resolvable h' obj segs = resolvable h obj segs
  /\ pathValue h' obj segs = pathValue h obj segs.
Proof.
  intros A F. revert obj. induction F as [|p segs N F IH]; intros obj; [done|].
  simpl. rewrite (A obj p N). destruct (IH (get h obj p)) as [-> ->]. done.
Qed.

Lemma agree_patchable (h h' : heapT) (v : value) :
  agree h h' -> patchable h' v = patchable h v.
Proof. intros A. unfold patchable. by rewrite A. Qed.

Lemma agree_loaded (h : heapT) :
  agree h (defineProperty (hoisted h) window "_commonJsReady" (Data VPromise)).
Proof. intros o p N. by rewrite get_defineProperty_ne, get_hoisted. Qed.

Lemma uncaught_emits (l : list call) (st : state) :
  uncaught (fold_left (fun s c => emit c s) l st) = uncaught st
  /\ calls (fold_left (fun s c => emit c s) l st) = (calls st ++ l)%list
  /\ heap (fold_left (fun s c => emit c s) l st) = heap st.
Proof.
  revert st. induction l as [|c l IH]; intros st; simpl.
  - by rewrite app_nil_r.
  - destruct (IH (emit c st)) as (-> & -> & ->). simpl. by rewrite <- app_assoc.
Qed.

Lemma holdsConstructor_at (h : heapT) (segs : list string) :
  constructorsOnly h = true -> In segs patchedNames -> holdsConstructor h segs = true.
Proof.
  unfold constructorsOnly. rewrite forallb_forall. intros F I. by apply F.
Qed.

(** What is there under an optional name, if truthy, is a constructor. *)
Lemma optional_patchable (h h' : heapT) (name : string) :
  agree h h' ->
  holdsConstructor h ["Asc"; name] = true ->
  name <> "_commonJsReady" ->
  truthy (get h' (get h' window "Asc") name) = true ->
  patchable h' (get h' (get h' window "Asc") name) = true.
Proof.
  intros A C N T. rewrite (agree_patchable h h') by done.
  rewrite !A in * by done. unfold holdsConstructor in C. cbn [resolvable pathValue] in C.
  assert (D : defined (get h (get h window "Asc") name) = true)
    by (by destruct (get h (get h window "Asc") name)).
  pose proof (get_of_ref _ _ _ D) as R. rewrite D in C.
  destruct (get h window "Asc") eqn:E; try done.
Qed.

(** A watch for one of the first two constructors does not throw where the
    page holds constructors only. *)
Lemma clean_watch_plain (h : heapT) (st : state) (path : string) (cb : callback) :
  agree h (heap st) ->
  holdsConstructor h (JsString.split "." path) = true ->
  Forall (fun p => p <> "_commonJsReady") (JsString.split "." path) ->
  cb = CbBaseEditorsApi \/ cb = CbFonts ->
  uncaught (waitForPath path cb None st) = uncaught st.
Proof.
  intros A C F Hcb. unfold waitForPath, waitForPathWith. cbv zeta. cbn [parts onFound].
  rewrite uncaught_resolveWith; [done|]. cbn [heap print onFound].
  destruct (agree_path h (heap st) _ window A F) as [-> ->]. intros R.
  unfold holdsConstructor in C. rewrite R in C. cbn [implb] in C.
  set (s1 := print _ _ st).
  assert (P1 : patchable (heap s1) (pathValue h window (JsString.split "." path)) = true)
    by (subst s1; cbn [heap print]; by rewrite (agree_patchable h)).
  destruct (leaf_plain cb _ s1 P1) as [L1 L2].
  destruct Hcb as [-> | ->]; cbn [run_callback].
  - rewrite (L1 eq_refl). by rewrite uncaught_complete.
  - rewrite (L2 eq_refl). by rewrite uncaught_complete.
Qed.

(** What the routine of OVERRIDE 3 does on a page of constructors, once
    both of its constructors are there. *)
Lemma sdk_patch_applies (h : heapT) (st : state) (du : value) :
  agree h (heap st) ->
  constructorsOnly h = true ->
  patchable h du = true ->
  resolvable h window ["AscCommon"; "CDocsCoApi"] = true ->
  leaf (CbCDocsCoApi du) (pathValue h window ["AscCommon"; "CDocsCoApi"]) st
  = complete Sdk
      (fold_left (fun s c => emit c s)
         ([ApplyOverrides "DocumentUrls" du;
           ApplyOverrides "CDocsCoApi" (pathValue h window ["AscCommon"; "CDocsCoApi"])]
            ++ optionalOverrides h)
         (print LvLog ["[common.js] Applying SDK document/image overrides"] st)).
Proof.
  intros A C Pd R.
  assert (O : optionalOverrides (heap st) = optionalOverrides h)
    by (unfold optionalOverrides; cbn [flat_map]; by rewrite !A).
  rewrite <- O. apply leaf_sdk.
  - by rewrite (agree_patchable h).
  - rewrite A by done. cbn [resolvable] in R.
    apply andb_prop in R as [_ R]. apply andb_prop in R as [R _].
    apply andb_prop in R as [_ R]. by apply get_of_ref in R.
  - rewrite (agree_patchable h) by done.
    pose proof (holdsConstructor_at h ["AscCommon"; "CDocsCoApi"] C) as K.
    unfold holdsConstructor in K. rewrite R in K. apply K. simpl. tauto.
  - intros name [<- | [<- | []]];
      (apply (optional_patchable h); [done| |done]);
      apply holdsConstructor_at; simpl; tauto.
Qed.

Lemma clean_watch_sdk (h : heapT) (st : state) :
  agree h (heap st) ->
  constructorsOnly h = true ->
  uncaught (waitForPath "AscCommon.DocumentUrls" CbDocumentUrls None st) = uncaught st.
Proof.
  intros A C. unfold waitForPath, waitForPathWith. cbv zeta. cbn [parts onFound].
  rewrite uncaught_resolveWith; [done|]. cbn [heap print onFound].
  change (JsString.split "." "AscCommon.DocumentUrls") with ["AscCommon"; "DocumentUrls"].
  destruct (agree_path h (heap st) ["AscCommon"; "DocumentUrls"] window A) as [-> ->];
    [by repeat constructor|].
  intros R. set (s1 := print _ _ st). cbn [run_callback].
  unfold waitForPathWith. cbv zeta. cbn [parts onFound].
  rewrite uncaught_resolveWith; [done|]. cbn [heap print onFound].
  change (JsString.split "." "AscCommon.CDocsCoApi") with ["AscCommon"; "CDocsCoApi"].
  change (heap s1) with (heap st).
  destruct (agree_path h (heap st) ["AscCommon"; "CDocsCoApi"] window A) as [-> ->];
    [by repeat constructor|].
  intros R'.
  pose proof (holdsConstructor_at h ["AscCommon"; "DocumentUrls"] C) as K.
  unfold holdsConstructor in K. rewrite R in K.
  rewrite (sdk_patch_applies h); [|done|done|apply K; simpl; tauto|done].
  rewrite uncaught_complete. by destruct (uncaught_emits
    ([ApplyOverrides "DocumentUrls" (pathValue h window ["AscCommon"; "DocumentUrls"]);
      ApplyOverrides "CDocsCoApi" (pathValue h window ["AscCommon"; "CDocsCoApi"])]
       ++ optionalOverrides h)
    (print LvLog ["[common.js] Applying SDK document/image overrides"]
       (print LvLog ["[common.js] waitForPath starting:"; "AscCommon.CDocsCoApi"] s1)))
    as (-> & _).
Qed.

(** On a page that holds constructors only, no exception leaves the first
    block of the script. *)
Lemma clean_initReadiness (h : heapT) (t : Z) :
  constructorsOnly h = true ->
  uncaught (initReadiness (declareGlobals (fresh h t))) = [].
Proof.
  intros C. unfold initReadiness. cbv zeta.
  set (s1 := store window "_commonJsReady" VPromise (declareGlobals (fresh h t))).
  assert (A1 : agree h (heap s1)) by apply agree_loaded.
  destruct (isMinifiedSdk (heap s1)); cbn [negb].
  - rewrite !threw_refl. by rewrite uncaught_forceComplete.
  - set (s3 := waitForPath "AscCommon.baseEditorsApi" CbBaseEditorsApi None s1).
    assert (U3 : uncaught s3 = uncaught s1).
    { apply (clean_watch_plain h); [done| |by repeat constructor|by left].
      apply holdsConstructor_at; [done|]. simpl. tauto. }
    assert (A3 : agree h (heap s3))
      by (subst s3; by rewrite (fr_heap _ _ (framed_waitForPath _ _ _ _))).
    rewrite (threw_same _ _ U3).
    set (s4 := waitForPath "AscFonts.CFontFileLoader" CbFonts None s3).
    assert (U4 : uncaught s4 = uncaught s3).
    { apply (clean_watch_plain h); [done| |by repeat constructor|by right].
      apply holdsConstructor_at; [done|]. simpl. tauto. }
    assert (A4 : agree h (heap s4))
      by (subst s4; by rewrite (fr_heap _ _ (framed_waitForPath _ _ _ _))).
    rewrite (threw_same _ _ U4).
    rewrite (clean_watch_sdk h) by done. by rewrite U4, U3.
Qed.


(** C10 (amended).  When the detection expression is truthy at script load,
    the script leaves three properties on [window]: the promise
    [_commonJsReady], which it fulfils, and its two top-level variables,
    [_isMinifiedSdk] holding [true] and [_documentLoadStarted], declared and
    never initialised.  No value that could be read on the page before
    differs after, the two names the script assigns apart: every other
    property of [window], the entry points among them, reads as it did
    (undefined if it was undefined); nothing waits on the promise, nothing
    was called or thrown, and a call of the entry point does not reach this
    script.  In the other build mode, on a page where what stands under the
    patched names is a constructor, the entry point
    [DesktopOfflineAppDocumentEndLoad] is defined. *)
Theorem minified_sdk_defines_no_entry_points (h : heapT) (t : Z) :
  (isMinifiedSdk h = true ->
   let st := loadScript H h t in
   heap st
   = defineProperty (defineProperty (hoisted h) window "_commonJsReady" (Data VPromise))
                    window "_isMinifiedSdk" (Data (VBool true))
   /\ (forall (obj : value) (name : string), get (hoisted h) obj name = get h obj name)
   /\ getOwnPropertyDescriptor (heap st) window "_documentLoadStarted"
      = Some (default (Data VUndefined)
                      (getOwnPropertyDescriptor h window "_documentLoadStarted"))
   /\ get (heap st) window "_commonJsReady" = VPromise
   /\ get (heap st) window "_isMinifiedSdk" = VBool true
   /\ ready st = Fulfilled
   /\ (forall name : string,
         name <> "_commonJsReady" -> name <> "_isMinifiedSdk" ->
         get (heap st) window name = get h window name)
   /\ (forall name : string,
         In name entryPoints -> get h window name = VUndefined ->
         get (heap st) window name = VUndefined)
   /\ documentLoadStarted st = false
   /\ reactions st = [] /\ microtasks st = [] /\ calls st = [] /\ uncaught st = []
   /\ (forall (u d : string) (l : Z),
         get h window "DesktopOfflineAppDocumentEndLoad" = VUndefined ->
         handle H (CallDocumentEndLoad u d l) st = st))
  /\ (isMinifiedSdk h = false ->
      constructorsOnly h = true ->
      get (heap (loadScript H h t)) window "DesktopOfflineAppDocumentEndLoad"
      = VFun "DesktopOfflineAppDocumentEndLoad").
Proof.
  split.
  - intros M st. subst st. rewrite loadScript_minified, initReadiness_minified by done.
    unfold store.
    cbn [heap set_heap ready reactions microtasks calls documentLoadStarted uncaught].
    assert (E : forall name : string,
              name <> "_commonJsReady" -> name <> "_isMinifiedSdk" ->
              get (defineProperty
                     (defineProperty (hoisted h) window "_commonJsReady" (Data VPromise))
                     window "_isMinifiedSdk" (Data (VBool true))) window name
              = get h window name)
      by (intros name N1 N2; by rewrite !get_defineProperty_ne, get_hoisted).
    split; [done|]. split; [apply get_hoisted|]. split.
    { rewrite !descriptor_defineProperty_ne by done. unfold hoisted.
      rewrite descriptor_declare_eq. by rewrite descriptor_declare_ne. }
    split; [rewrite get_defineProperty_ne by done; apply get_defineProperty_eq|].
    split; [apply get_defineProperty_eq|].
    repeat split; try done.
    + intros name I U. rewrite E; [done| |];
        intros ->; simpl in I; repeat (destruct I as [I|I]; [discriminate I|]); done.
    + intros u d l U. simpl. by rewrite E, U.
  - intros M C. unfold loadScript. cbv zeta. rewrite heap_drain.
    rewrite threw_same by (by rewrite clean_initReadiness).
    apply heap_defineEntryPoints_unminified.
    rewrite heap_initReadiness. cbn [heap declareGlobals set_heap fresh].
    by rewrite isMinifiedSdk_defineProperty, isMinifiedSdk_hoisted.
Qed.

End UnminifiedLoad.


(** ** The base URL *)

Section BaseUrl.

Variable H : host.

Lemma drop_app (a b : string) : JsString.drop (String.length a) (a ++ b)%string = b.
Proof. induction a as [|c a IH]; [by destruct b|exact IH]. Qed.

Lemma take_app (a b : string) : JsString.take (String.length a) (a ++ b)%string = a.
Proof. induction a as [|c a IH]; [by destruct b|]. simpl. by rewrite IH. Qed.

Lemma length_app_string (a b : string) :
  String.length (a ++ b)%string = (String.length a + String.length b)%nat.
Proof. induction a as [|c a IH]; [done|]. simpl. by rewrite IH. Qed.

Lemma len_snoc (a : string) (c : ascii) :
  JsString.len (a ++ String c "")%string - 1 = Z.of_nat (String.length a).
Proof. unfold JsString.len. rewrite length_app_string. simpl. lia. Qed.

Lemma charAt_last (a : string) (c : ascii) :
  JsString.charAt (a ++ String c "")%string (JsString.len (a ++ String c "")%string - 1)
  = String c "".
Proof.
  rewrite len_snoc. unfold JsString.charAt.
  destruct (Z.ltb_spec (Z.of_nat (String.length a)) 0); [lia|].
  by rewrite Nat2Z.id, drop_app.
Qed.

Lemma substring_init (a : string) (c : ascii) :
  JsString.substring (a ++ String c "")%string 0
                     (JsString.len (a ++ String c "")%string - 1) = a.
Proof.
  rewrite len_snoc. unfold JsString.substring.
  rewrite Z.min_l, Z.max_r, Z.max_r, Z.sub_0_r by lia.
  rewrite Z.max_r by lia. change (Z.to_nat 0) with 0%nat. cbn [JsString.drop].
  by rewrite Nat2Z.id, take_app.
Qed.

(** X6.  When the host supplies an override base URL that ends with a slash,
    the base URL is the override without that one slash, whatever the
    locator is; earlier slashes stay.  On a page with the objects of the SDK
    the steps reach for ([Asc.editor], [AscCommon.g_oDocumentUrls],
    [AscCommon.g_oIdCounter]) the steps store this value and throw
    nothing. *)
Theorem override_loses_one_trailing_slash (o _url _data : string) (_len : Z) (st : state) :
  resolveDocumentUrl (VStr (o ++ "/")) _url = Some o
  /\ (sdkObjects (heap st) = true ->
      get (heap st) window "_ONLYOFFICE_DOC_BASE_URL" = VStr (o ++ "/") ->
      documentUrl (documentEndLoadBody H _url _data _len st) = VStr o
      /\ uncaught (documentEndLoadBody H _url _data _len st) = uncaught st).
Proof.
  assert (R : resolveDocumentUrl (VStr (o ++ "/")) _url = Some o).
  { unfold resolveDocumentUrl.
    assert (truthy (VStr (o ++ "/")) = true) as -> by (by destruct o).
    by rewrite charAt_last, substring_init. }
  split; [exact R|]. intros He Ho. rewrite <- Ho in R.
  rewrite (documentEndLoadBody_reaches H _ _ _ _ _ He R).
  by destruct (documentUrl_payloadSteps H o _data _len
                 (emit CheckUserId
                    (emit (SetOpenedAt (now st))
                       (set_documentUrl (VStr o) (print LvLog [executingMessage] st)))))
    as [-> ->].
Qed.

(** X7.  Without an override the base URL always carries a scheme, and
    resolving it again changes nothing: a locator with a scheme is kept as
    it is, any other gets the file scheme. *)
Theorem base_url_has_scheme (override : value) (_url r : string) :
  truthy override = false ->
  resolveDocumentUrl override _url = Some r ->
  hasScheme r = true /\ resolveDocumentUrl override r = Some r.
Proof.
  intros T. unfold resolveDocumentUrl. rewrite T.
  destruct (hasScheme _url) eqn:S.
  - intros [= <-]. by rewrite S.
  - destruct (negb _); intros [= <-]; by split.
Qed.

(** X8.  The title follow-up, run on time: the interval of 500 ms after the
    document is opened and the one of 100 ms after the title is assigned are
    timeouts that run once and are gone; between them they read the source
    path, assign the title, hand it to the host bridge and, 600 ms after the
    open, send [asc_onDocumentName] with the same title. *)
Theorem title_follow_up_runs_once (u : string) (st : state) :
  let title := localName (sourcePath H) in
  let opened := openAndFollowUp H u st in
  let named := fire H (S (nextTimer st)) (fire H (nextTimer st) opened) in
  calls named
  = (calls opened
     ++ [LocalFileGetSourcePath; AssignDocumentTitle title; SetDocumentName title;
         SendEvent "asc_onDocumentName" [ArgStr title]])%list
  /\ now named = now st + 600
  /\ timers named !! nextTimer st = None
  /\ timers named !! S (nextTimer st) = None
  /\ fire H (nextTimer st) named = named
  /\ fire H (S (nextTimer st)) named = named.
Proof.
  intros title opened named.
  assert (E1 : fire H (nextTimer st) opened
               = DesktopOfflineUpdateLocalName H
                   (clearInterval (nextTimer st) (set_now (now st + 500) opened))).
  { unfold fire. subst opened. unfold openAndFollowUp, DesktopAfterOpen.
    cbn [timers emit setTimeout set_timers now nextTimer].
    rewrite lookup_insert_eq. cbn [period body due run_task].
    rewrite Z.max_r by lia. reflexivity. }
  assert (T2 : timers (fire H (nextTimer st) opened) !! S (nextTimer st)
               = Some (Timer (SendDocumentName title) None (now st + 600))).
  { rewrite E1. subst opened.
    unfold DesktopOfflineUpdateLocalName, openAndFollowUp, DesktopAfterOpen, setTimeout.
    cbn [timers emit set_timers now nextTimer clearInterval set_now].
    rewrite lookup_insert_eq. do 2 f_equal. lia. }
  assert (N1 : timers (fire H (nextTimer st) opened) !! nextTimer st = None).
  { rewrite E1. subst opened.
    unfold DesktopOfflineUpdateLocalName, openAndFollowUp, DesktopAfterOpen, setTimeout.
    cbn [timers emit set_timers now nextTimer clearInterval set_now].
    rewrite lookup_insert_ne by lia. by rewrite lookup_delete_eq. }
  assert (E2 : named
               = emit (SendEvent "asc_onDocumentName" [ArgStr title])
                   (clearInterval (S (nextTimer st))
                      (set_now (now st + 600) (fire H (nextTimer st) opened)))).
  { subst named. unfold fire at 1. rewrite T2. cbn [period body due run_task].
    rewrite Z.max_r; [reflexivity|]. rewrite E1. simpl. lia. }
  assert (M1 : timers named !! nextTimer st = None).
  { rewrite E2. cbn [timers emit clearInterval set_timers set_now].
    rewrite lookup_delete_ne by lia. exact N1. }
  assert (M2 : timers named !! S (nextTimer st) = None).
  { rewrite E2. cbn [timers emit clearInterval set_timers set_now].
    by rewrite lookup_delete_eq. }
  split; [|split; [|split; [exact M1|split; [exact M2|split]]]].
  - rewrite E2. cbn [calls emit clearInterval set_timers set_now]. rewrite E1.
    unfold DesktopOfflineUpdateLocalName, setTimeout. fold title.
    cbn [calls emit set_timers clearInterval set_now]. by rewrite <- !app_assoc.
  - rewrite E2. reflexivity.
  - unfold fire. by rewrite M1.
  - unfold fire. by rewrite M2.
Qed.

Lemma join_cons (x : string) (l : list string) :
  JsString.join "." (x :: l)
  = match l with [] => x | _ => (x ++ "." ++ JsString.join "." l)%string end.
Proof. by destruct l. Qed.

Lemma startsWith_app (a b c : string) :
  JsString.startsWith b c = true -> JsString.startsWith (a ++ b)%string (a ++ c)%string = true.
Proof.
  intros E. induction a as [|x a IH]; [exact E|].
  simpl. by rewrite Ascii.eqb_refl.
Qed.

Lemma startsWith_nil (s : string) : JsString.startsWith "" s = true.
Proof. by destruct s. Qed.

Lemma split_nonempty (sep : ascii) (s : string) : JsString.split sep s <> [].
Proof.
  destruct s as [|c s]; simpl; [done|].
  destruct (Ascii.eqb c sep); [done|]. by destruct (JsString.split sep s).
Qed.

(** X9.  Splitting a path at its dots and joining any number of leading
    segments with dots gives a prefix of the path: the place named by the
    failure message of [resolve] is a leading part of the watched path, and
    all the segments joined give the path back. *)
Theorem failure_names_a_prefix (path : string) (idx : nat) :
  JsString.startsWith (JsString.join "." (firstn idx (JsString.split "." path))) path = true
  /\ JsString.join "." (JsString.split "." path) = path.
Proof.
  split.
  - revert idx. induction path as [|c path IH]; intros idx.
    + destruct idx as [|[|idx]]; reflexivity.
    + destruct idx as [|idx]; [reflexivity|].
      cbn [JsString.split]. destruct (Ascii.eqb_spec c ".") as [->|N].
      * cbn [firstn]. rewrite join_cons.
        destruct (firstn idx (JsString.split "." path)) eqn:F; [reflexivity|].
        rewrite <- F. change (JsString.startsWith
          ("." ++ JsString.join "." (firstn idx (JsString.split "." path)))%string
          ("." ++ path)%string = true). apply (startsWith_app "."), IH.
      * pose proof (IH (S idx)) as I.
        destruct (JsString.split "." path) as [|x t] eqn:S; [by apply split_nonempty in S|].
        cbn [firstn] in *. rewrite join_cons in *.
        destruct (firstn idx t); simpl; rewrite Ascii.eqb_refl; exact I.
  - induction path as [|c path IH]; [reflexivity|].
    cbn [JsString.split]. destruct (Ascii.eqb_spec c ".") as [->|N].
    + rewrite join_cons.
      destruct (JsString.split "." path) eqn:S; [by apply split_nonempty in S|].
      by rewrite IH.
    + destruct (JsString.split "." path) as [|x t] eqn:S; [by apply split_nonempty in S|].
      rewrite join_cons in *. destruct t; simpl; by rewrite <- IH.
Qed.

End BaseUrl.

(* ===================================================================== *)
(** * Properties of the patched SDK methods and of the helper globals *)
(* ===================================================================== *)

(** ** DocumentUrls *)

Section DocumentUrlsFacts.

Import DocumentUrls.

Lemma decodeSpaces_cons (c : ascii) (r : string) :
  c <> "%"%char -> decodeSpaces (String c r) = String c (decodeSpaces r).
Proof.
  intros N. destruct r as [|c2 [|c3 r']]; try reflexivity.
  cbn [decodeSpaces]. destruct (Ascii.eqb_spec c "%"); [done|reflexivity].
Qed.

Lemma decodeSpaces_3 (x y z : ascii) (r : string) :
  decodeSpaces (String x (String y (String z r)))
  = if Ascii.eqb x "%" && Ascii.eqb y "2" && Ascii.eqb z "0"
    then String " " (decodeSpaces r)
    else String x (decodeSpaces (String y (String z r))).
Proof. reflexivity. Qed.

Lemma decodeSpaces_2 (x y : ascii) :
  decodeSpaces (String x (String y "")) = String x (decodeSpaces (String y "")).
Proof. reflexivity. Qed.

Lemma decodeSpaces_app_le (n : nat) (a : string) (c : ascii) (b : string) :
  (String.length a <= n)%nat -> c <> "2"%char -> c <> "0"%char ->
  decodeSpaces (a ++ String c b) = (decodeSpaces a ++ decodeSpaces (String c b))%string.
Proof.
  revert a. induction n as [|n IH]; intros a L N2 N0.
  - destruct a; [reflexivity|simpl in L; lia].
  - destruct a as [|x [|y [|z a']]]; simpl in L.
    + reflexivity.
    + change ((String x "" ++ String c b)%string) with (String x (String c b)).
      change (decodeSpaces (String x "")) with (String x "").
      destruct b as [|c3 b'].
      * by rewrite decodeSpaces_2.
      * rewrite (decodeSpaces_3 x c c3).
        destruct (Ascii.eqb_spec c "2"); [done|]. by rewrite andb_false_r.
    + change ((String x (String y "") ++ String c b)%string)
        with (String x (String y (String c b))).
      rewrite (decodeSpaces_3 x y c), decodeSpaces_2.
      destruct (Ascii.eqb_spec c "0"); [done|]. rewrite andb_false_r.
      change (String y (String c b)) with ((String y "" ++ String c b)%string).
      rewrite (IH (String y "")) by (simpl; lia || done). reflexivity.
    + change ((String x (String y (String z a')) ++ String c b)%string)
        with (String x (String y (String z (a' ++ String c b)%string))).
      rewrite !(decodeSpaces_3 x y z).
      destruct (Ascii.eqb x "%" && Ascii.eqb y "2" && Ascii.eqb z "0").
      * rewrite (IH a') by (lia || done). reflexivity.
      * change (String y (String z (a' ++ String c b)%string))
          with ((String y (String z a') ++ String c b)%string).
        rewrite (IH (String y (String z a'))) by (simpl; lia || done).
        reflexivity.
Qed.

Lemma decodeSpaces_media (d p : string) :
  decodeSpaces (d ++ "/media/" ++ p) = (decodeSpaces d ++ "/media/" ++ decodeSpaces p)%string.
Proof.
  change ((d ++ "/media/" ++ p)%string) with ((d ++ String "/" ("media/" ++ p))%string).
  rewrite (decodeSpaces_app_le (String.length d)) by (lia || done).
  f_equal. change (String "/" ("media/" ++ p)%string)
    with (String "/" (String "m" (String "e" (String "d" (String "i" (String "a"
            (String "/" p))))))).
  by rewrite !decodeSpaces_cons.
Qed.

Lemma startsWith_self_app (a b : string) : JsString.startsWith a (a ++ b)%string = true.
Proof.
  induction a as [|x a IH]; [by destruct b|]. simpl. by rewrite Ascii.eqb_refl.
Qed.

Lemma string_app_assoc (a b c : string) : ((a ++ b) ++ c = a ++ b ++ c)%string.
Proof.
  induction a as [|x a IH]; [done|].
  change (String x ((a ++ b) ++ c) = String x (a ++ b ++ c))%string. by rewrite IH.
Qed.

(** X10.  [getLocal] undoes [getUrl]: for a path that is not a theme path
    and not [Editor.xlsx], and a document URL in which [replaceAll] finds
    nothing to replace, the local name of the URL built for the path is the
    path with every [%20] turned into a space; in particular the path itself
    when it has no [%20]. *)
Theorem getLocal_of_getUrl (e : env) (strPath : string) :
  isTheme e strPath = false ->
  String.eqb strPath "Editor.xlsx" = false ->
  decodeSpaces (thisDocumentUrl e) = thisDocumentUrl e ->
  getUrl e strPath = VStr (thisDocumentUrl e ++ "/media/" ++ strPath)
  /\ getLocal e (getUrl e strPath) = Some (VStr (decodeSpaces strPath)).
Proof.
  intros T X D.
  assert (U : getUrl e strPath = VStr (thisDocumentUrl e ++ "/media/" ++ strPath))
    by (unfold getUrl; by rewrite T, X).
  split; [exact U|]. rewrite U. unfold getLocal, getImageLocal. cbv zeta.
  assert (truthy (VStr (thisDocumentUrl e ++ "/media/" ++ strPath)) = true) as ->
    by (by destruct (thisDocumentUrl e)).
  rewrite decodeSpaces_media, D, <- string_app_assoc, indexOf_zero, startsWith_self_app.
  unfold JsString.substringFrom, JsString.len. by rewrite Nat2Z.id, drop_app.
Qed.

Lemma startsWith_split (p s : string) :
  JsString.startsWith p s = true -> s = (p ++ JsString.drop (String.length p) s)%string.
Proof.
  revert s. induction p as [|a p IH]; intros s E; [by destruct s|].
  destruct s as [|b s]; [done|]. simpl in E. apply andb_prop in E as [E1 E2].
  apply Ascii.eqb_eq in E1 as ->.
  change (String b s = String b (p ++ JsString.drop (String.length p) s)%string).
  f_equal. by apply IH.
Qed.

Lemma indexOf_from_split (p s : string) (i : Z) :
  JsString.indexOf_from p s i <> -1 -> 0 <= i ->
  exists pre : string,
    JsString.indexOf_from p s i = i + JsString.len pre
    /\ s = (pre ++ p ++ JsString.drop (String.length pre + String.length p) s)%string.
Proof.
  revert i. induction s as [|c s IH]; intros i N I; simpl in *.
  - destruct (JsString.startsWith p "") eqn:E; [|done].
    exists EmptyString. split; [unfold JsString.len; simpl; lia|].
    by apply startsWith_split in E.
  - destruct (JsString.startsWith p (String c s)) eqn:E.
    + exists EmptyString. split; [unfold JsString.len; simpl; lia|].
      by apply startsWith_split in E.
    + destruct (IH (i + 1) N) as (pre & Ei & Es); [lia|].
      exists (String c pre). split.
      * rewrite Ei. unfold JsString.len. simpl String.length. lia.
      * change (String c s
                = String c (pre ++ p
                              ++ JsString.drop (String.length pre + String.length p) s)%string).
        by f_equal.
Qed.

Lemma substringFrom_after (pre p s : string) :
  s = (pre ++ p ++ JsString.drop (String.length pre + String.length p) s)%string ->
  s = (pre ++ p ++ JsString.substringFrom s (JsString.len pre + JsString.len p))%string.
Proof.
  intros E. unfold JsString.substringFrom, JsString.len.
  by rewrite <- Nat2Z.inj_add, Nat2Z.id.
Qed.

(** X11.  A local name returned by [getImageLocal] is never made up: the
    argument, with [%20] turned into spaces, ends with it, and what stands
    directly before it is the marker that was recognised, namely the
    document's media folder at the start, or the server media pattern of
    the file hash anywhere, or the absolute themes URL at the start. *)
Theorem getImageLocal_cuts_after_marker (e : env) (u r : string) :
  getImageLocal e (VStr u) = Some (VStr r) ->
  exists pre marker : string,
    (if String.eqb u "" then EmptyString else decodeSpaces u) = (pre ++ marker ++ r)%string
    /\ ((pre = EmptyString /\ marker = (thisDocumentUrl e ++ "/media/")%string)
        \/ (fileHash e <> EmptyString
            /\ marker = ("/api/media/" ++ fileHash e ++ "/")%string)
        \/ (pre = EmptyString
            /\ exists ThemesUrl, themeLoader e = Some (ThemesUrl, marker))).
Proof.
  unfold getImageLocal. cbv zeta. cbn [truthy].
  set (url := if String.eqb u "" then EmptyString else decodeSpaces u).
  assert ((if negb (String.eqb u "") then Some (decodeSpaces u) else Some EmptyString)
          = Some url) as -> by (subst url; by destruct (String.eqb u "")).
  rewrite indexOf_zero.
  destruct (JsString.startsWith (thisDocumentUrl e ++ "/media/") url) eqn:F.
  { intros [= <-]. exists EmptyString, (thisDocumentUrl e ++ "/media/")%string.
    split; [|by left].
    apply startsWith_split in F. unfold JsString.substringFrom, JsString.len.
    by rewrite Nat2Z.id. }
  destruct (negb (String.eqb (fileHash e) "")
            && negb (JsString.indexOf url ("/api/media/" ++ fileHash e ++ "/") =? -1)) eqn:Hh.
  { intros [= <-]. apply andb_prop in Hh as [N1 N2].
    apply negb_true_iff in N1, N2. apply Z.eqb_neq in N2.
    destruct (indexOf_from_split ("/api/media/" ++ fileHash e ++ "/") url 0 N2)
      as (pre & Ei & Es); [lia|].
    exists pre, ("/api/media/" ++ fileHash e ++ "/")%string. split.
    - unfold JsString.indexOf. rewrite Ei. by apply substringFrom_after.
    - right; left. split; [|done]. by apply String.eqb_neq in N1. }
  destruct (themeLoader e) as [[tu ta]|]; [|done].
  rewrite indexOf_zero.
  destruct (JsString.startsWith ta url) eqn:T; [|done].
  intros [= <-]. exists EmptyString, ta. split.
  - apply startsWith_split in T. unfold JsString.substringFrom, JsString.len.
    by rewrite Nat2Z.id.
  - right; right. split; [done|]. by exists tu.
Qed.

End DocumentUrlsFacts.

(** ** UpdateInstallPlugins *)

Section PluginsFacts.

Import Plugins.
Local Open Scope list_scope.

Lemma visit_at (folder : ustring) (pre post : objects) (p : plugin) (out : list nat) :
  visit folder (pre ++ p :: post, out) (length pre)
  = (pre ++ located folder p :: post, out ++ [length pre]).
Proof.
  unfold visit. cbn [fst snd].
  rewrite (list_lookup_middle pre post p (length pre)) by done.
  cbv zeta. unfold located.
  assert (I : forall x y : plugin,
             <[length pre := x]> (pre ++ y :: post) = pre ++ x :: post)
    by (intros x y; rewrite <- (Nat.add_0_r (length pre)) at 1;
        by rewrite insert_app_r).
  destruct (onlyofficeScheme p); rewrite !I; reflexivity.
Qed.

Lemma visit_fold (folder : ustring) (mid pre post : objects) (out : list nat) :
  fold_left (visit folder) (seq (length pre) (length mid)) (pre ++ mid ++ post, out)
  = (pre ++ map (located folder) mid ++ post, out ++ seq (length pre) (length mid)).
Proof.
  revert pre out. induction mid as [|p mid IH]; intros pre out.
  - simpl. by rewrite app_nil_r.
  - cbn [length seq fold_left map]. rewrite <- app_comm_cons, visit_at.
    specialize (IH (pre ++ [located folder p]) (out ++ [length pre])).
    rewrite length_app in IH. cbn [length] in IH.
    replace (length pre + 1)%nat with (S (length pre)) in IH by lia.
    rewrite <- !app_assoc in IH. cbn [app] in IH. rewrite IH.
    reflexivity.
Qed.

Lemma prune_filter (fuel : nat) (objs : objects) (i : nat) (arr : list nat) :
  (forall a, In a arr -> is_Some (objs !! a)) ->
  (length arr - i <= fuel)%nat ->
  prune fuel objs i arr = take i arr ++ List.filter (keptAt objs) (drop i arr).
Proof.
  revert i arr. induction fuel as [|fuel IH]; intros i arr A L.
  - simpl. rewrite drop_ge by lia. rewrite take_ge by lia. by rewrite app_nil_r.
  - cbn [prune]. destruct (arr !! i) as [a|] eqn:E.
    + assert (Ia : In a arr) by (apply list_elem_of_In, list_elem_of_lookup; eauto).
      destruct (A a Ia) as [p Ep]. rewrite Ep.
      pose proof (lookup_lt_Some _ _ _ E) as Li.
      assert (D : drop i arr = a :: drop (S i) arr) by (by apply drop_S).
      assert (Ad : forall b, In b (delete i arr) -> is_Some (objs !! b)).
      { intros b Ib. apply A. rewrite delete_take_drop in Ib.
        apply in_app_or in Ib as [Ib|Ib]; apply list_elem_of_In in Ib;
          apply list_elem_of_In.
        - by apply (subseteq_take i arr).
        - by apply (subseteq_drop (S i) arr). }
      assert (Rm : prune fuel objs i (delete i arr)
                   = take i arr ++ List.filter (keptAt objs) (drop (S i) arr)).
      { rewrite IH; [|exact Ad|rewrite length_delete by eauto; lia].
        rewrite delete_take_drop.
        rewrite take_app_length' by (rewrite length_take; lia).
        rewrite drop_app_length' by (rewrite length_take; lia). done. }
      rewrite D. cbn [List.filter].
      assert (keptAt objs a = kept p) as -> by (unfold keptAt; by rewrite Ep).
      unfold kept.
      destruct (variations p) as [vs|]; [|exact Rm].
      destruct (isSystem vs); [exact Rm|]. cbn [negb].
      rewrite IH by (done || lia). rewrite (take_S_r _ _ _ E), <- app_assoc. done.
    + apply lookup_ge_None in E. rewrite drop_ge by lia. rewrite take_ge by lia.
      by rewrite app_nil_r.
Qed.

Lemma deref_filter (pre l : objects) :
  omap (fun a => (pre ++ l) !! a)
       (List.filter (keptAt (pre ++ l)) (seq (length pre) (length l)))
  = List.filter kept l.
Proof.
  revert pre. induction l as [|p l IH]; intros pre; [done|].
  cbn [length seq List.filter]. unfold keptAt at 1.
  rewrite (list_lookup_middle pre l p (length pre)) by done.
  specialize (IH (pre ++ [p])). rewrite length_app in IH. cbn [length] in IH.
  replace (length pre + 1)%nat with (S (length pre)) in IH by lia.
  rewrite <- app_assoc in IH. cbn [app] in IH.
  destruct (kept p); [|exact IH].
  cbn [omap list_omap]. rewrite (list_lookup_middle pre l p (length pre)) by done.
  by rewrite IH.
Qed.

(** X12.  The plugins handed to [sendPluginsInit] are those of the first
    group followed by those of the second, in their order, without the ones
    that have no [variations] and the ones with a variation of type
    [desktop]; a plugin with an empty list of variations stays.  Each one
    carries as [baseUrl] the folder of its own group, spaces escaped,
    followed by the [guid] without its first four UTF-16 code units and a slash,
    and the [onlyoffice://plugin/] prefix if it asks for that scheme: the
    prefix written after the plugin was pushed is seen in the list.  The
    folder reported is that of the first group. *)
Theorem installed_plugins (g0 g1 : group) :
  installed g0 g1
  = (escapeSpaces (url g0),
     List.filter kept
       (map (located (escapeSpaces (url g0))) (pluginsData g0)
        ++ map (located (escapeSpaces (url g1))) (pluginsData g1))).
Proof.
  unfold installed. cbv zeta.
  pose proof (visit_fold (escapeSpaces (url g0)) (pluginsData g0) [] (pluginsData g1) [])
    as F0. cbn [length app] in F0. rewrite F0.
  pose proof (visit_fold (escapeSpaces (url g1)) (pluginsData g1)
                (map (located (escapeSpaces (url g0))) (pluginsData g0)) []
                (seq 0 (length (pluginsData g0)))) as F1.
  rewrite length_map, app_nil_r in F1. rewrite F1. rewrite app_nil_r. cbn [fst snd].
  rewrite <- seq_app.
  set (objs := map _ (pluginsData g0) ++ map _ (pluginsData g1)).
  assert (Lo : length objs = (length (pluginsData g0) + length (pluginsData g1))%nat)
    by (subst objs; by rewrite length_app, !length_map).
  rewrite <- Lo, length_seq.
  rewrite prune_filter; [| |rewrite length_seq; lia].
  - rewrite take_0, drop_0. cbn [app]. f_equal.
    exact (deref_filter [] objs).
  - intros a Ia. apply in_seq in Ia. apply lookup_lt_is_Some. lia.
Qed.

Lemma UpdateInstallPlugins_flag (g0 g1 : group) (st : pstate) :
  IsFirstPluginLoad (UpdateInstallPlugins g0 g1 st) = true.
Proof.
  unfold UpdateInstallPlugins. cbv zeta. cbn [IsFirstPluginLoad].
  by destruct (IsFirstPluginLoad st) eqn:E.
Qed.

(** X13.  However often [UpdateInstallPlugins] runs on a page, the handler
    of [asc_onPluginsReset] is registered by the first run only, while every
    run sends the reset event and one plugin list. *)
Theorem plugins_reset_handler_registered_once (gs : list (group * group)) :
  let st := fold_left (fun s g => UpdateInstallPlugins (fst g) (snd g) s) gs
                      (PState false []) in
  length (List.filter isRegister (ptrace st)) = Nat.min 1 (length gs)
  /\ length (List.filter isInit (ptrace st)) = length gs.
Proof.
  assert (G : forall gs st,
             let st' := fold_left (fun s g => UpdateInstallPlugins (fst g) (snd g) s) gs st in
             length (List.filter isRegister (ptrace st'))
             = (length (List.filter isRegister (ptrace st))
                + if IsFirstPluginLoad st then 0 else Nat.min 1 (length gs))%nat
             /\ length (List.filter isInit (ptrace st'))
                = (length (List.filter isInit (ptrace st)) + length gs)%nat).
  { clear gs. induction gs as [|g gs IH]; intros st.
    - simpl. destruct (IsFirstPluginLoad st); split; lia.
    - cbn [fold_left]. destruct (IH (UpdateInstallPlugins (fst g) (snd g) st)) as (R & I).
      cbv zeta in *. rewrite R, I, UpdateInstallPlugins_flag.
      unfold UpdateInstallPlugins. cbv zeta.
      destruct (IsFirstPluginLoad st); cbn [negb ptrace IsFirstPluginLoad];
        rewrite !List.filter_app, !length_app; simpl; split; lia. }
  intros st. subst st. destruct (G gs (PState false [])) as (R & I).
  cbv zeta in *. rewrite R, I. simpl. split; lia.
Qed.

End PluginsFacts.

(** ** LoadFontAsync *)

Section FontsFacts.

Import Fonts.
Local Open Scope list_scope.

Lemma fstep_loaded_before (st : fstate) (e : fevent) :
  Status st <> -1 -> Status (fstep st e) <> -1 /\ requests (fstep st e) = requests st.
Proof.
  intros N. destruct e as [cb|status response text]; simpl.
  - unfold LoadFontAsync. destruct (Z.eqb_spec (Status st) (-1)); [done|]. by simpl.
  - unfold onload, requests. destruct (negb (status =? 200)); simpl; [done|].
    split; [done|]. rewrite !List.filter_app, !length_app.
    destruct (callback st), (externalCallback st); simpl; lia.
Qed.

Lemma fold_loaded_before (es : list fevent) (st : fstate) :
  Status st <> -1 -> requests (fold_left fstep es st) = requests st.
Proof.
  revert st. induction es as [|e es IH]; intros st N; [done|].
  simpl. destruct (fstep_loaded_before st e N) as [N' R]. rewrite IH by done. exact R.
Qed.

(** X14.  A font file is requested at most once: whatever calls of
    [LoadFontAsync] and answers follow each other, a loader that has left
    the state [-1] never sends a request again, not even after an answer
    other than 200 has put it in the error state; one that is in state [-1]
    sends at most one. *)
Theorem font_requested_at_most_once (es : list fevent) (st : fstate) :
  (Status st <> -1 -> requests (fold_left fstep es st) = requests st)
  /\ (requests (fold_left fstep es st) <= requests st + 1)%nat.
Proof.
  split; [apply fold_loaded_before|].
  revert st. induction es as [|e es IH]; intros st; [simpl; lia|].
  destruct (Z.eq_dec (Status st) (-1)) as [E|N].
  - simpl. destruct e as [cb|status response text].
    + assert (S2 : Status (fstep st (Load cb)) <> -1)
        by (simpl; unfold LoadFontAsync; rewrite E; simpl; lia).
      rewrite fold_loaded_before by exact S2.
      simpl. unfold LoadFontAsync, requests. rewrite E. simpl.
      rewrite List.filter_app, length_app. simpl. lia.
    + etransitivity; [apply IH|].
      simpl. unfold onload, requests. destruct (negb (status =? 200)); simpl; [lia|].
      rewrite !List.filter_app, !length_app.
      destruct (callback st), (externalCallback st); simpl; lia.
  - rewrite fold_loaded_before by exact N. lia.
Qed.

(** X15.  Calls of [LoadFontAsync] made on a fresh loader before the answer
    arrives send one request, to [ascdesktop://fonts/] followed by the font
    id, and each replaces the callback of the one before.  When the answer
    200 arrives the stream is stored at the end of the stream table, the
    index reported is the place where it can be read back, the earlier
    streams are untouched, and only the callback of the last call runs,
    before the external one. *)
Theorem font_stream_is_stored_at_its_index
        (st : fstate) (cbs : list (option nat)) (last : option nat)
        (response : option (list Byte.byte)) (text : string) :
  Status st = -1 ->
  let entry := match response with
               | Some data => FontStream data (length data)
               | None => FontData3 text
               end in
  let st' := fold_left fstep (map Load cbs ++ [Load last; Loaded 200 response text]) st in
  Status st' = 0
  /\ g_fonts_streams st' = g_fonts_streams st ++ [entry]
  /\ g_fonts_streams st' !! length (g_fonts_streams st) = Some entry
  /\ (forall i, (i < length (g_fonts_streams st))%nat ->
        g_fonts_streams st' !! i = g_fonts_streams st !! i)
  /\ ftrace st'
     = ftrace st ++ [Request ("ascdesktop://fonts/" ++ Id st)%string;
                     SetStreamIndex (length (g_fonts_streams st))]
         ++ optCall Callback last ++ optCall ExternalCallback (externalCallback st).
Proof.
  intros E entry st'.
  assert (G : forall cbs s,
             Status s <> -1 ->
             fold_left fstep (map Load cbs ++ [Load last; Loaded 200 response text]) s
             = FState (Id s) 0 last (externalCallback s) (g_fonts_streams s ++ [entry])
                      (ftrace s ++ [SetStreamIndex (length (g_fonts_streams s))]
                         ++ optCall Callback last
                         ++ optCall ExternalCallback (externalCallback s))).
  { clear. induction cbs as [|cb cbs IH]; intros s N.
    - simpl. unfold LoadFontAsync. destruct (Z.eqb_spec (Status s) (-1)); [done|]. reflexivity.
    - cbn [map app fold_left].
      assert (Sx : fstep s (Load cb)
                   = FState (Id s) (Status s) cb (externalCallback s)
                            (g_fonts_streams s) (ftrace s)).
      { simpl. unfold LoadFontAsync. by destruct (Z.eqb_spec (Status s) (-1)). }
      rewrite Sx, IH by done. reflexivity. }
  assert (F : st' = FState (Id st) 0 last (externalCallback st)
                      (g_fonts_streams st ++ [entry])
                      (ftrace st ++ [Request ("ascdesktop://fonts/" ++ Id st)%string;
                                     SetStreamIndex (length (g_fonts_streams st))]
                         ++ optCall Callback last
                         ++ optCall ExternalCallback (externalCallback st))).
  { subst st'. destruct cbs as [|cb cbs].
    - simpl. unfold LoadFontAsync. rewrite E. simpl. unfold onload. simpl.
      by rewrite <- app_assoc.
    - cbn [map app fold_left].
      assert (Sx : fstep st (Load cb)
                   = FState (Id st) 2 cb (externalCallback st) (g_fonts_streams st)
                            (ftrace st ++ [Request ("ascdesktop://fonts/" ++ Id st)%string]))
        by (simpl; unfold LoadFontAsync; by rewrite E).
      rewrite Sx, G by done. cbn [Id externalCallback g_fonts_streams ftrace].
      by rewrite <- app_assoc. }
  rewrite F. cbn [Status g_fonts_streams ftrace]. repeat split.
  - by rewrite lookup_app_r, Nat.sub_diag.
  - intros i L. by rewrite lookup_app_l.
Qed.

End FontsFacts.

(** ** The drop handler *)

Section DragDropFacts.

Import DragDrop.
Local Open Scope list_scope.

Lemma scan_short (e : denv) (fs : list string) : (length (scan e fs) <= 1)%nat.
Proof.
  induction fs as [|f fs IH]; simpl; [lia|].
  destruct (IsImageFile e f); [|exact IH].
  destruct (String.eqb f ""); [exact IH|].
  destruct (negb _); simpl; lia.
Qed.

(** X16.  A drop leads to at most one insertion: the handler takes at most
    one image, and of the three things it can do with the dropped content
    (add the image, paste the HTML, paste the text) it does at most one,
    the image before the HTML and the HTML before the text. *)
Theorem drop_inserts_at_most_once (e : denv) :
  (length (scan e (files e)) <= 1)%nat
  /\ (length (List.filter isContent (ondrop e)) <= 1)%nat
  /\ (scan e (files e) <> [] -> ondrop e
      = [PreventDefault; EndInlineDropTarget; AddImageUrl (scan e (files e))])
  /\ (scan e (files e) = [] -> html e <> EmptyString ->
      ondrop e = [PreventDefault; EndInlineDropTarget; PasteHtml (html e)]).
Proof.
  pose proof (scan_short e (files e)) as L. split; [exact L|].
  unfold ondrop. cbv zeta.
  destruct (scan e (files e)) as [|x [|y l]] eqn:S; [| |simpl in L; lia].
  - simpl. split; [|split; [done|]].
    + destruct (negb (String.eqb (html e) "")); [simpl; lia|].
      destruct (negb (String.eqb (text e) "")); simpl; lia.
    + intros _ N. apply String.eqb_neq in N. by rewrite N.
  - simpl. split; [lia|]. by split.
Qed.

(** X17.  Only the first dropped file that is an image with a non-empty name
    counts: the files after it are not looked at, and if the host bridge
    gives no URL for it nothing is inserted, even when a later file is an
    image too. *)
Theorem drop_takes_first_image_only (e : denv) (pre post : list string) (f : string) :
  (forall g, In g pre -> IsImageFile e g = false \/ g = EmptyString) ->
  IsImageFile e f = true ->
  f <> EmptyString ->
  scan e (pre ++ f :: post)
  = if String.eqb (LocalFileGetImageUrl e f) ""
    then []
    else [DocumentUrls.getImageUrl (urls e) (LocalFileGetImageUrl e f)].
Proof.
  intros P I N. induction pre as [|g pre IH].
  - simpl. rewrite I. apply String.eqb_neq in N. rewrite N.
    by destruct (String.eqb (LocalFileGetImageUrl e f) "").
  - cbn [app scan].
    assert (IH' : scan e (pre ++ f :: post)
                  = if String.eqb (LocalFileGetImageUrl e f) ""
                    then []
                    else [DocumentUrls.getImageUrl (urls e) (LocalFileGetImageUrl e f)])
      by (apply IH; intros x Hx; apply P; by right).
    destruct (P g (or_introl eq_refl)) as [E | ->].
    + by rewrite E.
    + destruct (IsImageFile e ""); exact IH'.
Qed.

End DragDropFacts.

(** ** Local restrictions *)

Section RestrictionsFacts.

Import Restrictions.
Local Open Scope list_scope.

Variable None_ : value.
Variable hostHas : bool.

Lemma strictEq_refl (v : value) : strictEq v v = true.
Proof.
  destruct v; simpl; try done.
  - by destruct b.
  - apply Z.eqb_refl.
  - apply String.eqb_refl.
  - apply Nat.eqb_refl.
  - apply String.eqb_refl.
Qed.

(** X18.  What [asc_getLocalRestrictions] reads after
    [asc_setLocalRestrictions(v)] is [v], except that an undefined [v] reads
    as the constant [None]; the setter adds the view restriction unless [v]
    is that constant (it adds it for undefined, which then reads as [None])
    and removes it otherwise; the host bridge is told the value exactly when
    the call does not come from the application and the bridge has the
    function. *)
Theorem local_restrictions_set_then_get (v : value) (is_from_app : bool) (a : api) :
  let a' := asc_setLocalRestrictions None_ hostHas v is_from_app a in
  asc_getLocalRestrictions None_ a' = (if defined v then v else None_)
  /\ rtrace a'
     = rtrace a
       ++ [if strictEq v None_ then RemoveRestrictionView else AddRestrictionView]
       ++ (if negb is_from_app && hostHas then [HostSetLocalRestrictions v] else []).
Proof.
  intros a'. subst a'. unfold asc_setLocalRestrictions, asc_getLocalRestrictions.
  assert (G : forall tr, (if strictEq VUndefined (localRestrintions (Api v tr))
                          then None_ else localRestrintions (Api v tr))
                         = if defined v then v else None_)
    by (intros tr; by destruct v).
  destruct is_from_app, hostHas; cbn [negb andb]; rewrite G;
    destruct (strictEq v None_); cbn [negb rtrace];
    rewrite <- ?app_assoc, ?app_nil_r; by split.
Qed.

End RestrictionsFacts.

(** ** The further properties at sample inputs *)

Section FurtherSamples.

Lemma barrier_never_goes_back_sample :
  ready (run sampleHost (initReadiness (fresh minifiedPage 0))
             [Fire 0; Assign window "AscCommon" VNull; Elapse 5]) = Fulfilled.
Proof.
  apply (barrier_never_goes_back sampleHost (initReadiness (fresh minifiedPage 0))).
  reflexivity.
Defined.

Lemma resolving_only_after_ready_sample :
  ready (run sampleHost (loadScript sampleHost loadedPage 0)
             [CallDocumentEndLoad "/docs/a.xlsx" "AAAA" 4]) = Fulfilled.
Proof.
  apply (resolving_only_after_ready sampleHost loadedPage 0
           [CallDocumentEndLoad "/docs/a.xlsx" "AAAA" 4]).
  vm_compute. lia.
Defined.

Lemma resolve_outcome_sample :
  waitForPath "AscFonts.CFontFileLoader" CbFonts None (fresh emptyPage 0)
  = snd (setInterval
           (PathPoll (Watch "AscFonts.CFontFileLoader" ["AscFonts"; "CFontFileLoader"]
                            CbFonts 0 10000) window 0) 20
           (print LvLog ["[common.js] waitForPath starting:"; "AscFonts.CFontFileLoader"]
                  (fresh emptyPage 0))).
Proof.
  pose proof (resolve_outcome
                (Watch "AscFonts.CFontFileLoader" ["AscFonts"; "CFontFileLoader"]
                       CbFonts 0 10000)
                ["AscFonts"; "CFontFileLoader"] 0 window
                (print LvLog ["[common.js] waitForPath starting:"; "AscFonts.CFontFileLoader"]
                       (fresh emptyPage 0))) as [_ T].
  specialize (T 0%nat "AscFonts" eq_refl eq_refl). cbv zeta in T.
  destruct T as [T _]. exact (T eq_refl eq_refl).
Defined.


Lemma override_loses_one_trailing_slash_sample :
  documentUrl (documentEndLoadBody sampleHost "/docs/a.xlsx" "AAAA" 4 (fresh overridePage 0))
  = VStr "http://localhost:8080/doc".
Proof.
  apply (override_loses_one_trailing_slash sampleHost "http://localhost:8080/doc"
           "/docs/a.xlsx" "AAAA" 4 (fresh overridePage 0)); reflexivity.
Defined.

Lemma minified_sdk_defines_no_entry_points_sample :
  get (heap (loadScript sampleHost minifiedPage 0)) window "DesktopOfflineAppDocumentEndLoad"
  = VUndefined
  /\ get (heap (loadScript sampleHost loadedPage 0)) window "DesktopOfflineAppDocumentEndLoad"
     = VFun "DesktopOfflineAppDocumentEndLoad".
Proof.
  pose proof (minified_sdk_defines_no_entry_points sampleHost minifiedPage 0) as [T _].
  pose proof (minified_sdk_defines_no_entry_points sampleHost loadedPage 0) as [_ T'].
  specialize (T eq_refl). cbv zeta in T.
  destruct T as (_ & _ & _ & _ & _ & _ & _ & T & _).
  split; [apply T; [simpl; by left|reflexivity]|].
  apply T'; reflexivity.
Defined.

(** C10, counterexample.  On the page of the minified SDK neither of the two
    variables of the script is a property of [window] before the script
    runs; after it both are, [_isMinifiedSdk] holding [true]: the promise is
    not the only thing the script creates there. *)
Lemma minified_load_creates_its_variables :
  isMinifiedSdk minifiedPage = true
  /\ getOwnPropertyDescriptor minifiedPage window "_isMinifiedSdk" = None
  /\ getOwnPropertyDescriptor minifiedPage window "_documentLoadStarted" = None
  /\ getOwnPropertyDescriptor (heap (loadScript sampleHost minifiedPage 0)) window
                              "_isMinifiedSdk"
     = Some (Data (VBool true))
  /\ getOwnPropertyDescriptor (heap (loadScript sampleHost minifiedPage 0)) window
                              "_documentLoadStarted"
     = Some (Data VUndefined)
  /\ getOwnPropertyDescriptor (heap (loadScript sampleHost minifiedPage 0)) window
                              "_commonJsReady"
     = Some (Data VPromise).
Proof. vm_compute. repeat split. Qed.

Lemma base_url_has_scheme_sample :
  hasScheme "file:///docs/a.xlsx" = true
  /\ resolveDocumentUrl VUndefined "file:///docs/a.xlsx" = Some "file:///docs/a.xlsx".
Proof.
  apply (base_url_has_scheme VUndefined "/docs/a.xlsx" "file:///docs/a.xlsx");
    reflexivity.
Defined.

Lemma getLocal_of_getUrl_sample :
  DocumentUrls.getLocal sampleUrls (DocumentUrls.getUrl sampleUrls "image%201.png")
  = Some (VStr "image 1.png").
Proof.
  apply (getLocal_of_getUrl sampleUrls "image%201.png"); reflexivity.
Defined.

Lemma getImageLocal_cuts_after_marker_sample :
  exists pre marker : string,
    "http://localhost:8080/api/media/0123abcd/image1.png" = (pre ++ marker ++ "image1.png")%string
    /\ ((pre = EmptyString
         /\ marker = (DocumentUrls.thisDocumentUrl sampleUrls ++ "/media/")%string)
        \/ (DocumentUrls.fileHash sampleUrls <> EmptyString
            /\ marker = ("/api/media/" ++ DocumentUrls.fileHash sampleUrls ++ "/")%string)
        \/ (pre = EmptyString
            /\ exists ThemesUrl,
                DocumentUrls.themeLoader sampleUrls = Some (ThemesUrl, marker))).
Proof.
  apply (getImageLocal_cuts_after_marker sampleUrls
           "http://localhost:8080/api/media/0123abcd/image1.png" "image1.png").
  reflexivity.
Defined.

Lemma font_requested_at_most_once_sample :
  Fonts.requests
    (fold_left Fonts.fstep
               [Fonts.Load None; Fonts.Loaded 404 None ""; Fonts.Load None; Fonts.Load None]
               sampleLoader) = 1%nat.
Proof.
  pose proof (font_requested_at_most_once
                [Fonts.Loaded 404 None ""; Fonts.Load None; Fonts.Load None]
                (Fonts.fstep sampleLoader (Fonts.Load None))) as [T _].
  change (fold_left Fonts.fstep
            [Fonts.Load None; Fonts.Loaded 404 None ""; Fonts.Load None; Fonts.Load None]
            sampleLoader)
    with (fold_left Fonts.fstep
            [Fonts.Loaded 404 None ""; Fonts.Load None; Fonts.Load None]
            (Fonts.fstep sampleLoader (Fonts.Load None))).
  rewrite T; [reflexivity|]. simpl. lia.
Defined.

Lemma font_stream_is_stored_at_its_index_sample :
  Fonts.ftrace
    (fold_left Fonts.fstep
               [Fonts.Load (Some 1%nat); Fonts.Load (Some 2%nat); Fonts.Loaded 200 None "data"]
               sampleLoader)
  = [Fonts.Request "ascdesktop://fonts/arial.ttf"; Fonts.SetStreamIndex 0;
     Fonts.Callback 2; Fonts.ExternalCallback 9].
Proof.
  pose proof (font_stream_is_stored_at_its_index sampleLoader [Some 1%nat] (Some 2%nat)
                None "data" eq_refl) as T.
  cbv zeta in T. destruct T as (_ & _ & _ & _ & T). exact T.
Defined.

Lemma drop_inserts_at_most_once_sample :
  DragDrop.ondrop sampleDrop
  = [DragDrop.PreventDefault; DragDrop.EndInlineDropTarget;
     DragDrop.AddImageUrl [Some "file:///docs/report.xlsx/media/a.png"]].
Proof.
  pose proof (drop_inserts_at_most_once sampleDrop) as (_ & _ & T & _).
  apply T. vm_compute. discriminate.
Defined.

Lemma drop_takes_first_image_only_sample :
  DragDrop.scan sampleDrop ["notes.txt"; "a.png"; "b.png"]
  = [Some "file:///docs/report.xlsx/media/a.png"].
Proof.
  apply (drop_takes_first_image_only sampleDrop ["notes.txt"] ["b.png"] "a.png").
  - intros g [<-|[]]. by left.
  - reflexivity.
  - discriminate.
Defined.

End FurtherSamples.

(** ** Signature requests *)

Section SigningFacts.

Import Signing.

Local Open Scope list_scope.

Lemma signed_first (sigs : list signature) (g : string) (s : signature) :
  signed sigs g = Some s <->
  exists pre post,
    sigs = pre ++ s :: post /\ guid s = g /\ Forall (fun x => guid x <> g) pre.
Proof.
  split.
  - induction sigs as [|x sigs IH]; simpl; [done|].
    destruct (String.eqb_spec (guid x) g) as [E|N].
    + intros [= <-]. by exists [], sigs.
    + intros F. destruct (IH F) as (pre & post & -> & G & P).
      exists (x :: pre), post. repeat split; [done|by constructor].
  - intros (pre & post & -> & G & P). induction P as [|x pre N P IH]; simpl.
    + apply String.eqb_eq in G. by rewrite G.
    + apply String.eqb_neq in N. by rewrite N.
Qed.

Lemma signed_none (sigs : list signature) (g : string) :
  signed sigs g = None <-> Forall (fun x => guid x <> g) sigs.
Proof.
  induction sigs as [|x sigs IH]; simpl; [by split; [constructor|]|].
  destruct (String.eqb_spec (guid x) g) as [E|N].
  - split; [done|]. intros F. inversion F; subst. done.
  - rewrite IH. split; [by constructor|]. intros F. by inversion F.
Qed.

(** X19.  A request for a line that is already signed asks nothing: no
    save question, no signature click, and the remembered request is left as
    it was.  When the request is a view request the certificate shown is
    that of the first signature with the identifier, later ones with the same
    identifier are not looked at; otherwise nothing happens at all. *)
Theorem signed_line_is_never_requested
        (ed : editor) (pre post : list signature) (s : signature)
        (width height isView : value) (st : sstate) :
  signatures ed = pre ++ s :: post ->
  Forall (fun x => guid x <> guid s) pre ->
  isRestrictionView ed = false ->
  asc_LocalRequestSign ed (guid s) width height isView st
  = if Restrictions.strictEq isView (VBool true)
    then SState (SaveQuestionObjectBeforeSign st) (strace st ++ [ViewCertificate (id s)])
    else st.
Proof.
  intros E P R. unfold asc_LocalRequestSign. cbv zeta. rewrite R.
  assert (signed (signatures ed) (guid s) = Some s) as ->.
  { apply signed_first. by exists pre, post. }
  reflexivity.
Qed.

(** X20.  One request makes at most one call.  The save question is asked
    exactly when the editor is not restricted to viewing, no signature has
    the identifier and the document is modified, and only then is the
    remembered request replaced; it then carries the identifier asked for.
    Declining the question afterwards forgets the request again. *)
Theorem save_question_only_for_modified_unsigned
        (ed : editor) (g : string) (width height isView : value) (st : sstate) :
  let st' := asc_LocalRequestSign ed g width height isView st in
  let asks := negb (isRestrictionView ed) && isDocumentModified ed
              && negb (existsb (fun x => String.eqb (guid x) g) (signatures ed)) in
  (exists cs, strace st' = strace st ++ cs /\ (length cs <= 1)%nat
              /\ (In SaveQuestion cs <-> asks = true))
  /\ (if asks
      then exists q, SaveQuestionObjectBeforeSign st' = Some q /\ qguid q = g
      else SaveQuestionObjectBeforeSign st' = SaveQuestionObjectBeforeSign st)
  /\ SaveQuestionObjectBeforeSign (DesktopSaveQuestionReturn false st') = None.
Proof.
  cbv zeta.
  assert (X : existsb (fun x => String.eqb (guid x) g) (signatures ed)
              = match signed (signatures ed) g with Some _ => true | None => false end).
  { induction (signatures ed) as [|x l IH]; simpl; [done|].
    destruct (String.eqb (guid x) g); simpl; [done|exact IH]. }
  rewrite X. unfold asc_LocalRequestSign. cbv zeta.
  split; [|split; [|reflexivity]].
  - destruct (isRestrictionView ed); simpl.
    { exists []. rewrite app_nil_r. repeat split; simpl; try lia; try done. }
    destruct (signed (signatures ed) g) as [s|].
    + rewrite andb_false_r.
      destruct (Restrictions.strictEq isView (VBool true)); simpl.
      * exists [ViewCertificate (id s)]. repeat split; simpl; try lia; try done.
        by intros [|[]].
      * exists []. rewrite app_nil_r. repeat split; simpl; try lia; try done.
    + rewrite andb_true_r. destruct (isDocumentModified ed); simpl.
      * exists [SaveQuestion]. repeat split; simpl; try lia; try done. by left.
      * eexists [_]. repeat split; simpl; try lia; try done. by intros [|[]].
  - destruct (isRestrictionView ed); simpl; [done|].
    destruct (signed (signatures ed) g) as [s|].
    + rewrite andb_false_r.
      by destruct (Restrictions.strictEq isView (VBool true)).
    + rewrite andb_true_r. destruct (isDocumentModified ed); simpl; [|done].
      by eexists.
Qed.

Lemma signed_line_is_never_requested_sample :
  asc_LocalRequestSign sampleEditor "g1" VUndefined VUndefined (VBool true) (SState None [])
  = SState None [ViewCertificate 0].
Proof.
  apply (signed_line_is_never_requested sampleEditor [] [Signature "g2" 1; Signature "g1" 2]
           (Signature "g1" 0) VUndefined VUndefined (VBool true) (SState None []));
    [reflexivity|constructor|reflexivity].
Defined.

End SigningFacts.
